(** * City-tank: the authoritative game server and the audio codec

    A shallow embedding of [server/index.js] (the Entity Store, the socket
    handlers, the game loop, the bullet timers and the cleanup sweep) and of
    [compressAudio] / [decompressAudio] of [client/audio.js], with the
    properties the specification states about them.

    Conventions.
    - A JavaScript number is an IEEE 754 binary64 value: [num] is
      [spec_float] with the operations of [SpecFloat] at precision 53 and
      maximal exponent 1024, so comparisons with NaN and the infinities
      behave as in the engine.
    - [Date.now()] readings are integers ([Z]); a field that can be
      [undefined] is an [option].
    - A JavaScript [Map] is an association list in insertion order
      ([Map.forEach] visits entries in that order).
    - [Math.cos], [Math.sin] and the conversion of strings and objects to
      numbers are supplied by the engine ([Engine.t]); a conversion that
      throws is [None], and the handlers and loops stop where the code
      would be left by the exception. *)

From Stdlib Require Import ZArith QArith Qabs List String Bool Lia.
From Stdlib Require Import SpecFloat.
Import ListNotations.

Set Warnings "-register-all".
Local Open Scope string_scope.
Local Open Scope Z_scope.
Local Open Scope list_scope.

(* ================================================================== *)
(** ** JavaScript numbers *)

Module Num.

Definition num : Type := spec_float.

Definition prec : Z := 53.
Definition emax : Z := 1024.

(** An integer literal such as [20] or [800]. *)
Definition of_Z (z : Z) : num := binary_normalize prec emax z 0 false.

Definition nan : num := S754_nan.
Definition pos_inf : num := S754_infinity false.
Definition neg_inf : num := S754_infinity true.

Definition add (a b : num) : num := SFadd prec emax a b.
Definition sub (a b : num) : num := SFsub prec emax a b.
Definition mul (a b : num) : num := SFmul prec emax a b.
Definition div (a b : num) : num := SFdiv prec emax a b.

(** [a < b], [a > b], [a <= b]: all false when an operand is NaN. *)
Definition lt (a b : num) : bool := SFltb a b.
Definition gt (a b : num) : bool := SFltb b a.
Definition le (a b : num) : bool := SFleb a b.

Definition is_nan (a : num) : bool :=
  match a with S754_nan => true | _ => false end.

Definition is_zero (a : num) : bool :=
  match a with S754_zero _ => true | _ => false end.

(** [Math.max(a, b)]: NaN if either is NaN, and +0 is larger than -0. *)
Definition Math_max (a b : num) : num :=
  match a, b with
  | S754_nan, _ | _, S754_nan => S754_nan
  | S754_zero sa, S754_zero sb => S754_zero (sa && sb)
  | _, _ => if SFltb a b then b else a
  end.

(** [Math.min(a, b)]: NaN if either is NaN, and -0 is smaller than +0. *)
Definition Math_min (a b : num) : num :=
  match a, b with
  | S754_nan, _ | _, S754_nan => S754_nan
  | S754_zero sa, S754_zero sb => S754_zero (sa || sb)
  | _, _ => if SFltb b a then b else a
  end.

(** [Math.sqrt]: the correctly rounded square root. *)
Definition Math_sqrt (a : num) : num := SFsqrt prec emax a.

(** [Math.pow(a, 2)]: for the exponent 2 the result is the product
    [a * a]. *)
Definition Math_pow2 (a : num) : num := mul a a.

(** [Math.PI = 0x1.921fb54442d18p+1]. *)
Definition Math_PI : num := S754_finite false 7074237752028440 (-51).

End Num.

Import Num.

(* ================================================================== *)
(** ** JavaScript values carried by messages *)

Module Js.

(** The payload of a socket message, as decoded from the wire. *)
Inductive jsval : Type :=
| JUndefined
| JNull
| JBool (b : bool)
| JNum (n : num)
| JStr (s : string)
| JArr (items : list jsval)
| JObj (fields : list (string * jsval)).

(** [typeof v === 'number'] *)
Definition is_number (v : jsval) : bool :=
  match v with JNum _ => true | _ => false end.

(** [typeof v === 'boolean'] *)
Definition is_boolean (v : jsval) : bool :=
  match v with JBool _ => true | _ => false end.

(** ToBoolean: what [if (v)], [v && ...], [v || ...] and [!v] test. *)
Definition truthy (v : jsval) : bool :=
  match v with
  | JUndefined | JNull => false
  | JBool b => b
  | JNum n => negb (is_zero n || is_nan n)
  | JStr s => negb (String.eqb s EmptyString)
  | JArr _ | JObj _ => true
  end.

Fixpoint lookup (k : string) (fields : list (string * jsval)) : jsval :=
  match fields with
  | [] => JUndefined
  | (k', v) :: rest => if String.eqb k k' then v else lookup k rest
  end.

(** [v.k] for the property names the server reads ([x], [y], [angle],
    [data], [timestamp], [enabled]): an own property of an object, [undefined] on
    anything else.  Every read in the server is guarded by [v && ...], so
    [undefined.k] and [null.k] are never evaluated. *)
Definition get (v : jsval) (k : string) : jsval :=
  match v with
  | JObj fields => lookup k fields
  | _ => JUndefined
  end.

(** [{...o, k: v}] on the property list: an existing key keeps its place
    and takes the new value, a new key is appended. *)
Fixpoint set_field (k : string) (v : jsval) (fields : list (string * jsval))
  : list (string * jsval) :=
  match fields with
  | [] => [(k, v)]
  | (k', v') :: rest =>
      if String.eqb k k' then (k, v) :: rest else (k', v') :: set_field k v rest
  end.

(** The own enumerable properties that [...v] copies, for a value [v]
    that has a truthy [data] property (an object). *)
Definition spread (v : jsval) : list (string * jsval) :=
  match v with
  | JObj fields => fields
  | _ => []
  end.

End Js.

Import Js.

(* ================================================================== *)
(** ** The engine *)

Module Engine.

(** What the JavaScript engine supplies: [Math.cos] and [Math.sin], which
    ECMAScript leaves to the implementation, and [coerce], the conversion
    to a number of a string, an array or an object (StringToNumber,
    OrdinaryToPrimitive).  [coerce v = None] when the conversion throws a
    TypeError, as for an object whose [valueOf] and [toString] are not
    callable. *)
Record t : Type := mk {
  Math_cos : num -> num;
  Math_sin : num -> num;
  coerce : jsval -> option num
}.

(** ToNumber, as applied by [bullet.angle * Math.PI] and by
    [Date.now() - audioData.timestamp]. *)
Definition ToNumber (e : t) (v : jsval) : option num :=
  match v with
  | JUndefined => Some nan
  | JNull => Some (of_Z 0)
  | JBool b => Some (if b then of_Z 1 else of_Z 0)
  | JNum n => Some n
  | JStr _ | JArr _ | JObj _ => coerce e v
  end.

(** The values ECMAScript fixes exactly: [Math.cos] is 1 at +0 and -0,
    [Math.sin] is +0 at +0 and -0 at -0, and both are NaN at NaN and at
    the infinities.  At the other arguments the engine's approximation is
    not reproduced here (NaN): this table runs the model on bullets fired
    at angle 0 and on payloads made of numbers. *)
Definition cos_table (a : num) : num :=
  match a with
  | S754_zero _ => of_Z 1
  | _ => nan
  end.

Definition sin_table (a : num) : num :=
  match a with
  | S754_zero s => S754_zero s
  | _ => nan
  end.

Definition table : t := mk cos_table sin_table (fun _ => Some nan).

End Engine.

(* ================================================================== *)
(** ** The audio codec of the client ([compressAudio], [decompressAudio])

    [audioData] is a [Float32Array], [compressed] an [Int16Array] and
    [decompressed] a [Float32Array]; the arithmetic in between is that of
    JavaScript numbers (binary64).  An element read from a typed array is
    the number of the same value. *)

Module Codec.

(** The real number a finite binary float stands for. *)
Definition value (f : spec_float) : Q :=
  match f with
  | S754_finite s m e =>
      match e with
      | Zneg p => Qmake (cond_Zopp s (Zpos m)) (2 ^ p)
      | _ => inject_Z (cond_Zopp s (Zpos m) * 2 ^ e)
      end
  | _ => 0%Q
  end.

Definition is_finite (f : spec_float) : bool :=
  match f with
  | S754_zero _ | S754_finite _ _ _ => true
  | _ => false
  end.

(** A finite binary32 value: what a sample in a [Float32Array] is. *)
Definition float32 (x : spec_float) : bool :=
  is_finite x && valid_binary 24 128 x.

(** A rational with its fraction dropped (towards zero). *)
Definition trunc (v : Q) : Z := Z.quot (Qnum v) (Zpos (Qden v)).

Definition wrap16 (n : Z) : Z := (n + 32768) mod 65536 - 32768.

(** The store into an [Int16Array] element (ToInt16): NaN and the
    infinities become 0, the fraction is dropped (towards zero) and the
    integer is reduced modulo 2^16 into [-32768, 32767]. *)
Definition ToInt16 (f : num) : Z :=
  match f with
  | S754_finite s m e =>
      wrap16 (cond_Zopp s
                (match e with
                 | Zneg p => Zpos m / 2 ^ Zpos p
                 | _ => Zpos m * 2 ^ e
                 end))
  | _ => 0
  end.

(** [compressed[i] = Math.max(-32768, Math.min(32767, audioData[i] * 32767))] *)
Definition compress_sample (x : num) : Z :=
  ToInt16
    (Math_max (of_Z (-32768)) (Math_min (of_Z 32767) (mul x (of_Z 32767)))).

(** The store into a [Float32Array] element: the number is rounded to the
    nearest binary32 value, ties to even. *)
Definition to_float32 (d : num) : spec_float :=
  match d with
  | S754_finite s m e => binary_round 24 128 s m e
  | _ => d
  end.

(** [decompressed[i] = compressedData[i] / 32767] *)
Definition decompress_sample (n : Z) : spec_float :=
  to_float32 (div (of_Z n) (of_Z 32767)).

Definition compressAudio (audioData : list spec_float) : list Z :=
  map compress_sample audioData.

Definition decompressAudio (compressedData : list Z) : list spec_float :=
  map decompress_sample compressedData.

(** One quantization step. *)
Definition step : Q := 1 # 32767.

(** A sample of [-1, 1]. *)
Definition sample (x : spec_float) : Prop :=
  float32 x = true /\ (-1 <= value x)%Q /\ (value x <= 1)%Q.

(** The cell of the quantizer for the compressed element [j], with
    [1 <= j <= 32767]: the samples [x] with [j <= 32767 x < j + 1].  With
    [R / 2^w] the decompressed value of [j], the test says that this
    value is at most one step above the lower end of the cell, and that it
    is at or above that end, or else normal and so close to it that no
    multiple of [2^-w], hence no binary32 number, lies in the part of the
    cell that is more than one step above it. *)
Definition cell_ok (j : Z) : bool :=
  match decompress_sample j with
  | S754_finite false R (Zneg w) =>
      let W := 2 ^ Zpos w in
      (32767 * Zpos R <=? (j + 1) * W) &&
      ((j * W <=? 32767 * Zpos R) ||
       ((2 ^ 23 <=? Zpos R) &&
        ((j + 1) * W <=? 32767 * (Zpos R + W / 32767 + 1))))
  | _ => false
  end.

(** [cell_ok] on the [n] cells from [j] on. *)
Fixpoint cells_ok (j : Z) (n : nat) : bool :=
  match n with
  | O => true
  | S n' => cell_ok j && cells_ok (j + 1) n'
  end.

End Codec.

(* ================================================================== *)
(** ** [Map]: insertion-ordered association lists *)

Module JsMap.

Section Ops.
Context {K V : Type} (eqb : K -> K -> bool).

(** [m.get(k)] *)
Fixpoint get (k : K) (m : list (K * V)) : option V :=
  match m with
  | [] => None
  | (k', v) :: rest => if eqb k k' then Some v else get k rest
  end.

(** [m.has(k)] *)
Definition has (k : K) (m : list (K * V)) : bool :=
  match get k m with Some _ => true | None => false end.

(** [m.set(k, v)]: an existing key keeps its place, a new key goes last.
    Writing a field of the object stored under [k] is [set k] of the
    updated record. *)
Fixpoint set (k : K) (v : V) (m : list (K * V)) : list (K * V) :=
  match m with
  | [] => [(k, v)]
  | (k', v') :: rest =>
      if eqb k k' then (k, v) :: rest else (k', v') :: set k v rest
  end.

(** [m.delete(k)] *)
Fixpoint delete (k : K) (m : list (K * V)) : list (K * V) :=
  match m with
  | [] => []
  | (k', v') :: rest =>
      if eqb k k' then delete k rest else (k', v') :: delete k rest
  end.

End Ops.

Definition keys {K V : Type} (m : list (K * V)) : list K := map fst m.

(** [Array.from(m.values())] *)
Definition values {K V : Type} (m : list (K * V)) : list V := map snd m.

End JsMap.

(* ================================================================== *)
(** ** The Entity Store *)

Module Player.

Record t : Type := mk {
  id : string;
  x : num;
  y : num;
  angle : jsval;
  color : string;
  name : string;
  health : Z;
  audioEnabled : bool;
  lastAudioPacket : Z;
  connectedAt : Z;
  transport : string;
  lastActivity : option Z;     (* undefined until the first accepted move *)
  lastShoot : option Z         (* undefined until the first accepted shot *)
}.

(** [player.x = ..; player.y = ..; player.angle = ..; player.lastActivity = ..] *)
Definition moved (p : t) (x' y' : num) (angle' : jsval) (now : Z) : t :=
  mk (id p) x' y' angle' (color p) (name p) (health p) (audioEnabled p)
     (lastAudioPacket p) (connectedAt p) (transport p) (Some now) (lastShoot p).

(** [player.lastShoot = now] *)
Definition shot (p : t) (now : Z) : t :=
  mk (id p) (x p) (y p) (angle p) (color p) (name p) (health p)
     (audioEnabled p) (lastAudioPacket p) (connectedAt p) (transport p)
     (lastActivity p) (Some now).

(** [player.audioEnabled = b] *)
Definition with_audioEnabled (p : t) (b : bool) : t :=
  mk (id p) (x p) (y p) (angle p) (color p) (name p) (health p) b
     (lastAudioPacket p) (connectedAt p) (transport p) (lastActivity p)
     (lastShoot p).

(** [player.lastAudioPacket = now] *)
Definition with_lastAudioPacket (p : t) (now : Z) : t :=
  mk (id p) (x p) (y p) (angle p) (color p) (name p) (health p)
     (audioEnabled p) now (connectedAt p) (transport p) (lastActivity p)
     (lastShoot p).

(** [player.transport = name] *)
Definition with_transport (p : t) (tr : string) : t :=
  mk (id p) (x p) (y p) (angle p) (color p) (name p) (health p)
     (audioEnabled p) (lastAudioPacket p) (connectedAt p) tr
     (lastActivity p) (lastShoot p).

End Player.

Module Bullet.

Record t : Type := mk {
  id : Z;
  playerId : string;
  x : num;
  y : num;
  angle : jsval;
  speed : num;
  createdAt : Z
}.

(** [bullet.x += ..; bullet.y += ..] *)
Definition at_position (b : t) (x' y' : num) : t :=
  mk (id b) (playerId b) x' y' (angle b) (speed b) (createdAt b).

End Bullet.

(* ================================================================== *)
(** ** Messages the server emits *)

Inductive payload : Type :=
| GameState (players : list Player.t) (bullets : list Bullet.t)
            (transport : string)     (* walls: []; serverInfo: constants *)
| PlayerJoined (p : Player.t)
| PlayerMoved (id : string) (x y : num) (angle : jsval)
| BulletCreated (b : Bullet.t)
| BulletDestroyed (id : Z)
| PlayerDamaged (id : string) (damage : Z)
| PlayerLeft (id : string)
| AudioStream (frame : list (string * jsval))
| PlayerAudioState (playerId : string) (audioEnabled : bool).

(** Where an emit goes. *)
Inductive target : Type :=
| ToSocket (sid : string)            (* socket.emit *)
| Broadcast (sender : string)        (* socket.broadcast.emit *)
| ToAll                              (* io.emit *)
| ToRoom (sender room : string).     (* socket.to(room).emit *)

Definition emit : Type := (target * payload)%type.

(** The connected sockets an emit reaches.  Every socket is in the room
    named by its own id. *)
Definition recipients (sockets : list string) (t : target) : list string :=
  match t with
  | ToSocket sid => filter (String.eqb sid) sockets
  | Broadcast sender => filter (fun s => negb (String.eqb s sender)) sockets
  | ToAll => sockets
  | ToRoom sender room =>
      filter (fun s => String.eqb s room && negb (String.eqb s sender)) sockets
  end.

(* ================================================================== *)
(** ** The server: [gameState], the handlers and the intervals *)

Module Server.

(** [audioStats] *)
Record stats : Type := mk_stats {
  packetsPerSecond : Z;
  totalPackets : Z;
  activeStreams : Z;
  averageLatency : num;
  peakConcurrentUsers : Z
}.

(** [gameState.players], [gameState.bullets], [bulletIdCounter] and
    [audioStats], together with what the runtime holds for the server: the
    connected sockets and the pending [setTimeout] callbacks (one per
    accepted shot, named by the bullet id it closes over).
    [gameState.walls] and [gameState.audioRooms] are never written. *)
Record state : Type := mk {
  sockets : list string;
  players : list (string * Player.t);
  bullets : list (Z * Bullet.t);
  bulletIdCounter : Z;
  timers : list Z;
  audioStats : stats
}.

Definition init : state :=
  mk [] [] [] 0 [] (mk_stats 0 0 0 (of_Z 0) 0).

Definition with_sockets (s : state) (l : list string) : state :=
  mk l (players s) (bullets s) (bulletIdCounter s) (timers s) (audioStats s).

Definition with_players (s : state) (ps : list (string * Player.t)) : state :=
  mk (sockets s) ps (bullets s) (bulletIdCounter s) (timers s) (audioStats s).

Definition with_bullets (s : state) (bs : list (Z * Bullet.t)) : state :=
  mk (sockets s) (players s) bs (bulletIdCounter s) (timers s) (audioStats s).

Definition with_timers (s : state) (ts : list Z) : state :=
  mk (sockets s) (players s) (bullets s) (bulletIdCounter s) ts (audioStats s).

Definition with_audioStats (s : state) (a : stats) : state :=
  mk (sockets s) (players s) (bullets s) (bulletIdCounter s) (timers s) a.

Definition player_of (s : state) (sid : string) : option Player.t :=
  JsMap.get String.eqb sid (players s).

(** [c++] on a counter held in a binary64 number: exact below 2^53, where
    adding one rounds back to the same value. *)
Definition next_id (c : Z) : Z := if c <? 2 ^ 53 then c + 1 else c.

(** A timestamp field under [!t] / [t && ...]: [undefined] and [0] are
    falsy. *)
Definition stamped (t : option Z) : bool :=
  match t with
  | None => false
  | Some v => negb (v =? 0)
  end.

(** *** [io.on('connection')]

    [rx], [ry] are the two [Math.random()] draws of the spawn position;
    [color] and [name] are the strings built from the next two draws;
    [t_audio], [t_conn] are the two [Date.now()] readings. *)
Definition newPlayer (sid transport : string) (rx ry : num)
    (color name : string) (t_audio t_conn : Z) : Player.t :=
  Player.mk sid
    (add (mul rx (of_Z 760)) (of_Z 20))
    (add (mul ry (of_Z 560)) (of_Z 20))
    (JNum (of_Z 0)) color name 100 false t_audio t_conn transport None None.

Definition on_connection (sid transport : string) (rx ry : num)
    (color name : string) (t_audio t_conn : Z) (s : state)
  : state * list emit :=
  let p := newPlayer sid transport rx ry color name t_audio t_conn in
  let s' := with_players s (JsMap.set String.eqb sid p (players s)) in
  (s', [ (ToSocket sid,
          GameState (JsMap.values (players s')) (JsMap.values (bullets s'))
                    transport);
         (Broadcast sid, PlayerJoined p) ]).

(** *** [socket.conn.on('upgrade')] *)
Definition on_upgrade (sid transport : string) (s : state)
  : state * list emit :=
  match player_of s sid with
  | Some p =>
      (with_players s
         (JsMap.set String.eqb sid (Player.with_transport p transport)
            (players s)), [])
  | None => (s, [])
  end.

(** *** [socket.on('ping')]: the callback is called, nothing else. *)
Definition on_ping (s : state) : state * list emit := (s, []).

(** *** [socket.on('playerMove')] *)

(** [player && data && typeof data.x === 'number' && typeof data.y === 'number'],
    without the [player] test. *)
Definition move_guard (data : jsval) : bool :=
  truthy data && is_number (get data "x") && is_number (get data "y").

(** The number behind a value that passed [typeof v === 'number']. *)
Definition number_of (v : jsval) : num :=
  match v with JNum n => n | _ => nan end.

(** [Math.max(20, Math.min(hi, v))] *)
Definition clamp (hi : Z) (v : num) : num :=
  Math_max (of_Z 20) (Math_min (of_Z hi) v).

(** [data.angle || 0] *)
Definition angle_or_0 (data : jsval) : jsval :=
  if truthy (get data "angle") then get data "angle" else JNum (of_Z 0).

Definition on_playerMove (sid : string) (data : jsval) (now : Z) (s : state)
  : state * list emit :=
  match player_of s sid with
  | Some player =>
      if move_guard data then
        let x' := clamp 800 (number_of (get data "x")) in
        let y' := clamp 600 (number_of (get data "y")) in
        let a' := angle_or_0 data in
        let player' := Player.moved player x' y' a' now in
        (with_players s (JsMap.set String.eqb sid player' (players s)),
         [ (Broadcast sid, PlayerMoved sid x' y' a') ])
      else (s, [])
  | None => (s, [])
  end.

(** *** [socket.on('playerShoot')] *)

(** [!player.lastShoot || now - player.lastShoot > 200] *)
Definition may_shoot (lastShoot : option Z) (now : Z) : bool :=
  negb (stamped lastShoot) ||
  match lastShoot with
  | Some t => 200 <? now - t
  | None => false
  end.

Definition new_bullet (s : state) (sid : string) (player : Player.t) (now : Z)
  : Bullet.t :=
  Bullet.mk (bulletIdCounter s) sid (Player.x player) (Player.y player)
            (Player.angle player) (of_Z 300) now.

Definition on_playerShoot (sid : string) (now : Z) (s : state)
  : state * list emit :=
  match player_of s sid with
  | Some player =>
      if may_shoot (Player.lastShoot player) now then
        let bullet := new_bullet s sid player now in
        (mk (sockets s)
            (JsMap.set String.eqb sid (Player.shot player now) (players s))
            (JsMap.set Z.eqb (Bullet.id bullet) bullet (bullets s))
            (next_id (bulletIdCounter s))
            (timers s ++ [Bullet.id bullet])
            (audioStats s),
         [ (ToAll, BulletCreated bullet) ])
      else (s, [])
  | None => (s, [])
  end.

(** *** The callback of [setTimeout(.., 3000)] for bullet [bid] *)
Definition on_bulletTimeout (bid : Z) (s : state) : state * list emit :=
  (with_bullets s (JsMap.delete Z.eqb bid (bullets s)),
   [ (ToAll, BulletDestroyed bid) ]).

(** *** [getNearbyPlayers(player, radius)] *)

(** [Math.sqrt(Math.pow(player.x - otherPlayer.x, 2) + Math.pow(player.y - otherPlayer.y, 2))] *)
Definition distance (player otherPlayer : Player.t) : num :=
  Math_sqrt
    (add (Math_pow2 (sub (Player.x player) (Player.x otherPlayer)))
         (Math_pow2 (sub (Player.y player) (Player.y otherPlayer)))).

Definition is_nearby (player : Player.t) (radius : num)
    (entry : string * Player.t) : bool :=
  negb (String.eqb (fst entry) (Player.id player)) &&
  le (distance player (snd entry)) radius.

Definition getNearbyPlayers (ps : list (string * Player.t))
    (player : Player.t) (radius : num) : list string :=
  JsMap.keys (filter (is_nearby player radius) ps).

(** *** [socket.on('audioStream')] *)

(** [audioData && audioData.data], without the [player] test. *)
Definition audio_guard (audioData : jsval) : bool :=
  truthy audioData && truthy (get audioData "data").

(** [{...audioData, playerId: socket.id, playerName: player.name}] *)
Definition tagged (audioData : jsval) (sid name : string)
  : list (string * jsval) :=
  set_field "playerName" (JStr name)
    (set_field "playerId" (JStr sid) (spread audioData)).

(** [audioStats.packetsPerSecond++; audioStats.totalPackets++] *)
Definition count_packet (a : stats) : stats :=
  mk_stats (next_id (packetsPerSecond a)) (next_id (totalPackets a))
           (activeStreams a) (averageLatency a) (peakConcurrentUsers a).

(** Lines 219-222.  [None]: the subtraction throws (the timestamp cannot
    be converted to a number).  Otherwise the statistics after
    [averageLatency = (averageLatency + latency) / 2]. *)
Definition note_latency (e : Engine.t) (audioData : jsval) (t_latency : Z)
    (a : stats) : option stats :=
  if truthy (get audioData "timestamp") then
    match Engine.ToNumber e (get audioData "timestamp") with
    | Some ts =>
        let latency := sub (of_Z t_latency) ts in
        Some (mk_stats (packetsPerSecond a) (totalPackets a) (activeStreams a)
                (div (add (averageLatency a) latency) (of_Z 2))
                (peakConcurrentUsers a))
    | None => None
    end
  else Some a.

(** The emits of lines 225-244 for the sender [player]. *)
Definition relay (sid : string) (audioData : jsval)
    (ps : list (string * Player.t)) (player : Player.t) : list emit :=
  let nearbyPlayers := getNearbyPlayers ps player (of_Z 300) in
  let frame := tagged audioData sid (Player.name player) in
  match nearbyPlayers with
  | _ :: _ =>
      flat_map
        (fun nearbyPlayerId =>
           if negb (String.eqb nearbyPlayerId sid)
           then [ (ToRoom sid nearbyPlayerId, AudioStream frame) ]
           else [])
        nearbyPlayers
  | [] => [ (Broadcast sid, AudioStream frame) ]
  end.

(** [t_packet] and [t_latency] are the two [Date.now()] readings.  An
    exception is caught by the handler's [try], which logs it: what was
    written before it stays written and nothing is emitted. *)
Definition on_audioStream (e : Engine.t) (sid : string) (audioData : jsval)
    (t_packet t_latency : Z) (s : state) : state * list emit :=
  let s0 := with_audioStats s (count_packet (audioStats s)) in
  match player_of s0 sid with
  | Some player =>
      if audio_guard audioData then
        let player' :=
          Player.with_lastAudioPacket (Player.with_audioEnabled player true)
            t_packet in
        let s1 :=
          with_players s0 (JsMap.set String.eqb sid player' (players s0)) in
        match note_latency e audioData t_latency (audioStats s1) with
        | Some a =>
            (with_audioStats s1 a, relay sid audioData (players s1) player')
        | None => (s1, [])
        end
      else (s0, [])
  | None => (s0, [])
  end.

(** *** [socket.on('audioStateChanged')] *)
Definition on_audioStateChanged (sid : string) (st : jsval) (s : state)
  : state * list emit :=
  match player_of s sid with
  | Some player =>
      match truthy st, get st "enabled" with
      | true, JBool b =>
          (with_players s
             (JsMap.set String.eqb sid (Player.with_audioEnabled player b)
                (players s)),
           [ (Broadcast sid, PlayerAudioState sid b) ])
      | _, _ => (s, [])
      end
  | None => (s, [])
  end.

(** *** [socket.on('disconnect')] *)
Definition on_disconnect (sid : string) (s : state) : state * list emit :=
  (with_players s (JsMap.delete String.eqb sid (players s)),
   [ (Broadcast sid, PlayerLeft sid) ]).

(** *** The game loop ([setInterval(.., 1000 / 60)]) *)

(** Lines 300-302: one fixed step of 1/60 s along the heading.  [None]:
    [bullet.angle * Math.PI] throws, before anything is written. *)
Definition advance (e : Engine.t) (bullet : Bullet.t) : option Bullet.t :=
  match Engine.ToNumber e (Bullet.angle bullet) with
  | Some angle =>
      let radians := div (mul angle Math_PI) (of_Z 180) in
      let dt := div (of_Z 1) (of_Z 60) in
      Some (Bullet.at_position bullet
              (add (Bullet.x bullet)
                   (mul (mul (Engine.Math_cos e radians) (Bullet.speed bullet))
                        dt))
              (add (Bullet.y bullet)
                   (mul (mul (Engine.Math_sin e radians) (Bullet.speed bullet))
                        dt)))
  | None => None
  end.

(** [bullet.x < 0 || bullet.x > 800 || bullet.y < 0 || bullet.y > 600] *)
Definition outside (bullet : Bullet.t) : bool :=
  lt (Bullet.x bullet) (of_Z 0) || gt (Bullet.x bullet) (of_Z 800) ||
  lt (Bullet.y bullet) (of_Z 0) || gt (Bullet.y bullet) (of_Z 600).

(** [Math.sqrt(dx * dx + dy * dy) < 20] *)
Definition in_range (bullet : Bullet.t) (player : Player.t) : bool :=
  let dx := sub (Bullet.x bullet) (Player.x player) in
  let dy := sub (Bullet.y bullet) (Player.y player) in
  lt (Math_sqrt (add (mul dx dx) (mul dy dy))) (of_Z 20).

(** Both tests of lines 311-312: in range and not the owner. *)
Definition hits (bullet : Bullet.t) (player : Player.t) : bool :=
  in_range bullet player &&
  negb (String.eqb (Player.id player) (Bullet.playerId bullet)).

(** The body of [gameState.players.forEach] for one player. *)
Definition collide_one (id : Z) (bullet : Bullet.t) (player : Player.t)
  : list emit :=
  if hits bullet player
  then [ (ToAll, PlayerDamaged (Player.id player) 10);
         (ToAll, BulletDestroyed id) ]
  else [].

(** Lines 307-318: the loop over all players; nothing leaves it early. *)
Definition collide (id : Z) (bullet : Bullet.t)
    (ps : list (string * Player.t)) : list emit :=
  flat_map (fun entry => collide_one id bullet (snd entry)) ps.

(** Lines 303-319 for the entry [id] whose bullet has been advanced to
    [bullet]: the entry that stays in the map (if any) and the emits. *)
Definition resolve (ps : list (string * Player.t)) (id : Z)
    (bullet : Bullet.t) : option (Z * Bullet.t) * list emit :=
  if outside bullet then (None, [ (ToAll, BulletDestroyed id) ])
  else
    (if existsb (fun q => hits bullet (snd q)) ps
     then None else Some (id, bullet),
     collide id bullet ps).

(** The body of [gameState.bullets.forEach] for the entry [(id, bullet)].
    [None]: the body throws. *)
Definition tick_bullet (e : Engine.t) (ps : list (string * Player.t))
    (entry : Z * Bullet.t)
  : option (option (Z * Bullet.t) * list emit) :=
  match advance e (snd entry) with
  | Some bullet => Some (resolve ps (fst entry) bullet)
  | None => None
  end.

(** [gameState.bullets.forEach]: an exception in the body leaves the
    loop (it is logged by the [uncaughtException] handler), so the entry
    that threw and those after it stay as they are. *)
Fixpoint tick_bullets (e : Engine.t) (ps : list (string * Player.t))
    (bs : list (Z * Bullet.t)) : list (Z * Bullet.t) * list emit :=
  match bs with
  | [] => ([], [])
  | entry :: rest =>
      match tick_bullet e ps entry with
      | Some r =>
          let r' := tick_bullets e ps rest in
          (match fst r with
           | Some kept => kept :: fst r'
           | None => fst r'
           end,
           snd r ++ snd r')
      | None => (entry :: rest, [])
      end
  end.

Definition gameLoop (e : Engine.t) (s : state) : state * list emit :=
  let r := tick_bullets e (players s) (bullets s) in
  (with_bullets s (fst r), snd r).

(** *** The cleanup sweep ([setInterval(.., 2000)]) *)

(** [player.audioEnabled && (now - player.lastAudioPacket) > 5000] *)
Definition audio_timed_out (now : Z) (p : Player.t) : bool :=
  Player.audioEnabled p && (5000 <? now - Player.lastAudioPacket p).

(** [player.lastActivity && (now - player.lastActivity) > 600000] *)
Definition inactive (now : Z) (p : Player.t) : bool :=
  stamped (Player.lastActivity p) &&
  match Player.lastActivity p with
  | Some t => 600000 <? now - t
  | None => false
  end.

(** The body of the sweep's [forEach] for the entry [(playerId, player)]. *)
Definition sweep_player (now : Z) (entry : string * Player.t)
  : option (string * Player.t) * list emit :=
  let playerId := fst entry in
  let player :=
    if audio_timed_out now (snd entry)
    then Player.with_audioEnabled (snd entry) false
    else snd entry in
  if inactive now player
  then (None, [ (ToAll, PlayerLeft playerId) ])
  else (Some (playerId, player), []).

Fixpoint sweep (now : Z) (ps : list (string * Player.t))
  : list (string * Player.t) * list emit :=
  match ps with
  | [] => ([], [])
  | entry :: rest =>
      let r := sweep_player now entry in
      let r' := sweep now rest in
      (match fst r with
       | Some kept => kept :: fst r'
       | None => fst r'
       end,
       snd r ++ snd r')
  end.

Definition cleanup (now : Z) (s : state) : state * list emit :=
  let r := sweep now (players s) in
  (with_players s (fst r), snd r).

(** *** The statistics intervals *)

(** [setInterval(.., 1000)]: the packet rate is reset and the peak
    number of players is raised. *)
Definition on_second (s : state) : state * list emit :=
  let a := audioStats s in
  let size := Z.of_nat (List.length (players s)) in
  (with_audioStats s
     (mk_stats 0 (totalPackets a) (activeStreams a) (averageLatency a)
        (if peakConcurrentUsers a <? size then size
         else peakConcurrentUsers a)),
   []).

(** [setInterval(.., 5000)]: the players with [audioEnabled] are counted. *)
Definition on_stats (s : state) : state * list emit :=
  let a := audioStats s in
  (with_audioStats s
     (mk_stats (packetsPerSecond a) (totalPackets a)
        (Z.of_nat
           (List.length
              (filter Player.audioEnabled (JsMap.values (players s)))))
        (averageLatency a) (peakConcurrentUsers a)),
   []).

(** *** What can happen to the server *)

Inductive input : Type :=
| Connection (sid transport : string) (rx ry : num) (color name : string)
             (t_audio t_conn : Z)
| Upgrade (sid transport : string)
| Ping (sid : string)
| PlayerMove (sid : string) (data : jsval) (now : Z)
| PlayerShoot (sid : string) (now : Z)
| AudioStreamIn (sid : string) (audioData : jsval) (t_packet t_latency : Z)
| AudioStateChanged (sid : string) (st : jsval)
| Disconnect (sid : string)
| BulletTimeout (bid : Z)
| GameLoop
| Cleanup (now : Z)
| Second
| Stats.

Definition connected (s : state) (sid : string) : bool :=
  existsb (String.eqb sid) (sockets s).

Fixpoint remove_first (z : Z) (l : list Z) : list Z :=
  match l with
  | [] => []
  | z' :: rest => if Z.eqb z z' then rest else z' :: remove_first z rest
  end.

Definition pending (s : state) (bid : Z) : bool :=
  existsb (Z.eqb bid) (timers s).

(** One event of the single-threaded loop.  [None]: the event cannot
    occur in this state (a message on a socket that is not connected, a
    second connection under an id in use, a timer that is not pending). *)
Definition step (e : Engine.t) (s : state) (i : input)
  : option (state * list emit) :=
  match i with
  | Connection sid tr rx ry color name t_audio t_conn =>
      if connected s sid then None
      else Some (on_connection sid tr rx ry color name t_audio t_conn
                   (with_sockets s (sockets s ++ [sid])))
  | Upgrade sid tr =>
      if connected s sid then Some (on_upgrade sid tr s) else None
  | Ping sid =>
      if connected s sid then Some (on_ping s) else None
  | PlayerMove sid data now =>
      if connected s sid then Some (on_playerMove sid data now s) else None
  | PlayerShoot sid now =>
      if connected s sid then Some (on_playerShoot sid now s) else None
  | AudioStreamIn sid audioData t_packet t_latency =>
      if connected s sid
      then Some (on_audioStream e sid audioData t_packet t_latency s)
      else None
  | AudioStateChanged sid st =>
      if connected s sid then Some (on_audioStateChanged sid st s) else None
  | Disconnect sid =>
      if connected s sid
      then Some (on_disconnect sid
                   (with_sockets s
                      (filter (fun c => negb (String.eqb c sid)) (sockets s))))
      else None
  | BulletTimeout bid =>
      if pending s bid
      then Some (on_bulletTimeout bid
                   (with_timers s (remove_first bid (timers s))))
      else None
  | GameLoop => Some (gameLoop e s)
  | Cleanup now => Some (cleanup now s)
  | Second => Some (on_second s)
  | Stats => Some (on_stats s)
  end.

(** A sequence of events from [s]: the final state and everything
    emitted, in order. *)
Fixpoint run (e : Engine.t) (s : state) (tr : list input)
  : option (state * list emit) :=
  match tr with
  | [] => Some (s, [])
  | i :: rest =>
      match step e s i with
      | Some (s1, out1) =>
          match run e s1 rest with
          | Some (s2, out2) => Some (s2, out1 ++ out2)
          | None => None
          end
      | None => None
      end
  end.

End Server.

(* ================================================================== *)
(** ** Invariants and observations used by the properties *)

Module Inv.

Import Server.

(** Every player in the store has health 100. *)
Definition full_health (ps : list (string * Player.t)) : Prop :=
  forall k p, In (k, p) ps -> Player.health p = 100.

(** The store of a running server: one entry per player id, stored under
    the id of its socket, and only for connected sockets. *)
Record wf (s : state) : Prop := {
  wf_keys : NoDup (JsMap.keys (players s));
  wf_ids : forall k p, In (k, p) (players s) -> Player.id p = k;
  wf_online : forall k p, In (k, p) (players s) -> In k (sockets s);
  wf_sockets : NoDup (sockets s)
}.

(** A [playerMove] message of [sid] that passes the handler's guard. *)
Definition accepted_move (sid : string) (i : input) : bool :=
  match i with
  | PlayerMove sid' data _ => String.eqb sid' sid && move_guard data
  | _ => false
  end.

(** The [disconnect] event of socket [sid]. *)
Definition is_disconnect (sid : string) (i : input) : bool :=
  match i with
  | Disconnect sid' => String.eqb sid' sid
  | _ => false
  end.

(** A new connection under the id [sid]. *)
Definition is_connection (sid : string) (i : input) : bool :=
  match i with
  | Connection sid' _ _ _ _ _ _ _ => String.eqb sid' sid
  | _ => false
  end.

(** None of the inputs satisfies [f]. *)
Definition none_of (f : input -> bool) (tr : list input) : Prop :=
  forallb (fun i => negb (f i)) tr = true.

(** The protocol table: which message, to which target, each event may
    make the server emit. *)
Definition may_emit (i : input) (em : emit) : bool :=
  match i, em with
  | Connection sid _ _ _ _ _ _ _, (ToSocket sid', GameState _ _ _) =>
      String.eqb sid' sid
  | Connection sid _ _ _ _ _ _ _, (Broadcast sid', PlayerJoined p) =>
      String.eqb sid' sid && String.eqb (Player.id p) sid
  | PlayerMove sid _ _, (Broadcast sid', PlayerMoved id _ _ _) =>
      String.eqb sid' sid && String.eqb id sid
  | PlayerShoot sid _, (ToAll, BulletCreated b) =>
      String.eqb (Bullet.playerId b) sid
  | AudioStreamIn sid _ _ _, (Broadcast sid', AudioStream _) =>
      String.eqb sid' sid
  | AudioStreamIn sid _ _ _, (ToRoom sid' room, AudioStream _) =>
      String.eqb sid' sid && negb (String.eqb room sid)
  | AudioStateChanged sid _, (Broadcast sid', PlayerAudioState id _) =>
      String.eqb sid' sid && String.eqb id sid
  | Disconnect sid, (Broadcast sid', PlayerLeft id) =>
      String.eqb sid' sid && String.eqb id sid
  | BulletTimeout bid, (ToAll, BulletDestroyed id) => Z.eqb id bid
  | GameLoop, (ToAll, BulletDestroyed _) => true
  | GameLoop, (ToAll, PlayerDamaged _ damage) => Z.eqb damage 10
  | Cleanup _, (ToAll, PlayerLeft _) => true
  | _, _ => false
  end.

(** What a step may do to the stored record of a player: the identity and
    the health stay, [lastActivity] changes only by an accepted move of
    [sid], [lastShoot] only by an accepted shot of [sid]. *)
Definition updated (sid : string) (i : input) (p p' : Player.t) : Prop :=
  Player.id p' = Player.id p /\
  Player.health p' = Player.health p /\
  (Player.lastActivity p' = Player.lastActivity p \/
   accepted_move sid i = true) /\
  (Player.lastShoot p' = Player.lastShoot p \/
   exists now, i = PlayerShoot sid now /\
               may_shoot (Player.lastShoot p) now = true /\
               Player.lastShoot p' = Some now).

(** A freshly created player of socket [sid]. *)
Definition fresh (sid : string) (p : Player.t) : Prop :=
  Player.id p = sid /\ Player.health p = 100 /\
  Player.lastActivity p = None /\ Player.lastShoot p = None.

(** Player [sid], if in the store, has no [lastActivity] yet. *)
Definition unstamped (sid : string) (s : state) : Prop :=
  forall p, player_of s sid = Some p -> Player.lastActivity p = None.

(** An emit that announces a bullet fired by [sid]. *)
Definition created_by (sid : string) (em : emit) : bool :=
  match snd em with
  | BulletCreated b => String.eqb (Bullet.playerId b) sid
  | _ => false
  end.

(** How many bullets of [sid] the emits announce. *)
Definition bullets_created (sid : string) (out : list emit) : nat :=
  List.length (filter (created_by sid) out).

(** The timestamps of the shoot requests of [sid], in order. *)
Definition shoot_times (sid : string) (tr : list input) : list Z :=
  flat_map (fun i => match i with
                     | PlayerShoot sid' now =>
                         if String.eqb sid' sid then [now] else []
                     | _ => []
                     end) tr.

(** Player [sid], if in the store, last shot at [t1] or later. *)
Definition shot_since (sid : string) (t1 : Z) (s : state) : Prop :=
  forall q, player_of s sid = Some q ->
            exists t, Player.lastShoot q = Some t /\ t1 <= t.

(** The sockets that receive the emits [out], one entry per delivery. *)
Definition delivered (socks : list string) (out : list emit) : list string :=
  flat_map (fun em => recipients socks (fst em)) out.

(** A [playerDamaged] emit. *)
Definition is_damage (em : emit) : bool :=
  match snd em with
  | PlayerDamaged _ _ => true
  | _ => false
  end.

(** A [bulletDestroyed] emit for bullet [id]. *)
Definition destroys (id : Z) (em : emit) : bool :=
  match snd em with
  | BulletDestroyed id' => Z.eqb id' id
  | _ => false
  end.

(** How many of the emits satisfy [f]. *)
Definition count (f : emit -> bool) (out : list emit) : nat :=
  List.length (filter f out).

(** The firing of the timer of bullet [id]. *)
Definition is_timeout (id : Z) (i : input) : bool :=
  match i with
  | BulletTimeout id' => Z.eqb id' id
  | _ => false
  end.

(** How many times the timer of bullet [id] fires in [tr]. *)
Definition timeouts (id : Z) (tr : list input) : nat :=
  List.length (filter (is_timeout id) tr).

(** What the runs of the game loop emit during the events [tr] from [s]. *)
Fixpoint loop_emits (e : Engine.t) (s : state) (tr : list input) : list emit :=
  match tr with
  | [] => []
  | i :: rest =>
      match step e s i with
      | Some (s1, out1) =>
          match i with
          | GameLoop => out1 ++ loop_emits e s1 rest
          | _ => loop_emits e s1 rest
          end
      | None => []
      end
  end.

(** The players a bullet hits: in range and not its owner, in the order of
    the store. *)
Definition victims (bullet : Bullet.t) (ps : list (string * Player.t))
  : list (string * Player.t) :=
  filter (fun q => hits bullet (snd q)) ps.

(** A [playerLeft] emit for player [sid]. *)
Definition leaves (sid : string) (em : emit) : bool :=
  match snd em with
  | PlayerLeft id => String.eqb id sid
  | _ => false
  end.

(** The timestamp of a frame, if it has one, converts to a number (as
    every number does): [Date.now() - audioData.timestamp] does not
    throw. *)
Definition timestamp_ok (e : Engine.t) (audioData : jsval) : Prop :=
  truthy (get audioData "timestamp") = true ->
  Engine.ToNumber e (get audioData "timestamp") <> None.

End Inv.

(* ================================================================== *)
(** ** Scenarios: concrete runs of the server *)

Module Scenario.

Import Server.

(** The payload [{x, y, angle: 0}] of a [playerMove] message. *)
Definition move_to (x y : num) : jsval :=
  JObj [("x", JNum x); ("y", JNum y); ("angle", JNum (of_Z 0))].

(** A connection whose four [Math.random()] draws are all 0, at time 1000. *)
Definition join (sid : string) : input :=
  Connection sid "websocket" (of_Z 0) (of_Z 0) "hsl(0, 70%, 50%)" "Tank0"
             1000 1000.

(** Tanks A, B and C stand at (100,100), (110,100) and (112,100); A fires
    along angle 0 and the game loop runs once: the bullet moves to
    (105,100), within 20 units of both B and C. *)
Definition lined_up : list input :=
  [ join "A"; join "B"; join "C";
    PlayerMove "A" (move_to (of_Z 100) (of_Z 100)) 2000;
    PlayerMove "B" (move_to (of_Z 110) (of_Z 100)) 2000;
    PlayerMove "C" (move_to (of_Z 112) (of_Z 100)) 2000;
    PlayerShoot "A" 3000 ].

Definition crossfire : list input := lined_up ++ [ GameLoop ].

(** Tank A stands on the right edge (800,300) and fires along angle 0: the
    next run of the game loop takes the bullet to x = 805, out of the
    arena; its timer fires afterwards. *)
Definition edge_shot : list input :=
  [ join "A";
    PlayerMove "A" (move_to (of_Z 800) (of_Z 300)) 2000;
    PlayerShoot "A" 3000;
    GameLoop;
    BulletTimeout 0 ].

(** Tank A connects and never sends a well-typed move: it shoots, sends
    an audio frame and a move whose [x] is a string, and two sweeps run,
    the second more than eleven days later. *)
Definition idle : list input :=
  [ PlayerShoot "A" 2000;
    AudioStreamIn "A" (JObj [("data", JArr [JNum (of_Z 7)])]) 3000 3000;
    PlayerMove "A" (JObj [("x", JStr "12"); ("y", JNum (of_Z 5))]) 4000;
    Cleanup 5000;
    Cleanup 1000000000 ].

(** The state reached from [init] by the events [tr]. *)
Definition after (tr : list input) : state :=
  match run Engine.table init tr with
  | Some (s, _) => s
  | None => init
  end.

(** Two tanks in the arena. *)
Definition two_tanks : list input := [ join "A"; join "B" ].

(** Tank A moves once and stays connected; eleven minutes later the
    sweep evicts it, and then its socket disconnects. *)
Definition swept_then_gone : list input :=
  [ join "A"; join "B";
    PlayerMove "A" (move_to (of_Z 100) (of_Z 100)) 2000;
    Cleanup 700000;
    Disconnect "A" ].

(** Two runs of the cleanup sweep, the second much later. *)
Definition sweeps : list input := [ Cleanup 5000; Cleanup 1000000000 ].

(** What happens between two shots of A: the game loop, a shot of B, a
    third shot of A and a sweep. *)
Definition between_shots : list input :=
  [ GameLoop; PlayerShoot "B" 3050; PlayerShoot "A" 3100; Cleanup 3120 ].

(** Tanks A and B stand 90 units apart, tank C is 500 units away from A;
    A sends an audio frame. *)
Definition spread_out : list input :=
  [ join "A"; join "B"; join "C";
    PlayerMove "A" (move_to (of_Z 100) (of_Z 100)) 2000;
    PlayerMove "B" (move_to (of_Z 190) (of_Z 100)) 2000;
    PlayerMove "C" (move_to (of_Z 600) (of_Z 100)) 2000 ].

(** An audio frame of three samples. *)
Definition frame : jsval :=
  JObj [ ("data", JArr [JNum (of_Z 12); JNum (of_Z (-7)); JNum (of_Z 3)]);
         ("timestamp", JNum (of_Z 2500));
         ("sampleRate", JNum (of_Z 16000)) ].

(** The bullet tank A fires from (100,100) at time 3000 in [lined_up]. *)
Definition shell : Bullet.t :=
  Bullet.mk 0 "A" (of_Z 100) (of_Z 100) (JNum (of_Z 0)) (of_Z 300) 3000.

End Scenario.

(* ================================================================== *)
(** ** The specification's statements that the code does not meet

    Each definition follows the words of the specification; the
    properties below show where the server departs from it. *)

Module Stated.

Import Server.

(** "Disconnect handling is idempotent: repeated disconnect handling for
    the same identity is a no-op that never re-emits playerLeft." *)
Definition disconnect_idempotent (s : state) (sid : string) : Prop :=
  let s1 := fst (on_disconnect sid s) in
  on_disconnect sid s1 = (s1, []).

(** "A playerMove whose inputs are not well-formed real numbers (wrong
    type, missing field, or a non-finite value such as NaN in x or y) is
    silently ignored: the player is unchanged and nothing is emitted." *)
Definition real_number (v : jsval) : bool :=
  match v with
  | JNum (S754_zero _) | JNum (S754_finite _ _ _) => true
  | _ => false
  end.

Definition well_formed_move (data : jsval) : bool :=
  real_number (get data "x") && real_number (get data "y").

Definition malformed_move_ignored (s : state) (sid : string) (data : jsval)
    (now : Z) : Prop :=
  well_formed_move data = false -> on_playerMove sid data now s = (s, []).

(** "When a live bullet, still inside the arena, is within the hit radius
    of one or more players other than its owner, the tick emits exactly
    one playerDamaged and exactly one bulletDestroyed for it, and stops
    checking after the first hit."  [bullet] is the bullet after its step
    of this tick, [id] its key in [gameState.bullets] and [ps] the
    players. *)
Definition first_hit_wins (ps : list (string * Player.t)) (id : Z)
    (bullet : Bullet.t) : Prop :=
  let out := snd (resolve ps id bullet) in
  outside bullet = false ->
  Inv.victims bullet ps <> [] ->
  Inv.count Inv.is_damage out = 1%nat /\
  Inv.count (Inv.destroys id) out = 1%nat.

(** "bulletDestroyed is emitted exactly once over a bullet's lifetime,
    whichever destruction cause occurs first": in no run is it emitted
    twice for one identity. *)
Definition destroyed_once (e : Engine.t) (tr : list input) : Prop :=
  forall s out id,
    run e init tr = Some (s, out) ->
    (Inv.count (Inv.destroys id) out <= 1)%nat.

End Stated.

(* ================================================================== *)
(** ** Further observations on the server *)

Module Obs.

Import Server.

(** The bullets of a running server: each is stored under its own id,
    no two under the same id, each has its fixed speed and a pending
    expiry timer. *)
Record bullets_wf (s : state) : Prop := {
  bw_keys : NoDup (JsMap.keys (bullets s));
  bw_ids : forall k b, In (k, b) (bullets s) -> Bullet.id b = k;
  bw_speed : forall k b, In (k, b) (bullets s) -> Bullet.speed b = of_Z 300;
  bw_timers : forall k, In k (JsMap.keys (bullets s)) -> In k (timers s)
}.

(** The ids of the bullets the emits announce, in order. *)
Definition created_ids (out : list emit) : list Z :=
  flat_map (fun em => match snd em with
                      | BulletCreated b => [Bullet.id b]
                      | _ => []
                      end) out.

(** [c, c + 1, ..., c + n - 1] *)
Fixpoint count_from (c : Z) (n : nat) : list Z :=
  match n with
  | O => []
  | S n' => c :: count_from (c + 1) n'
  end.

(** The socket an event comes from. *)
Definition sender (i : input) : option string :=
  match i with
  | Connection sid _ _ _ _ _ _ _ | Upgrade sid _ | Ping sid
  | PlayerMove sid _ _ | PlayerShoot sid _ | AudioStreamIn sid _ _ _
  | AudioStateChanged sid _ | Disconnect sid => Some sid
  | BulletTimeout _ | GameLoop | Cleanup _ | Second | Stats => None
  end.

(** A [playerShoot] message of [sid]. *)
Definition is_shoot (sid : string) (i : input) : bool :=
  match i with
  | PlayerShoot sid' _ => String.eqb sid' sid
  | _ => false
  end.

(** An [audioStream] message, from any socket. *)
Definition is_audio (i : input) : bool :=
  match i with
  | AudioStreamIn _ _ _ _ => true
  | _ => false
  end.

(** A run of the one-second statistics interval. *)
Definition is_second (i : input) : bool :=
  match i with
  | Second => true
  | _ => false
  end.

(** How many [audioStream] messages the events hold. *)
Definition audio_events (tr : list input) : nat :=
  List.length (filter is_audio tr).

(** [gameState.players.size] *)
Definition size (s : state) : Z := Z.of_nat (List.length (players s)).

(** The players a sweep at [now] evicts, and those it keeps. *)
Definition evicted (now : Z) (ps : list (string * Player.t))
  : list (string * Player.t) :=
  filter (fun q => inactive now (snd q)) ps.

Definition kept (now : Z) (ps : list (string * Player.t))
  : list (string * Player.t) :=
  filter (fun q => negb (inactive now (snd q))) ps.

End Obs.

(* ================================================================== *)
(** ** The wire

    socket.io sends the payload of an emit as JSON text, which the client
    parses.  [JSON.stringify] writes NaN and the infinities as [null] and
    -0 as [0], leaves out a property whose value is [undefined] and writes
    [null] for such an element of an array; every other number, and every
    string and boolean, comes back from [JSON.parse] as it was. *)

Module Wire.

(** A number after the round trip. *)
Definition number (n : num) : jsval :=
  match n with
  | S754_nan | S754_infinity _ => JNull
  | S754_zero _ => JNum (S754_zero false)
  | S754_finite _ _ _ => JNum n
  end.

(** A value after the round trip.  [JUndefined]: as the value of a
    property, the property is left out, and reading it on the other side
    gives [undefined]. *)
Fixpoint value (v : jsval) : jsval :=
  match v with
  | JUndefined => JUndefined
  | JNull => JNull
  | JBool b => JBool b
  | JNum n => number n
  | JStr s => JStr s
  | JArr items =>
      JArr (map (fun item =>
                   match value item with
                   | JUndefined => JNull
                   | w => w
                   end) items)
  | JObj fields =>
      JObj ((fix properties (fs : list (string * jsval))
               : list (string * jsval) :=
               match fs with
               | [] => []
               | (k, v') :: rest =>
                   match value v' with
                   | JUndefined => properties rest
                   | w => (k, w) :: properties rest
                   end
               end) fields)
  end.

(** The properties of an object after the round trip. *)
Definition properties (fields : list (string * jsval))
  : list (string * jsval) :=
  match value (JObj fields) with
  | JObj fs => fs
  | _ => []
  end.

(** A player object as a client holds it. *)
Module Tank.

Record t : Type := mk {
  id : string;
  x : jsval;
  y : jsval;
  angle : jsval;
  color : string;
  name : string;
  health : Z;
  audioEnabled : bool;
  lastAudioPacket : Z;
  connectedAt : Z;
  transport : string;
  lastActivity : option Z;
  lastShoot : option Z
}.

End Tank.

(** A bullet object as a client holds it. *)
Module Shell.

Record t : Type := mk {
  id : Z;
  playerId : string;
  x : jsval;
  y : jsval;
  angle : jsval;
  speed : jsval;
  createdAt : Z
}.

End Shell.

Definition player (p : Player.t) : Tank.t :=
  Tank.mk (Player.id p) (number (Player.x p)) (number (Player.y p))
    (value (Player.angle p)) (Player.color p) (Player.name p)
    (Player.health p) (Player.audioEnabled p) (Player.lastAudioPacket p)
    (Player.connectedAt p) (Player.transport p) (Player.lastActivity p)
    (Player.lastShoot p).

Definition bullet (b : Bullet.t) : Shell.t :=
  Shell.mk (Bullet.id b) (Bullet.playerId b) (number (Bullet.x b))
    (number (Bullet.y b)) (value (Bullet.angle b)) (number (Bullet.speed b))
    (Bullet.createdAt b).

(** What a client's handler is called with. *)
Module Msg.

Inductive t : Type :=
| GameState (players : list Tank.t) (bullets : list Shell.t)
            (transport : string)
| PlayerJoined (p : Tank.t)
| PlayerMoved (id : string) (x y angle : jsval)
| BulletCreated (b : Shell.t)
| BulletDestroyed (id : Z)
| PlayerDamaged (id : string) (damage : Z)
| PlayerLeft (id : string)
| AudioStream (frame : list (string * jsval))
| PlayerAudioState (playerId : string) (audioEnabled : bool).

End Msg.

(** The message a client gets for a payload the server emits. *)
Definition encode (m : payload) : Msg.t :=
  match m with
  | GameState ps bs tr => Msg.GameState (map player ps) (map bullet bs) tr
  | PlayerJoined p => Msg.PlayerJoined (player p)
  | PlayerMoved id x y angle =>
      Msg.PlayerMoved id (number x) (number y) (value angle)
  | BulletCreated b => Msg.BulletCreated (bullet b)
  | BulletDestroyed id => Msg.BulletDestroyed id
  | PlayerDamaged id damage => Msg.PlayerDamaged id damage
  | PlayerLeft id => Msg.PlayerLeft id
  | AudioStream frame => Msg.AudioStream (properties frame)
  | PlayerAudioState id b => Msg.PlayerAudioState id b
  end.

End Wire.

(* ================================================================== *)
(** ** The game client ([Game] of [unnamed/part_003])

    [this.players] and [this.bullets], the two [Map]s that the handlers
    of [setupSocketEvents] write, and [this.lastShoot], which [shoot]
    writes.  An entry is the object of the server's message as it comes
    off the wire.  [update] writes the coordinates of objects
    that are in the maps and neither adds nor removes an entry; it is not
    part of this model, and nothing below is said about the coordinates
    of the client's own tank or of a bullet. *)

Module Client.

Import Server.

Record t : Type := mk {
  players : list (string * Wire.Tank.t);
  bullets : list (Z * Wire.Shell.t);
  lastShoot : Z
}.

(** The constructor: two empty maps and [lastShoot = 0]. *)
Definition init : t := mk [] [] 0.

(** [player.x = data.x; player.y = data.y; player.angle = data.angle] *)
Definition placed (p : Wire.Tank.t) (x' y' angle' : jsval) : Wire.Tank.t :=
  Wire.Tank.mk (Wire.Tank.id p) x' y' angle' (Wire.Tank.color p)
    (Wire.Tank.name p) (Wire.Tank.health p) (Wire.Tank.audioEnabled p)
    (Wire.Tank.lastAudioPacket p) (Wire.Tank.connectedAt p)
    (Wire.Tank.transport p) (Wire.Tank.lastActivity p)
    (Wire.Tank.lastShoot p).

(** [socket.on('gameState')]: every listed player and bullet is stored
    under its [id]; nothing is cleared first. *)
Definition on_gameState (ps : list Wire.Tank.t) (bs : list Wire.Shell.t)
    (c : t) : t :=
  mk (fold_left (fun m p => JsMap.set String.eqb (Wire.Tank.id p) p m)
        ps (players c))
     (fold_left (fun m b => JsMap.set Z.eqb (Wire.Shell.id b) b m)
        bs (bullets c))
     (lastShoot c).

(** [socket.on('playerJoined')] *)
Definition on_playerJoined (p : Wire.Tank.t) (c : t) : t :=
  mk (JsMap.set String.eqb (Wire.Tank.id p) p (players c)) (bullets c)
     (lastShoot c).

(** [socket.on('playerMoved')]: a player that is not in the map is not
    added. *)
Definition on_playerMoved (id : string) (x' y' angle' : jsval) (c : t) : t :=
  match JsMap.get String.eqb id (players c) with
  | Some player =>
      mk (JsMap.set String.eqb id (placed player x' y' angle') (players c))
         (bullets c) (lastShoot c)
  | None => c
  end.

(** [socket.on('playerLeft')] *)
Definition on_playerLeft (id : string) (c : t) : t :=
  mk (JsMap.delete String.eqb id (players c)) (bullets c) (lastShoot c).

(** [socket.on('bulletCreated')] *)
Definition on_bulletCreated (b : Wire.Shell.t) (c : t) : t :=
  mk (players c) (JsMap.set Z.eqb (Wire.Shell.id b) b (bullets c))
     (lastShoot c).

(** [socket.on('bulletDestroyed')] *)
Definition on_bulletDestroyed (id : Z) (c : t) : t :=
  mk (players c) (JsMap.delete Z.eqb id (bullets c)) (lastShoot c).

(** One message from the server.  [Game] has no handler for
    [playerDamaged] and [playerAudioState]; [audioStream] is handled by
    the [AudioManager], which does not touch the game. *)
Definition receive (c : t) (m : Wire.Msg.t) : t :=
  match m with
  | Wire.Msg.GameState ps bs _ => on_gameState ps bs c
  | Wire.Msg.PlayerJoined p => on_playerJoined p c
  | Wire.Msg.PlayerMoved id x' y' angle' => on_playerMoved id x' y' angle' c
  | Wire.Msg.PlayerLeft id => on_playerLeft id c
  | Wire.Msg.BulletCreated b => on_bulletCreated b c
  | Wire.Msg.BulletDestroyed id => on_bulletDestroyed id c
  | Wire.Msg.PlayerDamaged _ _ | Wire.Msg.AudioStream _
  | Wire.Msg.PlayerAudioState _ _ => c
  end.

(** [shoot()] at the [Date.now()] reading [now]: the new client, and
    whether [playerShoot] is emitted. *)
Definition shoot (now : Z) (c : t) : t * bool :=
  if now - lastShoot c <? 500 then (c, false)
  else (mk (players c) (bullets c) now, true).

(** A series of [shoot()] calls: the client and the readings at which
    [playerShoot] was emitted. *)
Fixpoint shoot_all (nows : list Z) (c : t) : t * list Z :=
  match nows with
  | [] => (c, [])
  | now :: rest =>
      let r := shoot now c in
      let r' := shoot_all rest (fst r) in
      (fst r', (if snd r then [now] else []) ++ snd r')
  end.

(** Every element of [l] comes at least [d] after the one before it. *)
Fixpoint spaced (d : Z) (l : list Z) : bool :=
  match l with
  | a :: (b :: _) as rest => (d <=? b - a) && spaced d rest
  | _ => true
  end.

(** The payloads of [out] that go to socket [sid], in order. *)
Definition inbox (sid : string) (socks : list string) (out : list emit)
  : list payload :=
  map snd
    (filter (fun em => existsb (String.eqb sid) (recipients socks (fst em)))
       out).

(** The server runs the events [tr] from [s]; after each one the client
    on socket [sid] handles the messages that reached it, as they come
    off the wire. *)
Fixpoint follow (e : Engine.t) (sid : string) (tr : list input)
    (s : state) (c : t) : option (state * t) :=
  match tr with
  | [] => Some (s, c)
  | i :: rest =>
      match step e s i with
      | Some (s', out) =>
          follow e sid rest s'
            (fold_left receive
               (map Wire.encode (inbox sid (sockets s') out)) c)
      | None => None
      end
  end.

(** What is drawn of a tank: the client's record [q] has it as the
    server's record [p] comes off the wire. *)
Definition same_tank (q : Wire.Tank.t) (p : Player.t) : Prop :=
  Wire.Tank.id q = Player.id p /\
  Wire.Tank.x q = Wire.number (Player.x p) /\
  Wire.Tank.y q = Wire.number (Player.y p) /\
  Wire.Tank.angle q = Wire.value (Player.angle p) /\
  Wire.Tank.color q = Player.color p /\
  Wire.Tank.name q = Player.name p /\
  Wire.Tank.health q = Player.health p.

(** The client on socket [sid] has the players and the bullets of the
    server, in the same order, and every other tank as the server's
    record of it comes off the wire. *)
Definition mirrors (sid : string) (c : t) (s : state) : Prop :=
  JsMap.keys (players c) = JsMap.keys (Server.players s) /\
  JsMap.keys (bullets c) = JsMap.keys (Server.bullets s) /\
  forall k p, k <> sid -> player_of s k = Some p ->
    exists q, JsMap.get String.eqb k (players c) = Some q /\ same_tank q p.

End Client.

(* ================================================================== *)
(** ** The voice path of the client ([AudioManager] of [unnamed/part_003]) *)

Module Voice.

Import Codec.

(** [this.sampleRate] *)
Definition sampleRate : Z := 16000.

(** [sendAudioData(audioData)] when [Date.now()] reads [now]: the payload
    of the [audioStream] message it emits,
    [{data: Array.from(compressedData), timestamp: Date.now(),
      sampleRate: this.sampleRate}]. *)
Definition sendAudioData (audioData : list spec_float) (now : Z) : jsval :=
  JObj [ ("data",
          JArr (map (fun n => JNum (of_Z n)) (compressAudio audioData)));
         ("timestamp", JNum (of_Z now));
         ("sampleRate", JNum (of_Z sampleRate)) ].

(** [new Int16Array(items)] on the elements of an array: each element is
    converted to a number and stored (ToInt16).  [None]: a conversion
    throws. *)
Fixpoint Int16Array_of (e : Engine.t) (items : list jsval)
  : option (list Z) :=
  match items with
  | [] => Some []
  | v :: rest =>
      match Engine.ToNumber e v, Int16Array_of e rest with
      | Some n, Some l => Some (ToInt16 n :: l)
      | _, _ => None
      end
  end.

(** [playAudioStream(audioData)] while the audio context is running: the
    samples that are copied into the audio buffer.  [None]: nothing is
    played ([data] is falsy or an empty array, or a conversion throws and
    the [catch] logs it).  A [data] that is not an array is not followed
    by this model and gives [None] as well. *)
Definition playAudioStream (e : Engine.t)
    (audioData : list (string * jsval)) : option (list spec_float) :=
  match lookup "data" audioData with
  | JArr (v :: rest) =>
      match Int16Array_of e (v :: rest) with
      | Some compressedArray => Some (decompressAudio compressedArray)
      | None => None
      end
  | _ => None
  end.

End Voice.

(* ================================================================== *)
(** ** The colour utilities of the client ([lightenColor], [darkenColor]
       of [Game] in [unnamed/part_003])

    A [string] stands for the JavaScript string with the same code
    units, all below 256. *)

From Stdlib Require Import Ascii.

Module Color.

(** The code unit of a character. *)
Definition code (c : ascii) : Z := Z.of_N (N_of_ascii c).

(** [color.replace("#", "")]: the first ["#"] is removed. *)
Fixpoint replace_hash (s : string) : string :=
  match s with
  | EmptyString => EmptyString
  | String c rest =>
      if Ascii.eqb c "#"%char then rest else String c (replace_hash rest)
  end.

(** White space and line terminators below 256: TAB, LF, VT, FF, CR, SP
    and NBSP. *)
Definition is_space (c : ascii) : bool :=
  let n := code c in
  (n =? 9) || (n =? 10) || (n =? 11) || (n =? 12) || (n =? 13) ||
  (n =? 32) || (n =? 160).

(** TrimString(s, start) *)
Fixpoint trim_start (s : string) : string :=
  match s with
  | EmptyString => EmptyString
  | String c rest => if is_space c then trim_start rest else s
  end.

(** The value of a digit of radix 16: [0-9], [a-f], [A-F]. *)
Definition hex_value (c : ascii) : option Z :=
  let n := code c in
  if (48 <=? n) && (n <=? 57) then Some (n - 48)
  else if (97 <=? n) && (n <=? 102) then Some (n - 87)
  else if (65 <=? n) && (n <=? 70) then Some (n - 55)
  else None.

(** The digits at the start of [s], read onto [acc]; [None] when there
    is no digit. *)
Fixpoint hex_prefix (s : string) (acc : Z) (seen : bool) : option Z :=
  match s with
  | EmptyString => if seen then Some acc else None
  | String c rest =>
      match hex_value c with
      | Some d => hex_prefix rest (16 * acc + d) true
      | None => if seen then Some acc else None
      end
  end.

(** A leading ["0x"] or ["0X"] is dropped. *)
Definition strip_0x (s : string) : string :=
  match s with
  | String c0 (String c1 rest) =>
      if Ascii.eqb c0 "0"%char &&
         (Ascii.eqb c1 "x"%char || Ascii.eqb c1 "X"%char)
      then rest else s
  | _ => s
  end.

(** [parseInt(s, 16)]: leading white space, a sign, ["0x"], then as many
    digits as there are; NaN when there is none.  The integer is rounded
    to the nearest number. *)
Definition parseInt16 (s : string) : num :=
  let trimmed := trim_start s in
  let negative :=
    match trimmed with
    | String c _ => Ascii.eqb c "-"%char
    | EmptyString => false
    end in
  let unsigned :=
    match trimmed with
    | String c rest =>
        if Ascii.eqb c "-"%char || Ascii.eqb c "+"%char then rest
        else trimmed
    | EmptyString => trimmed
    end in
  match hex_prefix (strip_0x unsigned) 0 false with
  | None => nan
  | Some 0 => S754_zero negative
  | Some mathInt => of_Z (if negative then - mathInt else mathInt)
  end.

Definition wrap32 (n : Z) : Z := (n + 2 ^ 31) mod 2 ^ 32 - 2 ^ 31.

(** ToInt32, the conversion of the operands of [>>] and [&]: NaN and the
    infinities become 0, the fraction is dropped and the integer is
    reduced modulo 2^32 into [-2^31, 2^31 - 1]. *)
Definition ToInt32 (f : num) : Z :=
  match f with
  | S754_finite s m e =>
      wrap32 (cond_Zopp s
                (match e with
                 | Zneg p => Zpos m / 2 ^ Zpos p
                 | _ => Zpos m * 2 ^ e
                 end))
  | _ => 0
  end.

(** [Math.round]: the nearest integer, a tie going up; a result of zero
    keeps the sign of the argument. *)
Definition Math_round (x : num) : num :=
  match x with
  | S754_finite s m (Zneg p) =>
      let q := (2 * cond_Zopp s (Zpos m) + 2 ^ Zpos p) / 2 ^ (Zpos p + 1) in
      if q =? 0 then S754_zero s else of_Z q
  | _ => x
  end.

Definition hex_digit (d : Z) : ascii :=
  ascii_of_N (Z.to_N (if d <? 10 then 48 + d else 87 + d)).

(** The digits of a positive integer in radix 16, before [acc]. *)
Fixpoint hex_digits (fuel : nat) (n : Z) (acc : string) : string :=
  match fuel with
  | O => acc
  | S fuel' =>
      let acc' := String (hex_digit (n mod 16)) acc in
      if n / 16 =? 0 then acc' else hex_digits fuel' (n / 16) acc'
  end.

Definition hex (n : Z) : string :=
  hex_digits (S (Z.to_nat (Z.log2 n))) n EmptyString.

(** [x.toString(16)].  [None]: [x] has a fraction, whose digits are not
    reproduced here. *)
Definition toString16 (x : num) : option string :=
  match x with
  | S754_nan => Some "NaN"
  | S754_infinity s => Some (if s then "-Infinity" else "Infinity")
  | S754_zero _ => Some "0"
  | S754_finite s m e =>
      let sign := if s then "-" else EmptyString in
      match e with
      | Zneg p =>
          if Zpos m mod 2 ^ Zpos p =? 0
          then Some (String.append sign (hex (Zpos m / 2 ^ Zpos p)))
          else None
      | _ => Some (String.append sign (hex (Zpos m * 2 ^ e)))
      end
  end.

(** [s.slice(1)] *)
Definition slice1 (s : string) : string :=
  match s with
  | EmptyString => EmptyString
  | String _ rest => rest
  end.

(** The literal [2.55], 0x1.4666666666666p+1. *)
Definition c2_55 : num := S754_finite false 5742089524897382 (-51).

(** [parseInt(color.replace("#", ""), 16)] *)
Definition num_of (color : string) : num := parseInt16 (replace_hash color).

(** [Math.round(2.55 * percent)] *)
Definition amt_of (percent : num) : num := Math_round (mul c2_55 percent).

(** [num >> 16], [num >> 8 & 0x00FF] and [num & 0x0000FF] *)
Definition red (n : num) : num := of_Z (Z.shiftr (ToInt32 n) 16).
Definition green (n : num) : num :=
  of_Z (Z.land (Z.shiftr (ToInt32 n) 8) 255).
Definition blue (n : num) : num := of_Z (Z.land (ToInt32 n) 255).

(** ["#" + (0x1000000 + r * 0x10000 + g * 0x100 + b).toString(16).slice(1)] *)
Definition pack (r g b : num) : option string :=
  match toString16
          (add (add (add (of_Z 16777216) (mul r (of_Z 65536)))
                    (mul g (of_Z 256))) b) with
  | Some digits => Some (String "#"%char (slice1 digits))
  | None => None
  end.

(** [v < 255 ? v < 1 ? 0 : v : 255] *)
Definition lighter (v : num) : num :=
  if lt v (of_Z 255) then (if lt v (of_Z 1) then of_Z 0 else v)
  else of_Z 255.

(** [v > 255 ? 255 : v < 0 ? 0 : v] *)
Definition darker (v : num) : num :=
  if gt v (of_Z 255) then of_Z 255
  else if lt v (of_Z 0) then of_Z 0 else v.

Definition lightenColor (color : string) (percent : num) : option string :=
  let num := num_of color in
  let amt := amt_of percent in
  let R := add (red num) amt in
  let G := add (green num) amt in
  let B := add (blue num) amt in
  pack (lighter R) (lighter G) (lighter B).

Definition darkenColor (color : string) (percent : num) : option string :=
  let num := num_of color in
  let amt := amt_of percent in
  let R := sub (red num) amt in
  let G := sub (green num) amt in
  let B := sub (blue num) amt in
  pack (darker R) (darker G) (darker B).

End Color.

(* ================================================================== *)
(** ** Further concrete runs *)

Module Cases.

Import Server.

(** Tanks A and B fire: A at 3000, 3100 (too early), 3150 (too early) and
    3300, B at 3100. *)
Definition volley : list input :=
  [ Scenario.join "A"; Scenario.join "B";
    PlayerShoot "A" 3000; PlayerShoot "A" 3100; PlayerShoot "B" 3100;
    PlayerShoot "A" 3150; PlayerShoot "A" 3300 ].

(** Tank A moves at 2000 and tank B sends an audio frame at 3000; the
    sweep runs at 700000. *)
Definition stale : list input :=
  [ Scenario.join "A"; Scenario.join "B";
    PlayerMove "A" (Scenario.move_to (of_Z 100) (of_Z 100)) 2000;
    AudioStreamIn "B" Scenario.frame 3000 3000 ].

(** Audio frames: two from tank A, one from a socket whose player the
    sweep has evicted, one without samples; the one-second interval runs
    after the first. *)
Definition chatter : list input :=
  [ Scenario.join "A"; Scenario.join "B";
    AudioStreamIn "A" Scenario.frame 2000 2000;
    Second;
    PlayerMove "B" (Scenario.move_to (of_Z 100) (of_Z 100)) 2100;
    Cleanup 700000;
    AudioStreamIn "B" Scenario.frame 700100 700100;
    AudioStreamIn "A" (JObj [("timestamp", JNum (of_Z 5))]) 700200 700200;
    AudioStreamIn "A" Scenario.frame 700300 700300 ].

(** What tank A does before its first shot, while tank B fires. *)
Definition warm_up : list input :=
  [ Scenario.join "B";
    PlayerMove "A" (Scenario.move_to (of_Z 300) (of_Z 200)) 2000;
    PlayerShoot "B" 2500;
    AudioStreamIn "A" Scenario.frame 3000 3000;
    GameLoop ].

(** What the client of tank B sees after it has joined tank A: A moves
    and fires, C joins, moves with an angle that was [1e999] on the wire
    and fires, the sweep evicts A, A's socket closes, and the timer of
    A's bullet fires. *)
Definition spectated : list input :=
  [ PlayerMove "A" (Scenario.move_to (of_Z 300) (of_Z 200)) 2000;
    PlayerShoot "A" 2500;
    Scenario.join "C";
    GameLoop;
    PlayerMove "C"
      (JObj [ ("x", JNum (of_Z 500)); ("y", JNum (of_Z 400));
              ("angle", JNum pos_inf) ]) 650000;
    PlayerShoot "C" 650100;
    Cleanup 700000;
    Disconnect "A";
    BulletTimeout 0 ].

End Cases.

(* ================================================================== *)
(** * Properties *)

(* ------------------------------------------------------------------ *)
(** ** JavaScript numbers *)

(** *** Comparisons, [Math.min] and [Math.max] *)

Lemma ltb_leb a b : SFltb a b = true -> SFleb a b = true.
Proof.
  unfold SFltb, SFleb. destruct (SFcompare a b) as [[] |]; congruence.
Qed.

(** [Math.min] against a finite non-zero bound. *)
Lemma Math_min_finite s m e v :
  Math_min (S754_finite s m e) v =
  if is_nan v then nan
  else if SFltb v (S754_finite s m e) then v else S754_finite s m e.
Proof. destruct v; reflexivity. Qed.

Lemma Math_max_finite s m e v :
  Math_max (S754_finite s m e) v =
  if is_nan v then nan
  else if SFltb (S754_finite s m e) v then v else S754_finite s m e.
Proof. destruct v; reflexivity. Qed.

(** [SFcompare] read from the other side. *)
Lemma SFcompare_antisym a b :
  SFcompare b a = option_map CompOpp (SFcompare a b).
Proof.
  destruct a as [sa | sa | | sa ma ea], b as [sb | sb | | sb mb eb];
    try reflexivity;
    try (destruct sa; reflexivity); try (destruct sb; reflexivity);
    try (destruct sa, sb; reflexivity).
  cbn [SFcompare option_map].
  rewrite (Z.compare_antisym eb ea).
  pose proof (Pos.compare_cont_antisym ma mb Eq) as P. simpl in P.
  destruct sa, sb; try reflexivity; destruct (eb ?= ea); simpl;
    try reflexivity; rewrite <- P; try reflexivity.
Qed.

Lemma leb_not_ltb a b : SFleb a b = true -> SFltb b a = false.
Proof.
  unfold SFleb, SFltb. rewrite (SFcompare_antisym a b).
  destruct (SFcompare a b) as [[] |]; simpl; congruence.
Qed.

Lemma SFltb_pos_pos m1 e1 m2 e2 :
  SFltb (S754_finite false m1 e1) (S754_finite false m2 e2) =
  match e1 ?= e2 with
  | Lt => true
  | Gt => false
  | Eq => match Pos.compare m1 m2 with Lt => true | _ => false end
  end.
Proof.
  unfold SFltb, SFcompare. destruct (e1 ?= e2); reflexivity.
Qed.

Lemma SFltb_neg_neg m1 e1 m2 e2 :
  SFltb (S754_finite true m1 e1) (S754_finite true m2 e2) =
  match e1 ?= e2 with
  | Lt => false
  | Gt => true
  | Eq => match Pos.compare m1 m2 with Gt => true | _ => false end
  end.
Proof.
  unfold SFltb, SFcompare. destruct (e1 ?= e2); try reflexivity.
  change (Pos.compare_cont Eq m1 m2) with (Pos.compare m1 m2).
  destruct (Pos.compare m1 m2); reflexivity.
Qed.

Lemma SFltb_neg_pos m1 e1 m2 e2 :
  SFltb (S754_finite true m1 e1) (S754_finite false m2 e2) = true.
Proof. reflexivity. Qed.

Lemma Math_min_fin s1 m1 e1 s2 m2 e2 :
  Math_min (S754_finite s1 m1 e1) (S754_finite s2 m2 e2) =
  if SFltb (S754_finite s2 m2 e2) (S754_finite s1 m1 e1)
  then S754_finite s2 m2 e2 else S754_finite s1 m1 e1.
Proof. reflexivity. Qed.

Lemma Math_max_fin s1 m1 e1 s2 m2 e2 :
  Math_max (S754_finite s1 m1 e1) (S754_finite s2 m2 e2) =
  if SFltb (S754_finite s1 m1 e1) (S754_finite s2 m2 e2)
  then S754_finite s2 m2 e2 else S754_finite s1 m1 e1.
Proof. reflexivity. Qed.

(** *** The number of binary digits *)

Lemma digits2_pos_bounds (p : positive) :
  2 ^ (Zpos (digits2_pos p) - 1) <= Zpos p < 2 ^ Zpos (digits2_pos p).
Proof.
  induction p as [p IH | p IH |]; cbn [digits2_pos].
  - rewrite Pos2Z.inj_succ, (Pos2Z.inj_xI p).
    replace (Z.succ (Zpos (digits2_pos p)) - 1)
      with (Z.succ (Zpos (digits2_pos p) - 1)) by lia.
    rewrite !Z.pow_succ_r by lia.
    set (a := 2 ^ (Zpos (digits2_pos p) - 1)) in *.
    set (b := 2 ^ Zpos (digits2_pos p)) in *. clearbody a b. lia.
  - rewrite Pos2Z.inj_succ, (Pos2Z.inj_xO p).
    replace (Z.succ (Zpos (digits2_pos p)) - 1)
      with (Z.succ (Zpos (digits2_pos p) - 1)) by lia.
    rewrite !Z.pow_succ_r by lia.
    set (a := 2 ^ (Zpos (digits2_pos p) - 1)) in *.
    set (b := 2 ^ Zpos (digits2_pos p)) in *. clearbody a b. lia.
  - simpl. lia.
Qed.

Lemma digits2_pos_unique (p : positive) (d : Z) :
  2 ^ (d - 1) <= Zpos p < 2 ^ d -> Zpos (digits2_pos p) = d.
Proof.
  intros [L U]. pose proof (digits2_pos_bounds p) as [L' U'].
  assert (0 < d).
  { destruct (Z.ltb_spec 0 d); [assumption |].
    assert (2 ^ d <= 2 ^ 0) by (destruct (Z.eq_dec d 0) as [-> | ];
      [lia | rewrite Z.pow_neg_r by lia; simpl; lia]).
    simpl in *. lia. }
  destruct (Z.lt_trichotomy (Zpos (digits2_pos p)) d) as [C | [C | C]];
    [| assumption |].
  - assert (2 ^ Zpos (digits2_pos p) <= 2 ^ (d - 1))
      by (apply Z.pow_le_mono_r; lia). lia.
  - assert (2 ^ d <= 2 ^ (Zpos (digits2_pos p) - 1))
      by (apply Z.pow_le_mono_r; lia). lia.
Qed.

(** *** Shifting out zero bits is exact *)

Lemma iter_pos_iter {A : Type} (f : A -> A) (p : positive) (x : A) :
  iter_pos f p x = Pos.iter f x p.
Proof.
  revert x. induction p as [p IH | p IH |]; intro x; simpl;
    rewrite ?IH, ?Pos.iter_swap; reflexivity.
Qed.

Lemma shr_1_even (m : Z) :
  shr_1 (Build_shr_record (2 * m) false false) = Build_shr_record m false false.
Proof. destruct m; reflexivity. Qed.

Lemma shr_exact (p : positive) (m : Z) :
  iter_pos shr_1 p (Build_shr_record (m * 2 ^ Zpos p) false false)
  = Build_shr_record m false false.
Proof.
  rewrite iter_pos_iter. revert m.
  induction p as [| p IH] using Pos.peano_ind; intro m.
  - replace (m * 2 ^ 1) with (2 * m) by lia. apply shr_1_even.
  - rewrite Pos.iter_succ_r, Pos2Z.inj_succ, Z.pow_succ_r by lia.
    replace (m * (2 * 2 ^ Zpos p)) with (2 * (m * 2 ^ Zpos p)) by lia.
    rewrite shr_1_even. apply IH.
Qed.

(** *** Rounding a number that fits is exact *)

Lemma fexp64 (z : Z) : -1074 <= z - 53 -> fexp 53 1024 z = z - 53.
Proof. intro H. unfold fexp, emin. lia. Qed.

Lemma binary_round_aux_exact (s : bool) (m1 : positive) (n e : Z) :
  0 <= n -> Zpos (digits2_pos m1) = 53 -> -1074 <= e + n -> e + n <= 971 ->
  binary_round_aux 53 1024 s (Zpos m1 * 2 ^ n) e loc_Exact
  = S754_finite s m1 (e + n).
Proof.
  intros Hn D Lo Hi.
  pose proof (digits2_pos_bounds m1) as B. rewrite D in B.
  assert (P2 : 0 < 2 ^ n) by (apply Z.pow_pos_nonneg; lia).
  destruct (Zpos m1 * 2 ^ n) as [| q | q] eqn:Eq; try lia.
  assert (Dq : Zpos (digits2_pos q) = 53 + n).
  { apply digits2_pos_unique. rewrite <- Eq.
    replace (53 + n - 1) with (52 + n) by lia.
    rewrite !Z.pow_add_r by lia. simpl (2 ^ 52) in *. simpl (2 ^ 53) in *.
    nia. }
  unfold binary_round_aux, shr_fexp. cbn [Zdigits2 shr_record_of_loc].
  rewrite Dq, fexp64 by lia.
  replace (53 + n + e - 53 - e) with n by lia.
  assert (S1 : shr (Build_shr_record (Zpos q) false false) e n
               = (Build_shr_record (Zpos m1) false false, e + n)).
  { unfold shr. destruct n as [| p | p]; [| | lia].
    - rewrite Z.add_0_r. f_equal. f_equal. simpl in Eq. lia.
    - f_equal. rewrite <- Eq. apply shr_exact. }
  rewrite S1. cbn [shr_m loc_of_shr_record round_nearest_even Zdigits2
                   shr_record_of_loc].
  rewrite D, fexp64 by lia.
  replace (53 + (e + n) - 53 - (e + n)) with 0 by lia.
  cbn [shr shr_m].
  destruct (Z.leb_spec (e + n) (1024 - 53)); [reflexivity | lia].
Qed.

(** *** The sign goes through rounding *)

Lemma binary_round_aux_opp prec emax mx ex lx :
  binary_round_aux prec emax true mx ex lx
  = SFopp (binary_round_aux prec emax false mx ex lx).
Proof.
  unfold binary_round_aux.
  destruct (shr_fexp prec emax mx ex lx) as [mrs' e'].
  destruct (shr_fexp prec emax _ e' loc_Exact) as [mrs'' e''].
  destruct (shr_m mrs''); try reflexivity.
  destruct (e'' <=? emax - prec); reflexivity.
Qed.

Lemma binary_round_opp prec emax m e :
  binary_round prec emax true m e = SFopp (binary_round prec emax false m e).
Proof.
  unfold binary_round. destruct (shl_align _ _ _) as [mz ez].
  apply binary_round_aux_opp.
Qed.

Lemma SFopp_involutive f : SFopp (SFopp f) = f.
Proof. destruct f; cbn [SFopp]; rewrite ?negb_involutive; reflexivity. Qed.

Lemma binary_round_negb prec emax s m e :
  binary_round prec emax (negb s) m e = SFopp (binary_round prec emax s m e).
Proof.
  destruct s; cbn [negb].
  - now rewrite (binary_round_opp prec emax m e), SFopp_involutive.
  - apply binary_round_opp.
Qed.

Lemma binary_round_aux_negb prec emax s mx ex lx :
  binary_round_aux prec emax (negb s) mx ex lx
  = SFopp (binary_round_aux prec emax s mx ex lx).
Proof.
  destruct s; cbn [negb].
  - now rewrite (binary_round_aux_opp prec emax mx ex lx), SFopp_involutive.
  - apply binary_round_aux_opp.
Qed.

Lemma of_Z_opp (p : positive) : of_Z (Zneg p) = SFopp (of_Z (Zpos p)).
Proof. unfold of_Z. cbn [binary_normalize]. apply binary_round_opp. Qed.

Lemma div_opp_l (a : num) (m : positive) (e : Z) :
  div (SFopp a) (S754_finite false m e) = SFopp (div a (S754_finite false m e)).
Proof.
  unfold div. destruct a as [s | s | | s ma ea]; cbn [SFopp SFdiv];
    rewrite ?xorb_false_r; try reflexivity.
  destruct (SFdiv_core_binary _ _ _ _ _ _) as [[mz ez] lz].
  apply binary_round_aux_negb.
Qed.

(* ------------------------------------------------------------------ *)
(** ** The audio codec *)

Section CodecFacts.
Import Codec.

(** *** Compression *)

Lemma of_Z_32767 : of_Z 32767 = S754_finite false 9006924376834048 (-38).
Proof. reflexivity. Qed.

Lemma of_Z_m32768 : of_Z (-32768) = S754_finite true 4503599627370496 (-37).
Proof. reflexivity. Qed.

(** The product by 32767 is exact. *)
Lemma mul_32767 (s : bool) (m : positive) (e : Z) :
  Zpos m < 2 ^ 24 -> -1000 <= e <= 900 ->
  exists (m' : positive) (n : Z),
    0 <= n <= 38 /\
    mul (S754_finite s m e) (of_Z 32767) = S754_finite s m' (e - 38 + n) /\
    Zpos (digits2_pos m') = 53 /\
    Zpos m' * 2 ^ n = Zpos m * 32767 * 2 ^ 38.
Proof.
  intros Hm He.
  change (of_Z 32767) with (S754_finite false 9006924376834048 (-38)).
  unfold mul. cbn [SFmul]. rewrite xorb_false_r.
  set (P := (m * 9006924376834048)%positive).
  assert (EP : Zpos P = Zpos m * 32767 * 2 ^ 38) by (unfold P; lia).
  pose proof (digits2_pos_bounds P) as B.
  set (d := Zpos (digits2_pos P)) in *.
  assert (Hd : 53 <= d <= 77).
  { split.
    - destruct (Z.le_gt_cases 53 d) as [? | C]; [assumption |].
      assert (2 ^ d <= 2 ^ 52) by (apply Z.pow_le_mono_r; lia).
      simpl (2 ^ 52) in *. simpl (2 ^ 24) in *. simpl (2 ^ 38) in *. lia.
    - destruct (Z.le_gt_cases d 77) as [? | C]; [assumption |].
      assert (2 ^ 77 <= 2 ^ (d - 1)) by (apply Z.pow_le_mono_r; lia).
      simpl (2 ^ 77) in *. simpl (2 ^ 24) in *. simpl (2 ^ 38) in *. lia. }
  set (n := d - 53).
  assert (E2 : 2 ^ 38 = 2 ^ (38 - n) * 2 ^ n)
    by (rewrite <- Z.pow_add_r by lia; f_equal; lia).
  assert (Pn : 0 < 2 ^ n) by (apply Z.pow_pos_nonneg; lia).
  assert (Pn' : 0 < 2 ^ (38 - n)) by (apply Z.pow_pos_nonneg; lia).
  set (m1 := Zpos m * 32767 * 2 ^ (38 - n)).
  assert (Em : Zpos P = m1 * 2 ^ n) by (unfold m1; rewrite EP, E2; ring).
  assert (P1 : 0 < m1) by (unfold m1; nia).
  destruct m1 as [| m' | m'] eqn:E1; try lia.
  exists m', n. split; [lia |].
  assert (D' : Zpos (digits2_pos m') = 53).
  { apply digits2_pos_unique.
    replace d with (53 + n) in B by lia.
    replace (53 + n - 1) with (52 + n) in B by lia.
    rewrite !Z.pow_add_r in B by lia. rewrite Em in B.
    simpl (2 ^ 52) in *. simpl (2 ^ 53) in *. simpl (53 - 1).
    simpl (2 ^ 52). nia. }
  split; [| split; [exact D' | rewrite <- Em, EP; reflexivity]].
  rewrite Em.
  replace (e - 38 + n) with (e + -38 + n) by lia.
  apply binary_round_aux_exact; lia.
Qed.


(** Clamping a product that is in range changes nothing. *)
Lemma clamp_id (s : bool) (m : positive) (e : Z) :
  e <= -38 -> (e = -38 -> Zpos m <= 9006924376834048) ->
  Math_max (of_Z (-32768)) (Math_min (of_Z 32767) (S754_finite s m e))
  = S754_finite s m e.
Proof.
  intros He Hm. rewrite of_Z_32767, of_Z_m32768, Math_min_fin.
  destruct s.
  - rewrite SFltb_neg_pos, Math_max_fin, SFltb_neg_neg.
    destruct (Z.compare_spec (-37) e) as [C | C | C]; try lia. reflexivity.
  - rewrite SFltb_pos_pos.
    destruct (Z.compare_spec e (-38)) as [C | C | C]; try lia.
    + destruct (Pos.compare_spec m 9006924376834048) as [D | D | D].
      * rewrite C, D. reflexivity.
      * reflexivity.
      * specialize (Hm C). apply Pos2Z.pos_lt_pos in D. clear - Hm D. lia.
    + reflexivity.
Qed.

(** The shape of a sample of [-1, 1]. *)
Lemma sample_shape (s : bool) (m : positive) (e : Z) :
  float32 (S754_finite s m e) = true ->
  (-1 <= value (S754_finite s m e) <= 1)%Q ->
  exists a : positive,
    e = Zneg a /\ Zpos m < 2 ^ 24 /\ Zpos m <= 2 ^ Zpos a /\ Zpos a <= 149.
Proof.
  unfold float32, is_finite, valid_binary, bounded, canonical_mantissa,
    fexp, emin. cbn [andb]. intros V [L U].
  apply andb_true_iff in V. destruct V as [V _]. apply Z.eqb_eq in V.
  pose proof (digits2_pos_bounds m) as [B1 B2].
  set (d := Zpos (digits2_pos m)) in *.
  assert (Hd : 0 < d) by (unfold d; lia).
  assert (d <= 24 /\ -149 <= e) as [Hd' He] by lia.
  assert (Hm : Zpos m < 2 ^ 24).
  { assert (2 ^ d <= 2 ^ 24) by (apply Z.pow_le_mono_r; lia). lia. }
  destruct e as [| p | a].
  - exfalso. assert (d = 24) by lia.
    assert (2 ^ 23 <= Zpos m) by (replace 23 with (d - 1) by lia; exact B1).
    cbn [value] in L, U. unfold Qle in L, U. simpl in L, U.
    simpl (2 ^ 23) in *. destruct s; simpl in *; lia.
  - exfalso. assert (d = 24) by lia.
    assert (2 ^ 23 <= Zpos m) by (replace 23 with (d - 1) by lia; exact B1).
    assert (0 < 2 ^ Zpos p) by (apply Z.pow_pos_nonneg; lia).
    cbn [value] in L, U. unfold Qle in L, U. cbn [Qnum Qden inject_Z] in L, U.
    simpl (2 ^ 23) in *. destruct s; cbn [cond_Zopp] in *; nia.
  - exists a. split; [reflexivity |]. split; [exact Hm |]. split; [| lia].
    cbn [value] in L, U. unfold Qle in L, U. cbn [Qnum Qden] in L, U.
    rewrite Pos2Z.inj_pow in L, U.
    destruct s; cbn [cond_Zopp] in *; lia.
Qed.

Lemma wrap16_id n : -32768 <= n <= 32767 -> wrap16 n = n.
Proof. intro H. unfold wrap16. rewrite Z.mod_small; lia. Qed.

Lemma compress_finite (s : bool) (m a : positive) :
  Zpos m < 2 ^ 24 -> Zpos m <= 2 ^ Zpos a -> Zpos a <= 149 ->
  compress_sample (S754_finite s m (Zneg a))
  = cond_Zopp s (Zpos m * 32767 / 2 ^ Zpos a) /\
  0 <= Zpos m * 32767 / 2 ^ Zpos a <= 32767.
Proof.
  intros Hm Ha Ha'.
  assert (PA : 0 < 2 ^ Zpos a) by (apply Z.pow_pos_nonneg; lia).
  assert (R : 0 <= Zpos m * 32767 / 2 ^ Zpos a <= 32767).
  { split; [apply Z.div_pos; lia |].
    apply Z.div_le_upper_bound; [lia |]. nia. }
  split; [| exact R].
  destruct (mul_32767 s m (Zneg a) Hm ltac:(lia)) as (m' & n & Hn & E & D & V).
  pose proof (digits2_pos_bounds m') as [B1 B2]. rewrite D in B1, B2.
  simpl (53 - 1) in B1. simpl (2 ^ 52) in B1. simpl (2 ^ 53) in B2.
  assert (Pn : 0 < 2 ^ n) by (apply Z.pow_pos_nonneg; lia).
  assert (Hna : n <= Zpos a).
  { destruct (Z.le_gt_cases n (Zpos a)) as [? | C]; [assumption |].
    assert (2 ^ (Zpos a + 1) <= 2 ^ n) by (apply Z.pow_le_mono_r; lia).
    rewrite Z.pow_add_r in H by lia. simpl (2 ^ 1) in H.
    simpl (2 ^ 38) in V. nia. }
  unfold compress_sample. rewrite E, clamp_id.
  - set (q := Zpos a + 38 - n).
    assert (Eq : Zneg a - 38 + n = - q) by (unfold q; lia).
    rewrite Eq. destruct q as [| q' | q'] eqn:Hq; try lia.
    cbn [Z.opp ToInt16].
    assert (E2 : Zpos m' / 2 ^ Zpos q' = Zpos m * 32767 / 2 ^ Zpos a).
    { rewrite <- Hq. unfold q.
      replace (Zpos a + 38 - n) with (Zpos a + (38 - n)) by lia.
      rewrite Z.pow_add_r by lia.
      assert (P' : 0 < 2 ^ (38 - n)) by (apply Z.pow_pos_nonneg; lia).
      assert (E3 : Zpos m' = Zpos m * 32767 * 2 ^ (38 - n)).
      { apply Z.mul_reg_r with (p := 2 ^ n); [lia |].
        rewrite V.
        replace (2 ^ 38) with (2 ^ (38 - n) * 2 ^ n)
          by (rewrite <- Z.pow_add_r by lia; f_equal; lia).
        ring. }
      rewrite E3. apply Z.div_mul_cancel_r; lia. }
    rewrite E2. apply wrap16_id. destruct s; cbn [cond_Zopp]; lia.
  - lia.
  - intro H. assert (n = Zpos a) by lia. subst n.
    simpl (2 ^ 38) in V. nia.
Qed.

Lemma compress_zero (s : bool) : compress_sample (S754_zero s) = 0.
Proof. destruct s; reflexivity. Qed.


(** *** Decompression *)

Lemma to_float32_opp (d : num) : to_float32 (SFopp d) = SFopp (to_float32 d).
Proof.
  destruct d as [s | s | | s m e]; cbn [SFopp to_float32]; try reflexivity.
  apply binary_round_negb.
Qed.

Lemma decompress_opp (p : positive) :
  decompress_sample (Zneg p) = SFopp (decompress_sample (Zpos p)).
Proof.
  unfold decompress_sample. rewrite of_Z_opp, of_Z_32767, div_opp_l.
  apply to_float32_opp.
Qed.

Lemma value_opp (f : spec_float) : value (SFopp f) = Qopp (value f).
Proof.
  destruct f as [s | s | | s m e]; cbn [SFopp value]; try reflexivity.
  destruct e as [| p | p]; destruct s; cbn [negb cond_Zopp Qopp Qnum Qden];
    try reflexivity; unfold inject_Z, Qopp; cbn [Qnum Qden]; f_equal;
    rewrite <- ?Pos2Z.opp_pos; ring.
Qed.

(** *** One cell of the quantizer *)

(** The samples [M / 2^a] whose compressed element is [j], against the
    decompressed value [R / W] of [j], in integers. *)
Lemma cell_sound (M a j R w : Z) :
  0 < M < 2 ^ 24 -> 0 <= a -> 0 <= w -> 0 < R ->
  j * 2 ^ a <= 32767 * M < (j + 1) * 2 ^ a ->
  32767 * R <= (j + 1) * 2 ^ w ->
  (j * 2 ^ w <= 32767 * R \/
   (2 ^ 23 <= R /\ (j + 1) * 2 ^ w <= 32767 * (R + 2 ^ w / 32767 + 1))) ->
  - (2 ^ a * 2 ^ w) <= 32767 * (R * 2 ^ a - M * 2 ^ w) <= 2 ^ a * 2 ^ w.
Proof.
  intros HM Ha Hw HR Cell A B.
  assert (PA : 0 < 2 ^ a) by (apply Z.pow_pos_nonneg; lia).
  assert (PW : 0 < 2 ^ w) by (apply Z.pow_pos_nonneg; lia).
  set (A' := 2 ^ a) in *. set (W := 2 ^ w) in *.
  split.
  - (* the sample is not more than a step above *)
    destruct (Z.le_gt_cases (32767 * (M * W - R * A')) (A' * W)) as [? | Far];
      [lia |].
    exfalso. destruct B as [B1 | [B2 B3]].
    + assert (32767 * M * W < (j + 1) * A' * W) by nia.
      assert ((j + 1) * A' * W <= (32767 * R + W) * A') by nia.
      nia.
    + assert (Gt : R * A' < M * W) by nia.
      assert (Le : a <= w).
      { destruct (Z.le_gt_cases a w) as [? | C]; [assumption |].
        assert (2 ^ (w + 1) <= 2 ^ a) by (apply Z.pow_le_mono_r; lia).
        rewrite Z.pow_add_r in H by lia. fold W A' in H.
        simpl (2 ^ 1) in H. simpl (2 ^ 23) in *. simpl (2 ^ 24) in *. nia. }
      assert (EW : W = A' * 2 ^ (w - a)).
      { unfold W, A'. rewrite <- Z.pow_add_r by lia. f_equal. lia. }
      assert (PD : 0 < 2 ^ (w - a)) by (apply Z.pow_pos_nonneg; lia).
      set (D := 2 ^ (w - a)) in *.
      assert (F1 : W < 32767 * (M * D - R)).
      { rewrite EW in Far.
        assert (A' * (A' * D) < A' * (32767 * (M * D - R))) by lia.
        rewrite EW. apply Z.mul_lt_mono_pos_l with (p := A'); [lia |].
        lia. }
      pose proof (Z.mul_div_le W 32767 ltac:(lia)) as F2.
      pose proof (Z.mod_pos_bound W 32767 ltac:(lia)) as F3.
      pose proof (Z.div_mod W 32767 ltac:(lia)) as F4.
      assert (F5 : R + W / 32767 + 1 <= M * D) by lia.
      assert (F6 : 32767 * (M * D) < (j + 1) * W).
      { rewrite EW.
        replace ((j + 1) * (A' * D)) with ((j + 1) * A' * D) by ring.
        replace (32767 * (M * D)) with (32767 * M * D) by ring.
        apply Z.mul_lt_mono_pos_r; lia. }
      nia.
  - (* the sample is not more than a step below *)
    assert (j * A' * W <= 32767 * M * W) by nia.
    assert (32767 * R * A' <= (j + 1) * W * A') by nia.
    nia.
Qed.

(** *** Every cell has been checked *)

Lemma cells_ok_spec (n : nat) : forall j i,
  cells_ok j n = true -> j <= i < j + Z.of_nat n -> cell_ok i = true.
Proof.
  induction n as [| n IH]; intros j i H R; [lia |].
  cbn [cells_ok] in H. apply andb_true_iff in H. destruct H as [H1 H2].
  destruct (Z.eq_dec i j) as [-> | D]; [exact H1 |].
  apply (IH (j + 1)); [exact H2 | lia].
Qed.

Lemma cells_checked : cells_ok 1 (Z.to_nat 32767) = true.
Proof. vm_compute. reflexivity. Qed.

Lemma cell_checked (j : Z) : 1 <= j <= 32767 -> cell_ok j = true.
Proof.
  intro H. apply (cells_ok_spec (Z.to_nat 32767) 1 j cells_checked). lia.
Qed.

Lemma cell_facts (j : Z) :
  cell_ok j = true ->
  exists (R w : positive),
    decompress_sample j = S754_finite false R (Zneg w) /\
    32767 * Zpos R <= (j + 1) * 2 ^ Zpos w /\
    (j * 2 ^ Zpos w <= 32767 * Zpos R \/
     (2 ^ 23 <= Zpos R /\
      (j + 1) * 2 ^ Zpos w <= 32767 * (Zpos R + 2 ^ Zpos w / 32767 + 1))).
Proof.
  unfold cell_ok.
  destruct (decompress_sample j) as [s | s | | s R e]; try discriminate.
  destruct s; [discriminate |]. destruct e as [| w | w]; try discriminate.
  cbv zeta. intro H. apply andb_true_iff in H. destruct H as [A B].
  apply Z.leb_le in A. exists R, w. split; [reflexivity |].
  split; [exact A |].
  apply orb_true_iff in B. destruct B as [B | B].
  - left. now apply Z.leb_le.
  - right. apply andb_true_iff in B. destruct B as [B1 B2].
    split; now apply Z.leb_le.
Qed.

Local Open Scope Q_scope.

Lemma decompress_0 : decompress_sample 0 = S754_zero false.
Proof. reflexivity. Qed.

(** The round trip of a positive sample [m / 2^a]. *)
Lemma roundtrip_pos (m a : positive) :
  (Zpos m < 2 ^ 24)%Z -> (Zpos m <= 2 ^ Zpos a)%Z ->
  Qabs (value (decompress_sample (Zpos m * 32767 / 2 ^ Zpos a))
        - (Zpos m # 2 ^ a)) <= 1 # 32767.
Proof.
  intros Hm Ha.
  assert (PA : (0 < 2 ^ Zpos a)%Z) by (apply Z.pow_pos_nonneg; lia).
  set (j := (Zpos m * 32767 / 2 ^ Zpos a)%Z).
  assert (Cell : (j * 2 ^ Zpos a <= 32767 * Zpos m < (j + 1) * 2 ^ Zpos a)%Z).
  { pose proof (Z.div_mod (Zpos m * 32767) (2 ^ Zpos a) ltac:(lia)) as E.
    pose proof (Z.mod_pos_bound (Zpos m * 32767) (2 ^ Zpos a) PA) as B.
    fold j in E. lia. }
  assert (Rj : (0 <= j <= 32767)%Z).
  { split; [apply Z.div_pos; lia |].
    apply Z.div_le_upper_bound; [lia |]. nia. }
  apply Qabs_Qle_condition.
  destruct (Z.eq_dec j 0) as [J0 | J0].
  - rewrite J0, decompress_0. cbn [value].
    unfold Qle, Qminus, Qplus, Qopp. cbn [Qnum Qden].
    rewrite ?Pos2Z.inj_mul, Pos2Z.inj_pow. rewrite J0 in Cell. split; lia.
  - destruct (cell_facts j (cell_checked j ltac:(lia))) as (R & w & E & A & B).
    rewrite E. cbn [value cond_Zopp].
    pose proof (cell_sound (Zpos m) (Zpos a) j (Zpos R) (Zpos w)
                  ltac:(lia) ltac:(lia) ltac:(lia) ltac:(lia) Cell A B) as S.
    unfold Qle, Qminus, Qplus, Qopp. cbn [Qnum Qden].
    rewrite ?Pos2Z.inj_mul, !Pos2Z.inj_pow.
    assert (PW : (0 < 2 ^ Zpos w)%Z) by (apply Z.pow_pos_nonneg; lia).
    set (A' := (2 ^ Zpos a)%Z) in *. set (W := (2 ^ Zpos w)%Z) in *.
    split; nia.
Qed.

Lemma Qabs_opp_minus (r q : Q) : Qabs (- r - - q) == Qabs (r - q).
Proof.
  rewrite <- (Qabs_opp (r - q)). apply Qabs_wd. ring.
Qed.

(** The round trip of one sample. *)
Lemma sample_roundtrip (x : spec_float) :
  float32 x = true -> -1 <= value x <= 1 ->
  Qabs (value (decompress_sample (compress_sample x)) - value x)
  <= 1 # 32767.
Proof.
  intros F B. destruct x as [s | s | | s m e]; try discriminate F.
  - rewrite compress_zero, decompress_0. cbn [value]. discriminate.
  - destruct (sample_shape s m e F B) as (a & -> & Hm & Ha & Ha').
    destruct (compress_finite s m a Hm Ha Ha') as [E R]. rewrite E.
    pose proof (roundtrip_pos m a Hm Ha) as P.
    destruct s; cbn [cond_Zopp value] in *; [| exact P].
    destruct (Zpos m * 32767 / 2 ^ Zpos a)%Z as [| j | j] eqn:J; try lia.
    + cbn [Z.opp]. rewrite decompress_0 in *. cbn [value] in *.
      change (Zneg m # 2 ^ a) with (- (Zpos m # 2 ^ a)).
      rewrite <- (Qabs_opp_minus 0 (Zpos m # 2 ^ a)) in P. exact P.
    + cbn [Z.opp]. rewrite decompress_opp, value_opp.
      change (Zneg m # 2 ^ a) with (- (Zpos m # 2 ^ a)).
      rewrite Qabs_opp_minus. exact P.
Qed.

(** Compression is the scaling by 32767 with the fraction dropped. *)
Lemma compress_sample_scaled (x : spec_float) :
  float32 x = true -> -1 <= value x <= 1 ->
  compress_sample x = Codec.trunc (value x * (32767 # 1)) /\
  (-32767 <= compress_sample x <= 32767)%Z.
Proof.
  intros F B. destruct x as [s | s | | s m e]; try discriminate F.
  - rewrite compress_zero. split; [reflexivity | lia].
  - destruct (sample_shape s m e F B) as (a & -> & Hm & Ha & Ha').
    destruct (compress_finite s m a Hm Ha Ha') as [E R]. rewrite E.
    split; [| destruct s; cbn [cond_Zopp]; lia].
    unfold Codec.trunc, value, Qmult. cbn [Qnum Qden].
    rewrite Pos.mul_1_r, Pos2Z.inj_pow.
    assert (PA : (0 < 2 ^ Zpos a)%Z) by (apply Z.pow_pos_nonneg; lia).
    destruct s; cbn [cond_Zopp].
    + rewrite Z.mul_opp_l, Z.quot_opp_l by lia.
      f_equal. symmetry. apply Z.quot_div_nonneg; lia.
    + symmetry. apply Z.quot_div_nonneg; lia.
Qed.

(** C7.  Round trip of the audio codec, in the arithmetic of the code
    (binary64 products and quotients, the stores into the [Int16Array] and
    into the [Float32Array]): every binary32 sample of [-1, 1] comes back
    from [decompressAudio (compressAudio _)] within one quantization step,
    1/32767, of its value.  The compressed elements are 16-bit signed
    integers, namely the samples scaled by 32767 with the fraction
    dropped: on [-1, 1] the clamp to [-32768, 32767] never applies. *)
Theorem audio_roundtrip_within_one_step (audioData : list spec_float) :
  Forall sample audioData ->
  Forall2 (fun x d => Qabs (value d - value x) <= step)
          audioData (decompressAudio (compressAudio audioData)) /\
  Forall2 (fun x n => (-32768 <= n <= 32767)%Z /\
                      n = trunc (value x * (32767 # 1)))
          audioData (compressAudio audioData).
Proof.
  intro H. split.
  - induction H as [| x l (F & L & U) _ IH]; simpl; constructor; [| exact IH].
    apply sample_roundtrip; [exact F | split; assumption].
  - induction H as [| x l (F & L & U) _ IH]; simpl; constructor; [| exact IH].
    destruct (compress_sample_scaled x F (conj L U)) as [E R].
    split; [lia | exact E].
Qed.

(** The samples 0.5, -1, the binary32 number nearest to 1/3, the smallest
    positive binary32 number and 0. *)
Lemma audio_roundtrip_within_one_step_witness :
  let audioData :=
    [ S754_finite false 8388608 (-24); S754_finite true 8388608 (-23);
      S754_finite false 11184811 (-25); S754_finite false 1 (-149);
      S754_zero false ] in
  compressAudio audioData = [ 16383; -32767; 10922; 0; 0 ]%Z /\
  Forall2 (fun x d => Qabs (value d - value x) <= step)
          audioData (decompressAudio (compressAudio audioData)) /\
  Forall2 (fun x n => (-32768 <= n <= 32767)%Z /\
                      n = trunc (value x * (32767 # 1)))
          audioData (compressAudio audioData).
Proof.
  intro audioData. split; [vm_compute; reflexivity |].
  apply (audio_roundtrip_within_one_step audioData).
  repeat constructor; vm_compute; discriminate.
Defined.

(** Outside [-1, 1] the clamp applies, and a NaN is stored as 0. *)
Example compress_sample_clamps :
  compressAudio [ S754_finite false 8388608 (-22);
                  S754_finite true 8388608 (-22); S754_nan ]
  = [ 32767; -32768; 0 ]%Z.
Proof. vm_compute. reflexivity. Qed.

(** The compressed elements 16383, -32767 and 1 decompress to the
    binary32 numbers 16776704 / 2^25 (0.49998474...), -1 and
    8388864 / 2^38. *)
Example decompress_sample_values :
  decompressAudio [ 16383; -32767; 1 ]%Z
  = [ S754_finite false 16776704 (-25); S754_finite true 8388608 (-23);
      S754_finite false 8388864 (-38) ].
Proof. vm_compute. reflexivity. Qed.

End CodecFacts.

(* ------------------------------------------------------------------ *)
(** ** Maps *)

Section MapFacts.
Context {K V : Type} (eqb : K -> K -> bool).
Hypothesis eqb_spec : forall a b, reflect (a = b) (eqb a b).

Lemma eqb_same k : eqb k k = true.
Proof. destruct (eqb_spec k k); congruence. Qed.

Lemma In_set (k : K) (v : V) m e :
  In e (JsMap.set eqb k v m) -> e = (k, v) \/ In e m.
Proof.
  induction m as [| [k' v'] m IH]; simpl.
  - intros [<- | []]. now left.
  - destruct (eqb k k').
    + intros [<- | H]; auto.
    + intros [<- | H]; auto. destruct (IH H); auto.
Qed.

Lemma In_delete (k : K) (m : list (K * V)) e :
  In e (JsMap.delete eqb k m) -> In e m /\ fst e <> k.
Proof.
  induction m as [| [k' v'] m IH]; simpl; [tauto |].
  destruct (eqb_spec k k') as [-> | N].
  - intro H. destruct (IH H). auto.
  - intros [<- | H]; simpl; [split; auto |]. destruct (IH H). auto.
Qed.

Lemma get_In (k : K) (m : list (K * V)) v :
  JsMap.get eqb k m = Some v -> In (k, v) m.
Proof.
  induction m as [| [k' v'] m IH]; simpl; [discriminate |].
  destruct (eqb_spec k k') as [-> | N].
  - intros [= ->]. now left.
  - auto.
Qed.

Lemma get_set_same (k : K) (v : V) m :
  JsMap.get eqb k (JsMap.set eqb k v m) = Some v.
Proof.
  induction m as [| [k' v'] m IH]; simpl.
  - now rewrite eqb_same.
  - destruct (eqb k k') eqn:E; simpl; [now rewrite eqb_same | now rewrite E].
Qed.

Lemma get_set_other (k k0 : K) (v : V) m :
  k0 <> k -> JsMap.get eqb k0 (JsMap.set eqb k v m) = JsMap.get eqb k0 m.
Proof.
  intro N. induction m as [| [k' v'] m IH]; simpl.
  - destruct (eqb_spec k0 k); congruence.
  - destruct (eqb_spec k k') as [-> | N']; simpl.
    + destruct (eqb_spec k0 k'); congruence.
    + destruct (eqb_spec k0 k'); congruence.
Qed.

Lemma get_delete_same (k : K) (m : list (K * V)) :
  JsMap.get eqb k (JsMap.delete eqb k m) = None.
Proof.
  induction m as [| [k' v'] m IH]; simpl; [reflexivity |].
  destruct (eqb k k') eqn:E; simpl; [assumption | now rewrite E].
Qed.

Lemma get_delete_other (k k0 : K) (m : list (K * V)) :
  k0 <> k -> JsMap.get eqb k0 (JsMap.delete eqb k m) = JsMap.get eqb k0 m.
Proof.
  intro N. induction m as [| [k' v'] m IH]; simpl; [reflexivity |].
  destruct (eqb_spec k k') as [-> | N']; simpl.
  - destruct (eqb_spec k0 k'); congruence.
  - destruct (eqb_spec k0 k'); congruence.
Qed.

Lemma delete_absent (k : K) (m : list (K * V)) :
  JsMap.get eqb k m = None -> JsMap.delete eqb k m = m.
Proof.
  induction m as [| [k' v'] m IH]; simpl; [reflexivity |].
  destruct (eqb k k'); [discriminate |]. intro H. now rewrite IH.
Qed.

Lemma keys_set_present (k : K) (v : V) m :
  JsMap.get eqb k m <> None -> JsMap.keys (JsMap.set eqb k v m) = JsMap.keys m.
Proof.
  induction m as [| [k' v'] m IH]; simpl; [congruence |].
  destruct (eqb_spec k k') as [-> | N]; simpl; [reflexivity |].
  intro H. now rewrite IH.
Qed.

Lemma keys_set_absent (k : K) (v : V) m :
  JsMap.get eqb k m = None -> JsMap.keys (JsMap.set eqb k v m) = JsMap.keys m ++ [k].
Proof.
  induction m as [| [k' v'] m IH]; simpl; [reflexivity |].
  destruct (eqb_spec k k') as [-> | N]; simpl; [discriminate |].
  intro H. now rewrite IH.
Qed.

Lemma get_None_keys (k : K) (m : list (K * V)) :
  JsMap.get eqb k m = None <-> ~ In k (JsMap.keys m).
Proof.
  induction m as [| [k' v'] m IH]; simpl; [tauto |].
  destruct (eqb_spec k k') as [-> | N].
  - split; [discriminate | tauto].
  - rewrite IH. split; [intros H [E | I]; [congruence | tauto] | tauto].
Qed.

Lemma In_keys (k : K) (v : V) m : In (k, v) m -> In k (JsMap.keys m).
Proof. intro I. apply (in_map fst) in I. exact I. Qed.

Lemma In_get (k : K) (v : V) m :
  NoDup (JsMap.keys m) -> In (k, v) m -> JsMap.get eqb k m = Some v.
Proof.
  induction m as [| [k' v'] m IH]; simpl; [tauto |].
  intros N I. inversion N as [| ? ? N1 N2]; subst.
  destruct (eqb_spec k k') as [-> | D].
  - destruct I as [[= ->] | I]; [reflexivity |].
    exfalso. apply N1. eapply In_keys; eauto.
  - destruct I as [[= -> ->] | I]; [congruence | auto].
Qed.

Lemma keys_delete_incl (k k0 : K) (m : list (K * V)) :
  In k0 (JsMap.keys (JsMap.delete eqb k m)) -> In k0 (JsMap.keys m) /\ k0 <> k.
Proof.
  induction m as [| [k' v'] m IH]; simpl; [tauto |].
  destruct (eqb_spec k k') as [-> | D]; simpl.
  - intro I. destruct (IH I). auto.
  - intros [<- | I]; [auto |]. destruct (IH I). auto.
Qed.

Lemma keys_delete_nodup (k : K) (m : list (K * V)) :
  NoDup (JsMap.keys m) -> NoDup (JsMap.keys (JsMap.delete eqb k m)).
Proof.
  induction m as [| [k' v'] m IH]; simpl; [auto |].
  intro N. inversion N as [| ? ? N1 N2]; subst.
  destruct (eqb k k'); simpl; [auto |].
  constructor; [| auto]. intro I. apply keys_delete_incl in I. tauto.
Qed.

Lemma keys_set_nodup (k : K) (v : V) m :
  NoDup (JsMap.keys m) -> NoDup (JsMap.keys (JsMap.set eqb k v m)).
Proof.
  intro N. destruct (JsMap.get eqb k m) eqn:G.
  - rewrite keys_set_present by congruence. exact N.
  - rewrite keys_set_absent by assumption.
    apply NoDup_app; [exact N | repeat constructor; simpl; tauto |].
    intros a I [<- | []]. apply get_None_keys in G. tauto.
Qed.

End MapFacts.

(* ------------------------------------------------------------------ *)
(** ** Steps and runs *)

Import Server Inv.

Lemma some_pair_inv {A B : Type} (x : A * B) a b :
  Some x = Some (a, b) -> a = fst x /\ b = snd x.
Proof. intros [= ->]. auto. Qed.

(** Inversion of [step e s i = Some (s', out)] once [i] is known. *)
Ltac step_inv S :=
  match type of S with
  | (if ?c then None else Some _) = Some _ =>
      destruct c eqn:?; [discriminate |]; step_inv S
  | (if ?c then Some _ else None) = Some _ =>
      destruct c eqn:?; [| discriminate]; step_inv S
  | Some _ = Some _ =>
      apply some_pair_inv in S; destruct S as [-> ->]
  end.

Lemma connected_In s sid : connected s sid = true <-> In sid (sockets s).
Proof.
  unfold connected. rewrite existsb_exists. split.
  - intros (x & I & E). apply String.eqb_eq in E. now subst.
  - intro I. exists sid. split; [exact I | apply String.eqb_refl].
Qed.

Lemma connected_false s sid : connected s sid = false <-> ~ In sid (sockets s).
Proof.
  rewrite <- connected_In. destruct (connected s sid); split; congruence.
Qed.

Lemma none_of_cons f i tr :
  none_of f (i :: tr) <-> f i = false /\ none_of f tr.
Proof.
  unfold none_of; simpl. rewrite andb_true_iff, negb_true_iff. tauto.
Qed.

Lemma filter_none {A : Type} (f : A -> bool) (l : list A) :
  (forall x, In x l -> f x = false) -> filter f l = [].
Proof.
  induction l as [| a l IH]; simpl; [reflexivity |]. intro H.
  rewrite (H a) by auto. auto.
Qed.

Lemma count_app f a b : count f (a ++ b) = (count f a + count f b)%nat.
Proof. unfold count. now rewrite filter_app, length_app. Qed.

Lemma count_none f out :
  (forall em, In em out -> f em = false) -> count f out = 0%nat.
Proof.
  intro H. unfold count. rewrite filter_none; [reflexivity | exact H].
Qed.

(** *** The sweep *)

(** What the sweep keeps: an entry of the old map that is not inactive,
    with at most its audio flag cleared. *)
Lemma In_sweep now ps entry :
  In entry (fst (sweep now ps)) ->
  exists p, In (fst entry, p) ps /\
            (snd entry = p \/ snd entry = Player.with_audioEnabled p false) /\
            inactive now p = false.
Proof.
  induction ps as [| [k p] ps IH]; simpl; [tauto |].
  unfold sweep_player; simpl.
  set (p1 := if audio_timed_out now p
             then Player.with_audioEnabled p false else p).
  assert (E : (p1 = p \/ p1 = Player.with_audioEnabled p false) /\
               inactive now p1 = inactive now p)
    by (unfold p1; destruct (audio_timed_out now p); auto).
  destruct E as (E1 & E3).
  destruct (inactive now p1) eqn:In1; simpl.
  - intro I. destruct (IH I) as (q & ? & ?). eauto.
  - intros [<- | I]; simpl.
    + exists p. rewrite <- E3. auto.
    + destruct (IH I) as (q & ? & ?). eauto.
Qed.

Lemma keys_sweep_incl now ps k :
  In k (JsMap.keys (fst (sweep now ps))) -> In k (JsMap.keys ps).
Proof.
  induction ps as [| [k' p] ps IH]; simpl; [tauto |].
  destruct (fst (sweep_player now (k', p))) as [[k1 p1] |] eqn:E; simpl.
  - unfold sweep_player in E; simpl in E.
    destruct (inactive now _); [discriminate |]. injection E as <- _.
    intros [<- | I]; auto.
  - auto.
Qed.

Lemma keys_sweep_nodup now ps :
  NoDup (JsMap.keys ps) -> NoDup (JsMap.keys (fst (sweep now ps))).
Proof.
  induction ps as [| [k' p] ps IH]; simpl; [auto |].
  intro N. inversion N as [| ? ? N1 N2]; subst.
  destruct (fst (sweep_player now (k', p))) as [[k1 p1] |] eqn:E; simpl;
    [| auto].
  unfold sweep_player in E; simpl in E.
  destruct (inactive now _); [discriminate |]. injection E as <- _.
  constructor; [| auto]. intro I. apply keys_sweep_incl in I. tauto.
Qed.

(** What the sweep emits: [playerLeft] to all, for stamped players only. *)
Lemma In_sweep_out now ps em :
  In em (snd (sweep now ps)) ->
  exists k p, In (k, p) ps /\ em = (ToAll, PlayerLeft k) /\
              stamped (Player.lastActivity p) = true.
Proof.
  induction ps as [| [k p] ps IH]; simpl; [tauto |].
  rewrite in_app_iff. intros [I | I].
  - unfold sweep_player in I; simpl in I.
    set (p1 := if audio_timed_out now p
               then Player.with_audioEnabled p false else p) in *.
    assert (E : Player.lastActivity p1 = Player.lastActivity p)
      by (unfold p1; destruct (audio_timed_out now p); reflexivity).
    destruct (inactive now p1) eqn:A; simpl in I; [| tauto].
    destruct I as [<- | []]. exists k, p. repeat split; auto.
    unfold inactive in A. rewrite E in A. apply andb_true_iff in A. tauto.
  - destruct (IH I) as (k' & p' & J & -> & St). eauto 6.
Qed.

(** A player the sweep keeps. *)
Lemma sweep_keeps now ps k p :
  In (k, p) ps -> stamped (Player.lastActivity p) = false ->
  exists p', In (k, p') (fst (sweep now ps)) /\
             Player.lastActivity p' = Player.lastActivity p.
Proof.
  induction ps as [| [k0 p0] ps IH]; simpl; [tauto |].
  intros [[= -> ->] | I] St.
  - unfold sweep_player; simpl.
    set (p1 := if audio_timed_out now p
               then Player.with_audioEnabled p false else p) in *.
    assert (E : Player.lastActivity p1 = Player.lastActivity p)
      by (unfold p1; destruct (audio_timed_out now p); reflexivity).
    assert (A : inactive now p1 = false)
      by (unfold inactive; rewrite E, St; reflexivity).
    rewrite A; simpl. eauto.
  - destruct (IH I St) as (p' & J & E).
    exists p'. split; [| exact E].
    destruct (fst (sweep_player now (k0, p0))); simpl; auto.
Qed.

(** *** The game loop *)

(** What the collision loop emits for a bullet: one pair per victim, in
    store order. *)
Lemma collide_victims id bullet ps :
  collide id bullet ps =
  flat_map (fun q => [ (ToAll, PlayerDamaged (Player.id (snd q)) 10);
                       (ToAll, BulletDestroyed id) ])
           (victims bullet ps).
Proof.
  unfold collide, victims, collide_one.
  induction ps as [| q ps IH]; simpl; [reflexivity |].
  destruct (hits bullet (snd q)); simpl; now rewrite IH.
Qed.

Lemma In_resolve ps id bullet em :
  In em (snd (resolve ps id bullet)) ->
  em = (ToAll, BulletDestroyed id) \/
  exists q, In q (victims bullet ps) /\
            em = (ToAll, PlayerDamaged (Player.id (snd q)) 10).
Proof.
  unfold resolve. destruct (outside bullet); simpl.
  - intros [<- | []]. now left.
  - rewrite collide_victims. intro I. apply in_flat_map in I.
    destruct I as (q & Iq & [<- | [<- | []]]); [right | left]; eauto.
Qed.

Lemma In_tick_bullets e ps bs em :
  In em (snd (tick_bullets e ps bs)) ->
  (exists id b, In (id, b) bs /\ em = (ToAll, BulletDestroyed id)) \/
  (exists k p, In (k, p) ps /\ em = (ToAll, PlayerDamaged (Player.id p) 10)).
Proof.
  induction bs as [| [id b] bs IH]; simpl; [tauto |].
  unfold tick_bullet; simpl.
  destruct (advance e b) as [b' |]; simpl; [| tauto].
  rewrite in_app_iff. intros [I | I].
  - apply In_resolve in I. destruct I as [-> | ([k p] & Iq & ->)].
    + left. eauto.
    + right. apply filter_In in Iq. exists k, p. tauto.
  - destruct (IH I) as [(id' & p & J & ->) | R]; [left | right]; eauto.
Qed.

(** The game loop changes the bullets only. *)
Lemma gameLoop_frame e s :
  players (fst (gameLoop e s)) = players s /\
  sockets (fst (gameLoop e s)) = sockets s /\
  timers (fst (gameLoop e s)) = timers s /\
  bulletIdCounter (fst (gameLoop e s)) = bulletIdCounter s /\
  audioStats (fst (gameLoop e s)) = audioStats s.
Proof. repeat split. Qed.

(** *** The audio relay *)

Lemma In_relay sid audioData ps player em :
  In em (relay sid audioData ps player) ->
  em = (Broadcast sid,
        AudioStream (tagged audioData sid (Player.name player))) \/
  exists room, room <> sid /\
    em = (ToRoom sid room,
          AudioStream (tagged audioData sid (Player.name player))).
Proof.
  unfold relay.
  destruct (getNearbyPlayers ps player (of_Z 300)) as [| n l] eqn:N.
  - intros [<- | []]. now left.
  - rewrite <- N. intro I. apply in_flat_map in I.
    destruct I as (room & _ & I).
    destruct (String.eqb room sid) eqn:E; simpl in I; [tauto |].
    apply String.eqb_neq in E. destruct I as [<- | []]. right. eauto.
Qed.

(** What an audio frame does to the players: nothing, or the sender's
    audio fields are written. *)
Lemma on_audioStream_players e sid audioData t_packet t_latency s :
  players (fst (on_audioStream e sid audioData t_packet t_latency s))
    = players s \/
  exists p, player_of s sid = Some p /\ audio_guard audioData = true /\
    players (fst (on_audioStream e sid audioData t_packet t_latency s)) =
      JsMap.set String.eqb sid
        (Player.with_lastAudioPacket (Player.with_audioEnabled p true)
           t_packet) (players s).
Proof.
  unfold on_audioStream.
  change (player_of (with_audioStats s (count_packet (audioStats s))) sid)
    with (player_of s sid).
  destruct (player_of s sid) as [p |] eqn:G; [| now left].
  destruct (audio_guard audioData) eqn:A; [| now left].
  right. exists p. split; [reflexivity | split; [reflexivity |]].
  cbv zeta. destruct (note_latency _ _ _ _); reflexivity.
Qed.

Lemma on_audioStream_sockets e sid audioData t_packet t_latency s :
  sockets (fst (on_audioStream e sid audioData t_packet t_latency s))
    = sockets s.
Proof.
  unfold on_audioStream.
  destruct (player_of _ sid) as [p |]; [| reflexivity].
  destruct (audio_guard audioData); [| reflexivity].
  cbv zeta. destruct (note_latency _ _ _ _); reflexivity.
Qed.

Lemma on_audioStream_bullets e sid audioData t_packet t_latency s :
  bullets (fst (on_audioStream e sid audioData t_packet t_latency s))
    = bullets s.
Proof.
  unfold on_audioStream.
  destruct (player_of _ sid) as [p |]; [| reflexivity].
  destruct (audio_guard audioData); [| reflexivity].
  cbv zeta. destruct (note_latency _ _ _ _); reflexivity.
Qed.

Lemma In_on_audioStream e sid audioData t_packet t_latency s em :
  In em (snd (on_audioStream e sid audioData t_packet t_latency s)) ->
  exists frame, em = (Broadcast sid, AudioStream frame) \/
                exists room, room <> sid /\
                             em = (ToRoom sid room, AudioStream frame).
Proof.
  unfold on_audioStream.
  destruct (player_of _ sid) as [p |]; [| intros []].
  destruct (audio_guard audioData); [| intros []].
  cbv zeta. destruct (note_latency _ _ _ _); [| intros []].
  cbn [snd]. intro I. apply In_relay in I. eauto.
Qed.

(** *** One step *)

Lemma updated_refl sid i p : updated sid i p p.
Proof. unfold updated. auto. Qed.

(** What a step does to the players and the sockets. *)
Lemma step_store e s i s' out :
  step e s i = Some (s', out) ->
  (players s' = players s /\ sockets s' = sockets s) \/
  (exists sid p p',
     player_of s sid = Some p /\ updated sid i p p' /\
     players s' = JsMap.set String.eqb sid p' (players s) /\
     sockets s' = sockets s) \/
  (exists sid p,
     is_connection sid i = true /\ connected s sid = false /\ fresh sid p /\
     players s' = JsMap.set String.eqb sid p (players s) /\
     sockets s' = sockets s ++ [sid]) \/
  (exists sid,
     i = Disconnect sid /\
     players s' = JsMap.delete String.eqb sid (players s) /\
     sockets s' = filter (fun c => negb (String.eqb c sid)) (sockets s)) \/
  (exists now,
     i = Cleanup now /\ players s' = fst (sweep now (players s)) /\
     sockets s' = sockets s).
Proof.
  intro S.
  destruct i as [sid tr rx ry color name ta tc | sid tr | sid | sid data now
                | sid now | sid audioData tp tl | sid st | sid | bid | | now
                | | ];
    cbn [step] in S; step_inv S.
  - (* connection *)
    right; right; left. exists sid, (newPlayer sid tr rx ry color name ta tc).
    simpl. rewrite String.eqb_refl. repeat split; auto.
  - (* upgrade *)
    unfold on_upgrade. destruct (player_of s sid) as [p |] eqn:G; [| now left].
    right; left. exists sid, p, (Player.with_transport p tr).
    repeat split; auto.
  - now left.
  - (* move *)
    unfold on_playerMove.
    destruct (player_of s sid) as [p |] eqn:G; [| now left].
    destruct (move_guard data) eqn:M; [| now left].
    right; left. eexists sid, p, _. split; [exact G |].
    split; [| split; reflexivity].
    unfold updated, accepted_move. rewrite String.eqb_refl, M. simpl. auto.
  - (* shoot *)
    unfold on_playerShoot.
    destruct (player_of s sid) as [p |] eqn:G; [| now left].
    destruct (may_shoot (Player.lastShoot p) now) eqn:M; [| now left].
    right; left. exists sid, p, (Player.shot p now). split; [exact G |].
    split; [| split; reflexivity].
    unfold updated. simpl. repeat split; auto. right. exists now. auto.
  - (* audio frame *)
    destruct (on_audioStream_players e sid audioData tp tl s)
      as [E | (p & G & _ & E)].
    + left. split; [exact E | apply on_audioStream_sockets].
    + right; left. eexists sid, p, _. split; [exact G |].
      split; [| split; [exact E | apply on_audioStream_sockets]].
      unfold updated. simpl. auto.
  - (* audio state *)
    unfold on_audioStateChanged.
    destruct (player_of s sid) as [p |] eqn:G; [| now left].
    destruct (truthy st); [| now left].
    destruct (get st "enabled"); try (now left).
    right; left. eexists sid, p, _. split; [exact G |].
    split; [| split; reflexivity]. unfold updated. simpl. auto.
  - (* disconnect *)
    right; right; right; left. exists sid. auto.
  - now left.
  - now left.
  - right; right; right; right. exists now. auto.
  - now left.
  - now left.
Qed.

(** Every emit of a step is in the protocol table. *)
Lemma step_table e s i s' out :
  step e s i = Some (s', out) -> forall em, In em out -> may_emit i em = true.
Proof.
  intros S em I.
  destruct i as [sid tr rx ry color name ta tc | sid tr | sid | sid data now
                | sid now | sid audioData tp tl | sid st | sid | bid | | now
                | | ];
    cbn [step] in S; step_inv S.
  - simpl in I. destruct I as [<- | [<- | []]]; simpl;
      now rewrite ?String.eqb_refl.
  - unfold on_upgrade in I. destruct (player_of s sid); destruct I.
  - destruct I.
  - unfold on_playerMove in I. destruct (player_of s sid); [| destruct I].
    destruct (move_guard data); [| destruct I].
    destruct I as [<- | []]. simpl. now rewrite String.eqb_refl.
  - unfold on_playerShoot in I. destruct (player_of s sid); [| destruct I].
    destruct (may_shoot _ now); [| destruct I].
    destruct I as [<- | []]. simpl. now rewrite String.eqb_refl.
  - apply In_on_audioStream in I.
    destruct I as (frame & [-> | (room & D & ->)]); simpl;
      rewrite String.eqb_refl; [reflexivity |].
    apply String.eqb_neq in D. now rewrite D.
  - unfold on_audioStateChanged in I.
    destruct (player_of s sid); [| destruct I].
    destruct (truthy st); [| destruct I].
    destruct (get st "enabled"); try destruct I as [<- | []]; try destruct I.
    simpl. now rewrite String.eqb_refl.
  - destruct I as [<- | []]. simpl. now rewrite String.eqb_refl.
  - destruct I as [<- | []]. simpl. apply Z.eqb_refl.
  - apply In_tick_bullets in I.
    destruct I as [(id & b & _ & ->) | (k & p & _ & ->)]; reflexivity.
  - apply In_sweep_out in I. destruct I as (k & p & _ & -> & _). reflexivity.
  - destruct I.
  - destruct I.
Qed.

(** *** Invariants of the store *)

Lemma full_health_set ps sid p :
  full_health ps -> Player.health p = 100 ->
  full_health (JsMap.set String.eqb sid p ps).
Proof.
  intros H Hp k q I. apply In_set in I. destruct I as [[= -> ->] | I]; eauto.
Qed.

Lemma step_full_health e s i s' out :
  step e s i = Some (s', out) ->
  full_health (players s) -> full_health (players s').
Proof.
  intros S H.
  destruct (step_store _ _ _ _ _ S)
    as [[-> _] | [(sid & p & p' & G & U & -> & _)
       | [(sid & p & _ & _ & F & -> & _) | [(sid & _ & -> & _)
       | (now & _ & -> & _)]]]].
  - exact H.
  - apply full_health_set; [exact H |].
    destruct U as (_ & -> & _).
    apply (get_In _ String.eqb_spec) in G. eauto.
  - apply full_health_set; [exact H | apply F].
  - intros k q I. apply (In_delete _ String.eqb_spec) in I. destruct I; eauto.
  - intros k q I. apply In_sweep in I. simpl in I.
    destruct I as (p & I & [-> | ->] & _); simpl; eauto.
Qed.

Lemma step_wf e s i s' out :
  step e s i = Some (s', out) -> wf s -> wf s'.
Proof.
  intros S [W1 W2 W3 W4].
  destruct (step_store _ _ _ _ _ S)
    as [[Ep Es] | [(sid & p & p' & G & U & Ep & Es)
       | [(sid & p & _ & NC & F & Ep & Es) | [(sid & _ & Ep & Es)
       | (now & _ & Ep & Es)]]]];
    constructor; rewrite ?Ep, ?Es; auto.
  - now apply (keys_set_nodup _ String.eqb_spec).
  - intros k q J. apply In_set in J. destruct J as [[= -> ->] | J]; eauto.
    destruct U as (-> & _). apply (get_In _ String.eqb_spec) in G. eauto.
  - intros k q J. apply In_set in J. destruct J as [[= -> ->] | J]; eauto.
    apply (get_In _ String.eqb_spec) in G. eauto.
  - now apply (keys_set_nodup _ String.eqb_spec).
  - intros k q J. apply In_set in J. destruct J as [[= -> ->] | J]; eauto.
    apply F.
  - intros k q J. apply in_or_app. apply In_set in J.
    destruct J as [[= -> ->] | J]; [right; now left | left; eauto].
  - apply connected_false in NC.
    apply NoDup_app; [exact W4 | repeat constructor; simpl; tauto |].
    intros a I [<- | []]. tauto.
  - now apply (keys_delete_nodup _ String.eqb_spec).
  - intros k q J. apply (In_delete _ String.eqb_spec) in J. destruct J; eauto.
  - intros k q J. apply (In_delete _ String.eqb_spec) in J.
    destruct J as [J D]. simpl in D. apply filter_In. split; [eauto |].
    apply negb_true_iff, String.eqb_neq. exact D.
  - now apply NoDup_filter.
  - now apply keys_sweep_nodup.
  - intros k q J. apply In_sweep in J. simpl in J.
    destruct J as (p & J & [-> | ->] & _); simpl; eauto.
  - intros k q J. apply In_sweep in J. simpl in J.
    destruct J as (p & J & _). eauto.
Qed.

Lemma wf_init : wf init.
Proof. constructor; simpl; try constructor; intros k p []. Qed.

Lemma player_of_set s k k0 p :
  JsMap.get String.eqb k0 (JsMap.set String.eqb k p (players s)) =
  if String.eqb k0 k then Some p else player_of s k0.
Proof.
  destruct (String.eqb_spec k0 k) as [-> | D].
  - apply (get_set_same _ String.eqb_spec).
  - now apply (get_set_other _ String.eqb_spec).
Qed.

Lemma player_of_delete s k k0 :
  JsMap.get String.eqb k0 (JsMap.delete String.eqb k (players s)) =
  if String.eqb k0 k then None else player_of s k0.
Proof.
  destruct (String.eqb_spec k0 k) as [-> | D].
  - apply get_delete_same.
  - now apply (get_delete_other _ String.eqb_spec).
Qed.

Lemma player_of_sweep now s k q :
  wf s ->
  JsMap.get String.eqb k (fst (sweep now (players s))) = Some q ->
  exists p, player_of s k = Some p /\
            Player.lastActivity q = Player.lastActivity p /\
            Player.lastShoot q = Player.lastShoot p.
Proof.
  intros W G. apply (get_In _ String.eqb_spec) in G. apply In_sweep in G.
  simpl in G. destruct G as (p & I & E & _). exists p. split.
  - apply (In_get _ String.eqb_spec); [apply W | exact I].
  - destruct E as [-> | ->]; auto.
Qed.

(** How a step changes the two timestamps of the player stored under [k]:
    the player is new, or it was there before and [lastActivity] changes
    only by an accepted move, [lastShoot] only by an accepted shot. *)
Lemma step_player e s i s' out k q :
  wf s -> step e s i = Some (s', out) -> player_of s' k = Some q ->
  (is_connection k i = true /\
   Player.lastActivity q = None /\ Player.lastShoot q = None) \/
  (exists p, player_of s k = Some p /\
     (Player.lastActivity q = Player.lastActivity p \/
      accepted_move k i = true) /\
     (Player.lastShoot q = Player.lastShoot p \/
      exists now, i = PlayerShoot k now /\
                  may_shoot (Player.lastShoot p) now = true /\
                  Player.lastShoot q = Some now)).
Proof.
  intros W S. unfold player_of at 1.
  destruct (step_store _ _ _ _ _ S)
    as [[-> _] | [(sid & p & p' & G & U & -> & _)
       | [(sid & p & C & _ & F & -> & _) | [(sid & _ & -> & _)
       | (now & _ & -> & _)]]]].
  - intro G. right. exists q. auto.
  - rewrite player_of_set. destruct (String.eqb_spec k sid) as [-> | D].
    + intros [= <-]. right. exists p. split; [exact G |]. apply U.
    + intro G'. right. exists q. auto.
  - rewrite player_of_set. destruct (String.eqb_spec k sid) as [-> | D].
    + intros [= <-]. left. split; [exact C | apply F].
    + intro G'. right. exists q. auto.
  - rewrite player_of_delete. destruct (String.eqb k sid); [discriminate |].
    intro G. right. exists q. auto.
  - intro G. apply player_of_sweep in G; [| exact W].
    destruct G as (p & G & E1 & E2). right. exists p. auto.
Qed.

(** A player leaves the store only by the disconnect of its socket or by
    the sweep, and the sweep takes stamped players only. *)
Lemma step_present e s i s' out k p :
  wf s -> player_of s k = Some p -> step e s i = Some (s', out) ->
  (exists p', player_of s' k = Some p') \/
  is_disconnect k i = true \/
  (exists now, i = Cleanup now /\ stamped (Player.lastActivity p) = true).
Proof.
  intros W P S. unfold player_of.
  destruct (step_store _ _ _ _ _ S)
    as [[-> _] | [(sid & p0 & p' & G & U & -> & _)
       | [(sid & p0 & C & _ & F & -> & _) | [(sid & -> & -> & _)
       | (now & -> & -> & _)]]]].
  - left. eauto.
  - rewrite player_of_set. destruct (String.eqb k sid); eauto.
  - rewrite player_of_set. destruct (String.eqb k sid); eauto.
  - rewrite player_of_delete. simpl. rewrite (String.eqb_sym sid k).
    destruct (String.eqb k sid); eauto.
  - destruct (stamped (Player.lastActivity p)) eqn:St; [eauto |].
    left. apply (get_In _ String.eqb_spec) in P.
    destruct (sweep_keeps now (players s) k p P St) as (p' & I & _).
    exists p'. apply (In_get _ String.eqb_spec); [| exact I].
    apply keys_sweep_nodup, W.
Qed.

(** Only the sweep emits [playerLeft] to all sockets, and only for a
    stamped player of the store. *)
Lemma step_swept e s i s' out k :
  step e s i = Some (s', out) -> In (ToAll, PlayerLeft k) out ->
  exists p, In (k, p) (players s) /\ stamped (Player.lastActivity p) = true.
Proof.
  intros S I. pose proof (step_table _ _ _ _ _ S _ I) as T.
  destruct i; try discriminate T.
  cbn [step] in S. step_inv S.
  apply In_sweep_out in I. destruct I as (k' & p & J & [= ->] & St). eauto.
Qed.

(** Only the game loop and the bullet timers emit [bulletDestroyed]; a
    timer emits it once, for its own bullet. *)
Lemma step_destroys e s i s' out id :
  step e s i = Some (s', out) ->
  count (destroys id) out =
  match i with
  | GameLoop => count (destroys id) out
  | BulletTimeout id' => if Z.eqb id' id then 1%nat else 0%nat
  | _ => 0%nat
  end.
Proof.
  intro S. pose proof (step_table _ _ _ _ _ S) as T.
  destruct i; try reflexivity;
    try (apply count_none; intros [t pl] I; specialize (T _ I);
         destruct t, pl; try discriminate T; reflexivity).
  cbn [step] in S. step_inv S. unfold count, destroys; simpl.
  destruct (bid =? id); reflexivity.
Qed.

(** *** Runs *)

Lemma run_full_health e tr : forall s s' out,
  run e s tr = Some (s', out) ->
  full_health (players s) -> full_health (players s').
Proof.
  induction tr as [| i tr IH]; simpl; intros s s' out R H.
  - injection R as <- _. auto.
  - destruct (step e s i) as [[s1 o1] |] eqn:S; [| discriminate].
    destruct (run e s1 tr) as [[s2 o2] |] eqn:R2; [| discriminate].
    injection R as <- _. eapply IH; eauto. eapply step_full_health; eauto.
Qed.

Lemma run_wf e tr : forall s s' out,
  run e s tr = Some (s', out) -> wf s -> wf s'.
Proof.
  induction tr as [| i tr IH]; simpl; intros s s' out R W.
  - injection R as <- _. exact W.
  - destruct (step e s i) as [[s1 o1] |] eqn:S; [| discriminate].
    destruct (run e s1 tr) as [[s2 o2] |] eqn:R2; [| discriminate].
    injection R as <- _. eapply IH; eauto. eapply step_wf; eauto.
Qed.

Lemma wf_after tr : wf (Scenario.after tr).
Proof.
  unfold Scenario.after.
  destruct (run Engine.table init tr) as [[s out] |] eqn:R.
  - eapply run_wf; [exact R | apply wf_init].
  - apply wf_init.
Qed.

(* ------------------------------------------------------------------ *)
(** ** Health *)

(** C9. On the server every player's health is 100 from creation to
    removal: after any run from the initial state all players in the store
    have health 100 (no handler and no interval writes the field), and the
    game loop, which emits [playerDamaged] with damage 10, leaves the
    players of the store as they are. *)
Theorem health_is_always_100 (e : Engine.t) (tr : list input)
    (s : state) (out : list emit) :
  run e init tr = Some (s, out) ->
  full_health (players s) /\
  players (fst (gameLoop e s)) = players s /\
  (forall id damage, In (ToAll, PlayerDamaged id damage) (snd (gameLoop e s)) ->
                     damage = 10).
Proof.
  intro R. split; [| split].
  - eapply run_full_health; [exact R |]. intros k p [].
  - reflexivity.
  - intros id damage I.
    pose proof (step_table e s GameLoop _ _ eq_refl _ I) as T.
    simpl in T. apply Z.eqb_eq in T. exact T.
Qed.

(** After the crossfire scenario, in which two tanks are hit. *)
Lemma health_is_always_100_witness :
  exists s out,
    run Engine.table init Scenario.crossfire = Some (s, out) /\
    In (ToAll, PlayerDamaged "B" 10) out /\
    full_health (players s) /\
    players (fst (gameLoop Engine.table s)) = players s /\
    (forall id damage,
       In (ToAll, PlayerDamaged id damage) (snd (gameLoop Engine.table s)) ->
       damage = 10).
Proof.
  eexists. eexists. split; [vm_compute; reflexivity |].
  split; [vm_compute; tauto |].
  eapply (health_is_always_100 Engine.table Scenario.crossfire).
  vm_compute. reflexivity.
Defined.

(* ------------------------------------------------------------------ *)
(** ** The inactivity sweep and players that never moved *)

Lemma unstamped_not_stamped s sid p :
  wf s -> unstamped sid s -> In (sid, p) (players s) ->
  stamped (Player.lastActivity p) = false.
Proof.
  intros W U I. rewrite (U p); [reflexivity |].
  apply (In_get _ String.eqb_spec); [apply W | exact I].
Qed.

Lemma run_unmoved e sid rest : forall s s' out,
  wf s -> unstamped sid s -> none_of (accepted_move sid) rest ->
  run e s rest = Some (s', out) ->
  ~ In (ToAll, PlayerLeft sid) out /\ unstamped sid s' /\
  ((exists p, player_of s sid = Some p) ->
   none_of (is_disconnect sid) rest -> exists p, player_of s' sid = Some p).
Proof.
  induction rest as [| i rest IH]; simpl; intros s s' out W U A R.
  - injection R as <- <-. auto.
  - apply none_of_cons in A. destruct A as [A1 A2].
    destruct (step e s i) as [[s1 o1] |] eqn:S; [| discriminate].
    destruct (run e s1 rest) as [[s2 o2] |] eqn:R2; [| discriminate].
    injection R as <- <-.
    assert (W1 : wf s1) by (eapply step_wf; eauto).
    assert (U1 : unstamped sid s1).
    { intros q G. destruct (step_player _ _ _ _ _ _ _ W S G)
        as [(_ & E & _) | (p & Gp & [E | E] & _)]; [exact E | | congruence].
      rewrite E. now apply U. }
    destruct (IH s1 s2 o2 W1 U1 A2 R2) as (N & U2 & P2).
    split; [| split; [exact U2 |]].
    + rewrite in_app_iff. intros [I | I]; [| tauto].
      destruct (step_swept _ _ _ _ _ _ S I) as (p & Ip & St).
      rewrite (unstamped_not_stamped s sid p W U Ip) in St. discriminate.
    + intros (p & Gp) D. apply none_of_cons in D. destruct D as [D1 D2].
      apply P2; [| exact D2].
      destruct (step_present _ _ _ _ _ _ _ W Gp S)
        as [P | [P | (now & _ & St)]]; [exact P | congruence |].
      rewrite (U p Gp) in St. discriminate.
Qed.

(** C10. A player whose connection never has an accepted [playerMove] is
    never taken by the inactivity sweep, however late the sweep runs: the
    record is created without [lastActivity], nothing but an accepted move
    sets it, and the sweep evicts stamped players only.  After the
    connection of [sid] and any further events without an accepted move of
    [sid], the sweep has emitted no [playerLeft] for [sid], the player
    still has no [lastActivity], and it is still in the store unless its
    socket disconnected. *)
Theorem unmoved_player_is_never_swept
    (e : Engine.t) (pre : list input) (s0 : state) (out0 : list emit)
    (sid transport : string) (rx ry : num) (color name : string)
    (t_audio t_conn : Z) (s1 : state) (out1 : list emit)
    (rest : list input) (s2 : state) (out2 : list emit) :
  run e init pre = Some (s0, out0) ->
  step e s0 (Connection sid transport rx ry color name t_audio t_conn)
    = Some (s1, out1) ->
  none_of (accepted_move sid) rest ->
  run e s1 rest = Some (s2, out2) ->
  ~ In (ToAll, PlayerLeft sid) out2 /\
  unstamped sid s2 /\
  (none_of (is_disconnect sid) rest -> exists p, player_of s2 sid = Some p).
Proof.
  intros R0 S A R.
  assert (W0 : wf s0) by (eapply run_wf; [exact R0 | apply wf_init]).
  assert (W1 : wf s1) by (eapply step_wf; eauto).
  assert (G : player_of s1 sid =
              Some (newPlayer sid transport rx ry color name t_audio t_conn)).
  { cbn [step] in S. step_inv S. unfold player_of; simpl.
    apply (get_set_same _ String.eqb_spec). }
  assert (U1 : unstamped sid s1).
  { intros q Gq. rewrite G in Gq. injection Gq as <-. reflexivity. }
  destruct (run_unmoved e sid rest s1 s2 out2 W1 U1 A R) as (N & U2 & P).
  split; [exact N | split; [exact U2 |]]. intro D. apply P; eauto.
Qed.

(** Tank A after its connection and the [idle] events. *)
Lemma unmoved_player_is_never_swept_witness :
  exists s1 out1 s2 out2,
    step Engine.table init (Scenario.join "A") = Some (s1, out1) /\
    run Engine.table s1 Scenario.idle = Some (s2, out2) /\
    none_of (accepted_move "A") Scenario.idle /\
    ~ In (ToAll, PlayerLeft "A") out2 /\
    unstamped "A" s2 /\
    (none_of (is_disconnect "A") Scenario.idle ->
     exists p, player_of s2 "A" = Some p).
Proof.
  do 4 eexists.
  split; [vm_compute; reflexivity |].
  split; [vm_compute; reflexivity |].
  split; [vm_compute; reflexivity |].
  apply (unmoved_player_is_never_swept Engine.table [] init []
           "A" "websocket" (of_Z 0) (of_Z 0) "hsl(0, 70%, 50%)" "Tank0"
           1000 1000 _ _ Scenario.idle _ _
           eq_refl eq_refl eq_refl eq_refl).
Defined.

(* ------------------------------------------------------------------ *)
(** ** Disconnection *)

Lemma with_players_same s : with_players s (players s) = s.
Proof. destruct s; reflexivity. Qed.

Lemma absent_stays e sid tr : forall s s' out,
  wf s -> player_of s sid = None -> none_of (is_connection sid) tr ->
  run e s tr = Some (s', out) ->
  ~ In (ToAll, PlayerLeft sid) out /\ player_of s' sid = None.
Proof.
  induction tr as [| i tr IH]; simpl; intros s s' out W A C R.
  - injection R as <- <-. auto.
  - apply none_of_cons in C. destruct C as [C1 C2].
    destruct (step e s i) as [[s1 o1] |] eqn:S; [| discriminate].
    destruct (run e s1 tr) as [[s2 o2] |] eqn:R2; [| discriminate].
    injection R as <- <-.
    assert (W1 : wf s1) by (eapply step_wf; eauto).
    assert (A1 : player_of s1 sid = None).
    { destruct (player_of s1 sid) as [q |] eqn:G; [| reflexivity].
      destruct (step_player _ _ _ _ _ _ _ W S G) as [(E & _) | (p & Gp & _)];
        congruence. }
    destruct (IH s1 s2 o2 W1 A1 C2 R2) as (N & A2).
    split; [| exact A2].
    rewrite in_app_iff. intros [I | I]; [| tauto].
    destruct (step_swept _ _ _ _ _ _ S I) as (p & Ip & _).
    apply (In_get _ String.eqb_spec) in Ip; [| apply W].
    unfold player_of in A. congruence.
Qed.

Lemma recipients_broadcast socks sid c :
  In c (recipients socks (Broadcast sid)) <-> In c socks /\ c <> sid.
Proof.
  simpl. rewrite filter_In, negb_true_iff, String.eqb_neq. tauto.
Qed.

(** C8, as amended.  The first disconnect of a socket removes its player
    and emits exactly one [playerLeft] with its id to all other sockets.
    Running the handler again for the same id leaves the store as it is
    but emits [playerLeft] once more (the handler emits unconditionally).
    As long as no new connection uses the id, no later sweep emits
    [playerLeft] for it. *)
Theorem disconnect_removes_once_but_always_notifies
    (e : Engine.t) (s : state) (sid : string) (s1 : state) (out1 : list emit)
    (tr : list input) (s2 : state) (out2 : list emit) :
  wf s ->
  step e s (Disconnect sid) = Some (s1, out1) ->
  none_of (is_connection sid) tr ->
  run e s1 tr = Some (s2, out2) ->
  player_of s1 sid = None /\
  out1 = [ (Broadcast sid, PlayerLeft sid) ] /\
  (forall c, In c (recipients (sockets s) (Broadcast sid)) <->
             In c (sockets s) /\ c <> sid) /\
  fst (on_disconnect sid s1) = s1 /\
  snd (on_disconnect sid s1) = [ (Broadcast sid, PlayerLeft sid) ] /\
  ~ In (ToAll, PlayerLeft sid) out2.
Proof.
  intros W S C R.
  assert (W1 : wf s1) by (eapply step_wf; eauto).
  cbn [step] in S. step_inv S.
  assert (A : player_of (fst (on_disconnect sid (with_sockets s
                (filter (fun c => negb (String.eqb c sid)) (sockets s))))) sid
              = None).
  { unfold player_of; simpl. apply get_delete_same. }
  split; [exact A |]. split; [reflexivity |].
  split; [intro c; apply recipients_broadcast |].
  split; [| split; [reflexivity |]].
  - unfold on_disconnect at 1. cbn [fst]. unfold player_of in A.
    rewrite (delete_absent _ _ _ A). apply with_players_same.
  - eapply absent_stays; eauto.
Qed.

(** Tank A disconnects while tank B is connected; two sweeps follow. *)
Lemma disconnect_removes_once_but_always_notifies_witness :
  exists s1 out1 s2 out2,
    step Engine.table (Scenario.after Scenario.two_tanks) (Disconnect "A")
      = Some (s1, out1) /\
    run Engine.table s1 Scenario.sweeps = Some (s2, out2) /\
    player_of s1 "A" = None /\
    out1 = [ (Broadcast "A", PlayerLeft "A") ] /\
    (forall c,
       In c (recipients (sockets (Scenario.after Scenario.two_tanks))
               (Broadcast "A")) <->
       In c (sockets (Scenario.after Scenario.two_tanks)) /\ c <> "A") /\
    fst (on_disconnect "A" s1) = s1 /\
    snd (on_disconnect "A" s1) = [ (Broadcast "A", PlayerLeft "A") ] /\
    ~ In (ToAll, PlayerLeft "A") out2.
Proof.
  do 4 eexists.
  split; [vm_compute; reflexivity |].
  split; [vm_compute; reflexivity |].
  apply (disconnect_removes_once_but_always_notifies Engine.table
           (Scenario.after Scenario.two_tanks) "A" _ _ Scenario.sweeps _ _
           (wf_after Scenario.two_tanks) eq_refl eq_refl eq_refl).
Defined.

(** C8 as stated fails: with tanks A and B connected, handling the
    disconnect of A a second time emits [playerLeft] again. *)
Lemma repeated_disconnect_notifies_again :
  ~ Stated.disconnect_idempotent (Scenario.after Scenario.two_tanks) "A".
Proof.
  unfold Stated.disconnect_idempotent. intro H. vm_compute in H.
  discriminate H.
Qed.

(** The unconditional emit shows in a run: a player the sweep has evicted
    for inactivity is announced as gone a second time when its socket
    disconnects, and tank B receives both. *)
Example swept_player_leaves_twice :
  option_map (fun r => (filter (leaves "A") (snd r),
                        delivered (sockets (fst r))
                          (filter (leaves "A") (snd r))))
             (run Engine.table init Scenario.swept_then_gone)
  = Some ([ (ToAll, PlayerLeft "A"); (Broadcast "A", PlayerLeft "A") ],
          [ "B"; "B" ]).
Proof. vm_compute. reflexivity. Qed.

(* ------------------------------------------------------------------ *)
(** ** Movement *)

(** The clamp of a number that is not NaN lies between 20 and the bound
    (800 or 600), both included. *)
Lemma clamp_range (hi : Z) (v : num) :
  hi = 800 \/ hi = 600 -> is_nan v = false ->
  le (of_Z 20) (clamp hi v) = true /\ le (clamp hi v) (of_Z hi) = true /\
  is_nan (clamp hi v) = false.
Proof.
  intros H N. unfold clamp.
  assert (E : exists s m e, of_Z hi = S754_finite s m e /\
              lt (of_Z 20) (of_Z hi) = true /\ le (of_Z hi) (of_Z hi) = true)
    by (destruct H as [-> | ->]; do 3 eexists; vm_compute; auto).
  destruct E as (s & m & e & E & L & R). rewrite E in *.
  rewrite Math_min_finite, N.
  change (of_Z 20) with (S754_finite false 5629499534213120 (-48)) in *.
  rewrite Math_max_finite.
  destruct (SFltb v (S754_finite s m e)) eqn:C1.
  - rewrite N. destruct (SFltb _ v) eqn:C2.
    + split; [| split]; [now apply ltb_leb | now apply ltb_leb | exact N].
    + split; [| split]; [reflexivity | now apply ltb_leb | reflexivity].
  - simpl is_nan. unfold lt in L. rewrite L.
    split; [| split]; [now apply ltb_leb | exact R | reflexivity].
Qed.

(** A coordinate at or beyond the upper bound is put on the bound. *)
Lemma clamp_top (hi : Z) (v : num) :
  hi = 800 \/ hi = 600 -> le (of_Z hi) v = true -> clamp hi v = of_Z hi.
Proof.
  intros H L. unfold clamp.
  assert (N : is_nan v = false)
    by (destruct v; try reflexivity; destruct H as [-> | ->]; discriminate L).
  assert (E : exists s m e, of_Z hi = S754_finite s m e /\
              Math_max (of_Z 20) (of_Z hi) = of_Z hi)
    by (destruct H as [-> | ->]; do 3 eexists; vm_compute; auto).
  destruct E as (s & m & e & E & M). rewrite E in *.
  rewrite Math_min_finite, N. unfold le in L.
  rewrite (leb_not_ltb _ _ L). exact M.
Qed.

(** C3.  What an accepted move whose coordinates are not NaN does: the
    player is stored, and broadcast to the other sockets, at the clamped
    position, which lies in [20, 800] x [20, 600].  The 20-unit margin is
    kept at the low edges only: a coordinate at or beyond the upper edge
    is put on the edge itself, [x = 800] or [y = 600], outside
    [20, 780] x [20, 580]. *)
Theorem accepted_move_keeps_the_low_margin_only
    (s : state) (sid : string) (player : Player.t) (data : jsval) (now : Z) :
  player_of s sid = Some player -> move_guard data = true ->
  is_nan (number_of (get data "x")) = false ->
  is_nan (number_of (get data "y")) = false ->
  let r := on_playerMove sid data now s in
  let x' := clamp 800 (number_of (get data "x")) in
  let y' := clamp 600 (number_of (get data "y")) in
  player_of (fst r) sid =
    Some (Player.moved player x' y' (angle_or_0 data) now) /\
  snd r = [ (Broadcast sid, PlayerMoved sid x' y' (angle_or_0 data)) ] /\
  le (of_Z 20) x' = true /\ le x' (of_Z 800) = true /\
  le (of_Z 20) y' = true /\ le y' (of_Z 600) = true /\
  (le (of_Z 800) (number_of (get data "x")) = true ->
   x' = of_Z 800 /\ gt x' (of_Z 780) = true) /\
  (le (of_Z 600) (number_of (get data "y")) = true ->
   y' = of_Z 600 /\ gt y' (of_Z 580) = true).
Proof.
  intros G M Nx Ny r x' y'.
  destruct (clamp_range 800 _ (or_introl eq_refl) Nx) as (X1 & X2 & _).
  destruct (clamp_range 600 _ (or_intror eq_refl) Ny) as (Y1 & Y2 & _).
  unfold r, on_playerMove. rewrite G, M. cbv zeta. fold x' y'.
  split; [unfold player_of; simpl; apply (get_set_same _ String.eqb_spec) |].
  split; [reflexivity |].
  repeat (split; [assumption |]).
  split; intro L.
  - unfold x'. rewrite (clamp_top 800 _ (or_introl eq_refl) L).
    split; reflexivity.
  - unfold y'. rewrite (clamp_top 600 _ (or_intror eq_refl) L).
    split; reflexivity.
Qed.

(** Tank A moves to the far corner (800, 600) and is kept there. *)
Lemma accepted_move_keeps_the_low_margin_only_witness :
  let s := Scenario.after Scenario.two_tanks in
  let data := Scenario.move_to (of_Z 800) (of_Z 600) in
  let player :=
    Player.mk "A" (of_Z 20) (of_Z 20) (JNum (of_Z 0)) "hsl(0, 70%, 50%)"
              "Tank0" 100 false 1000 1000 "websocket" None None in
  let r := on_playerMove "A" data 2000 s in
  let x' := clamp 800 (number_of (get data "x")) in
  let y' := clamp 600 (number_of (get data "y")) in
  player_of (fst r) "A" =
    Some (Player.moved player x' y' (angle_or_0 data) 2000) /\
  snd r = [ (Broadcast "A", PlayerMoved "A" x' y' (angle_or_0 data)) ] /\
  le (of_Z 20) x' = true /\ le x' (of_Z 800) = true /\
  le (of_Z 20) y' = true /\ le y' (of_Z 600) = true /\
  (le (of_Z 800) (number_of (get data "x")) = true ->
   x' = of_Z 800 /\ gt x' (of_Z 780) = true) /\
  (le (of_Z 600) (number_of (get data "y")) = true ->
   y' = of_Z 600 /\ gt y' (of_Z 580) = true).
Proof.
  intros s data player r x' y'.
  refine (accepted_move_keeps_the_low_margin_only s "A" player data 2000
            _ _ _ _).
  - vm_compute; reflexivity.
  - vm_compute; reflexivity.
  - vm_compute; reflexivity.
  - vm_compute; reflexivity.
Defined.

(** The move to the far corner, evaluated: the player is stored and
    broadcast at (800, 600), and 800 > 780, 600 > 580. *)
Example move_to_far_corner_is_kept :
  let s := Scenario.after Scenario.two_tanks in
  let r := on_playerMove "A" (Scenario.move_to (of_Z 800) (of_Z 600)) 2000 s in
  option_map (fun p => (Player.x p, Player.y p)) (player_of (fst r) "A")
    = Some (of_Z 800, of_Z 600) /\
  snd r = [ (Broadcast "A",
             PlayerMoved "A" (of_Z 800) (of_Z 600) (JNum (of_Z 0))) ] /\
  gt (of_Z 800) (of_Z 780) = true /\ gt (of_Z 600) (of_Z 580) = true.
Proof. vm_compute. auto. Qed.

(** C4, as amended.  A [playerMove] is ignored (store unchanged, nothing
    emitted) exactly when the socket has no player, the payload is falsy,
    or [x] or [y] is not of type number (wrong type or missing field).
    The guard is a type test: a non-finite number passes it. *)
Theorem ill_typed_move_is_ignored (s : state) (sid : string) (data : jsval)
    (now : Z) :
  on_playerMove sid data now s = (s, []) <->
  player_of s sid = None \/ truthy data = false \/
  is_number (get data "x") = false \/ is_number (get data "y") = false.
Proof.
  unfold on_playerMove, move_guard.
  destruct (player_of s sid) as [p |]; [| intuition congruence].
  destruct (truthy data), (is_number (get data "x")),
           (is_number (get data "y")); simpl;
    intuition (try discriminate; try congruence).
Qed.

(** C4 as stated fails: with [x = NaN], and with [x = +Infinity], the move
    of a connected player is not ignored. *)
Lemma non_finite_move_is_accepted :
  ~ Stated.malformed_move_ignored (Scenario.after Scenario.two_tanks) "A"
      (Scenario.move_to nan (of_Z 50)) 2000 /\
  ~ Stated.malformed_move_ignored (Scenario.after Scenario.two_tanks) "A"
      (Scenario.move_to pos_inf (of_Z 50)) 2000.
Proof.
  split; intro H; specialize (H eq_refl); vm_compute in H; discriminate H.
Qed.

(** What the accepted move with [x = +Infinity] does: the player is put
    on the edge [x = 800] and stamped, and the move is broadcast. *)
Example infinite_move_is_clamped :
  on_playerMove "A" (Scenario.move_to pos_inf (of_Z 50)) 2000
    (Scenario.after [ Scenario.join "A" ]) =
  (with_players (Scenario.after [ Scenario.join "A" ])
     [ ("A", Player.mk "A" (of_Z 800) (of_Z 50) (JNum (of_Z 0))
               "hsl(0, 70%, 50%)" "Tank0" 100 false 1000 1000 "websocket"
               (Some 2000) None) ],
   [ (Broadcast "A", PlayerMoved "A" (of_Z 800) (of_Z 50) (JNum (of_Z 0))) ]).
Proof. vm_compute. reflexivity. Qed.

(** With [x = NaN] the stored position is NaN. *)
Example nan_move_is_stored :
  option_map Player.x
    (player_of (fst (on_playerMove "A" (Scenario.move_to nan (of_Z 50)) 2000
                       (Scenario.after [ Scenario.join "A" ]))) "A")
  = Some nan.
Proof. vm_compute. reflexivity. Qed.

(* ------------------------------------------------------------------ *)
(** ** Shooting *)

(** A shot after a stamped [lastShoot] needs more than 200 ms. *)
Lemma may_shoot_later t now :
  0 < t -> may_shoot (Some t) now = true -> t + 200 < now.
Proof.
  unfold may_shoot, stamped. intros P H.
  destruct (t =? 0) eqn:E; [apply Z.eqb_eq in E; lia |].
  simpl in H. apply Z.ltb_lt in H. lia.
Qed.

(** Once [sid] has shot at [t1], its [lastShoot] never goes back below
    [t1] while the connection lasts. *)
Lemma step_shot_since e s i s' out sid t1 :
  wf s -> 0 < t1 -> shot_since sid t1 s -> is_connection sid i = false ->
  step e s i = Some (s', out) -> shot_since sid t1 s'.
Proof.
  intros W P Q C S q G.
  destruct (step_player _ _ _ _ _ _ _ W S G)
    as [(E & _) | (p & Gp & _ & [E | (now & -> & M & E)])].
  - congruence.
  - rewrite E. now apply Q.
  - destruct (Q p Gp) as (t & Et & Lt). rewrite Et in M.
    apply may_shoot_later in M; [| lia]. exists now. split; [exact E | lia].
Qed.

Lemma run_shot_since e sid t1 tr : forall s s' out,
  wf s -> 0 < t1 -> shot_since sid t1 s -> none_of (is_connection sid) tr ->
  run e s tr = Some (s', out) -> shot_since sid t1 s' /\ wf s'.
Proof.
  induction tr as [| i tr IH]; simpl; intros s s' out W P Q C R.
  - injection R as <- <-. auto.
  - apply none_of_cons in C. destruct C as [C1 C2].
    destruct (step e s i) as [[s1 o1] |] eqn:S; [| discriminate].
    destruct (run e s1 tr) as [[s2 o2] |] eqn:R2; [| discriminate].
    injection R as <- <-.
    apply (IH s1 s2 o2); auto.
    + eapply step_wf; eauto.
    + eapply step_shot_since; eauto.
Qed.

(** What a shoot request does: nothing, or one bullet at the shooter's
    position and angle with speed 300, announced to all. *)
Lemma on_playerShoot_cases sid now s :
  (on_playerShoot sid now s = (s, []) /\
   forall p, player_of s sid = Some p ->
             may_shoot (Player.lastShoot p) now = false) \/
  (exists p, player_of s sid = Some p /\
     may_shoot (Player.lastShoot p) now = true /\
     snd (on_playerShoot sid now s) =
       [ (ToAll, BulletCreated
                   (Bullet.mk (bulletIdCounter s) sid (Player.x p) (Player.y p)
                              (Player.angle p) (of_Z 300) now)) ] /\
     player_of (fst (on_playerShoot sid now s)) sid = Some (Player.shot p now) /\
     JsMap.get Z.eqb (bulletIdCounter s) (bullets (fst (on_playerShoot sid now s)))
       = Some (Bullet.mk (bulletIdCounter s) sid (Player.x p) (Player.y p)
                         (Player.angle p) (of_Z 300) now) /\
     bulletIdCounter (fst (on_playerShoot sid now s)) = next_id (bulletIdCounter s)).
Proof.
  unfold on_playerShoot.
  destruct (player_of s sid) as [p |] eqn:G; [| left; split; [auto | discriminate]].
  destruct (may_shoot (Player.lastShoot p) now) eqn:M.
  - right. exists p. simpl. repeat split; auto.
    + unfold player_of; simpl. apply (get_set_same _ String.eqb_spec).
    + apply (get_set_same _ Z.eqb_spec).
  - left. split; [reflexivity |]. intros p' [= <-]. exact M.
Qed.

Lemma bullets_created_shoot sid now s :
  (bullets_created sid (snd (on_playerShoot sid now s)) <= 1)%nat.
Proof.
  destruct (on_playerShoot_cases sid now s) as [[E _] | (p & _ & _ & E & _)];
    rewrite E; unfold bullets_created, created_by; simpl.
  - lia.
  - destruct (String.eqb sid sid); simpl; lia.
Qed.

(** C5.  Of two shoot requests of one connection whose timestamps are
    fewer than 200 ms apart, whatever else happens in between, at most one
    creates a bullet (one [bulletCreated] broadcast).  An accepted shot
    creates one bullet at the shooter's position and angle with speed 300,
    announces it to all sockets and sets the connection's [lastShoot] to
    its timestamp.  ([Date.now()] is positive: a [lastShoot] of 0 would
    count as unset.)  The bullet is put into the store under the value
    of the counter, the other bullets and the other players stay as they
    are, the counter goes up by one and the expiry timer of the bullet
    is pending; a rejected request changes nothing. *)
Theorem shots_are_rate_limited
    (e : Engine.t) (s : state) (sid : string) (t1 t2 : Z) (mid : list input)
    (s1 : state) (out1 : list emit) (s2 : state) (out2 : list emit)
    (s3 : state) (out3 : list emit) :
  wf s -> 0 < t1 -> Z.abs (t2 - t1) < 200 ->
  step e s (PlayerShoot sid t1) = Some (s1, out1) ->
  none_of (is_connection sid) mid ->
  run e s1 mid = Some (s2, out2) ->
  step e s2 (PlayerShoot sid t2) = Some (s3, out3) ->
  (bullets_created sid out1 + bullets_created sid out3 <= 1)%nat /\
  (forall p, player_of s sid = Some p ->
             may_shoot (Player.lastShoot p) t1 = true ->
     out1 = [ (ToAll, BulletCreated
                        (Bullet.mk (bulletIdCounter s) sid (Player.x p)
                           (Player.y p) (Player.angle p) (of_Z 300) t1)) ] /\
     player_of s1 sid = Some (Player.shot p t1) /\
     Player.lastShoot (Player.shot p t1) = Some t1 /\
     out3 = [] /\
     player_of s1 sid =
       Some (Player.mk (Player.id p) (Player.x p) (Player.y p)
               (Player.angle p) (Player.color p) (Player.name p)
               (Player.health p) (Player.audioEnabled p)
               (Player.lastAudioPacket p) (Player.connectedAt p)
               (Player.transport p) (Player.lastActivity p) (Some t1)) /\
     JsMap.get Z.eqb (bulletIdCounter s) (bullets s1) =
       Some (Bullet.mk (bulletIdCounter s) sid (Player.x p) (Player.y p)
               (Player.angle p) (of_Z 300) t1) /\
     (forall k, k <> bulletIdCounter s ->
        JsMap.get Z.eqb k (bullets s1) = JsMap.get Z.eqb k (bullets s)) /\
     (bulletIdCounter s < 2 ^ 53 ->
      bulletIdCounter s1 = bulletIdCounter s + 1) /\
     timers s1 = timers s ++ [ bulletIdCounter s ] /\
     (forall k, k <> sid -> player_of s1 k = player_of s k) /\
     sockets s1 = sockets s /\
     s3 = s2).
Proof.
  intros W P D S1 C R S3.
  assert (W1 : wf s1) by (eapply step_wf; eauto).
  cbn [step] in S1, S3. step_inv S1. step_inv S3.
  pose proof (bullets_created_shoot sid t2 s2) as B3.
  destruct (on_playerShoot_cases sid t1 s) as [[E N] | (p & G & M & E & G1 & _)].
  - rewrite E. split; [simpl; exact B3 |].
    intros p G M. rewrite (N p G) in M. discriminate.
  - assert (Q1 : shot_since sid t1 (fst (on_playerShoot sid t1 s))).
    { intros q Gq. rewrite G1 in Gq. injection Gq as <-. exists t1.
      split; [reflexivity | lia]. }
    destruct (run_shot_since e sid t1 mid _ _ _ W1 P Q1 C R) as [Q2 W2].
    assert (E3 : on_playerShoot sid t2 s2 = (s2, [])).
    { destruct (on_playerShoot_cases sid t2 s2) as [[E3 _] | (q & Gq & Mq & _)].
      - exact E3.
      - destruct (Q2 q Gq) as (t & Et & Lt). rewrite Et in Mq.
        apply may_shoot_later in Mq; lia. }
    rewrite E3. cbn [fst snd]. split.
    + rewrite E. unfold bullets_created, created_by; simpl.
      destruct (String.eqb sid sid); simpl; lia.
    + intros p' G' _. rewrite G in G'. injection G' as <-.
      split; [exact E |]. split; [exact G1 |].
      split; [reflexivity |]. split; [reflexivity |].
      clear E G1 Q1 Q2 W2 E3 R W1 B3.
      unfold on_playerShoot. rewrite G, M.
      cbn [fst player_of players bullets bulletIdCounter timers sockets
           new_bullet Bullet.id].
      split; [apply (get_set_same _ String.eqb_spec) |].
      split; [apply (get_set_same _ Z.eqb_spec) |].
      split; [intros k N; now apply (get_set_other _ Z.eqb_spec) |].
      split.
      { intro L. unfold next_id. apply Z.ltb_lt in L. now rewrite L. }
      split; [reflexivity |].
      split; [intros k N; now apply (get_set_other _ String.eqb_spec) |].
      split; reflexivity.
Qed.

(** Tank A shoots at 3000 and at 3150, with events in between. *)
Lemma shots_are_rate_limited_witness :
  exists s1 out1 s2 out2 s3 out3,
    step Engine.table (Scenario.after Scenario.two_tanks)
         (PlayerShoot "A" 3000) = Some (s1, out1) /\
    run Engine.table s1 Scenario.between_shots = Some (s2, out2) /\
    step Engine.table s2 (PlayerShoot "A" 3150) = Some (s3, out3) /\
    (bullets_created "A" out1 + bullets_created "A" out3 <= 1)%nat /\
    (forall p, player_of (Scenario.after Scenario.two_tanks) "A" = Some p ->
               may_shoot (Player.lastShoot p) 3000 = true ->
       out1 = [ (ToAll, BulletCreated
                   (Bullet.mk
                      (bulletIdCounter (Scenario.after Scenario.two_tanks))
                      "A" (Player.x p) (Player.y p) (Player.angle p)
                      (of_Z 300) 3000)) ] /\
       player_of s1 "A" = Some (Player.shot p 3000) /\
       Player.lastShoot (Player.shot p 3000) = Some 3000 /\
       out3 = [] /\
       player_of s1 "A" =
         Some (Player.mk (Player.id p) (Player.x p) (Player.y p)
                 (Player.angle p) (Player.color p) (Player.name p)
                 (Player.health p) (Player.audioEnabled p)
                 (Player.lastAudioPacket p) (Player.connectedAt p)
                 (Player.transport p) (Player.lastActivity p) (Some 3000)) /\
       JsMap.get Z.eqb (bulletIdCounter (Scenario.after Scenario.two_tanks))
         (bullets s1) =
         Some (Bullet.mk
                 (bulletIdCounter (Scenario.after Scenario.two_tanks))
                 "A" (Player.x p) (Player.y p) (Player.angle p)
                 (of_Z 300) 3000) /\
       (forall k, k <> bulletIdCounter (Scenario.after Scenario.two_tanks) ->
          JsMap.get Z.eqb k (bullets s1) =
          JsMap.get Z.eqb k (bullets (Scenario.after Scenario.two_tanks))) /\
       (bulletIdCounter (Scenario.after Scenario.two_tanks) < 2 ^ 53 ->
        bulletIdCounter s1 =
          bulletIdCounter (Scenario.after Scenario.two_tanks) + 1) /\
       timers s1 =
         timers (Scenario.after Scenario.two_tanks) ++
         [ bulletIdCounter (Scenario.after Scenario.two_tanks) ] /\
       (forall k, k <> "A" ->
          player_of s1 k =
          player_of (Scenario.after Scenario.two_tanks) k) /\
       sockets s1 = sockets (Scenario.after Scenario.two_tanks) /\
       s3 = s2).
Proof.
  do 6 eexists.
  split; [vm_compute; reflexivity |].
  split; [vm_compute; reflexivity |].
  split; [vm_compute; reflexivity |].
  refine (shots_are_rate_limited Engine.table
            (Scenario.after Scenario.two_tanks) "A" 3000 3150
            Scenario.between_shots _ _ _ _ _ _
            (wf_after Scenario.two_tanks) _ _ _ _ _ _).
  - vm_compute; reflexivity.
  - vm_compute; reflexivity.
  - vm_compute; reflexivity.
  - vm_compute; reflexivity.
  - vm_compute; reflexivity.
  - vm_compute; reflexivity.
Defined.

(* ------------------------------------------------------------------ *)
(** ** The audio relay *)

Lemma filter_set_excluded {V : Type} (P : string * V -> bool) k v ps :
  (forall w, P (k, w) = false) ->
  filter P (JsMap.set String.eqb k v ps) = filter P ps.
Proof.
  intro H. induction ps as [| [k' v'] ps IH]; simpl.
  - now rewrite H.
  - destruct (String.eqb_spec k k') as [<- | D]; simpl.
    + now rewrite !H.
    + now rewrite IH.
Qed.

Lemma filter_one (n : string) (l : list string) :
  NoDup l -> In n l -> filter (fun c => String.eqb c n) l = [n].
Proof.
  induction l as [| a l IH]; simpl; [tauto |].
  intros N I. inversion N as [| ? ? N1 N2]; subst.
  destruct (String.eqb_spec a n) as [-> | D].
  - f_equal. apply filter_none. intros x Ix.
    apply String.eqb_neq. intros ->. tauto.
  - destruct I as [I | I]; [congruence | auto].
Qed.

Lemma recipients_room socks sid n :
  NoDup socks -> In n socks -> n <> sid ->
  recipients socks (ToRoom sid n) = [n].
Proof.
  intros N I D. simpl. rewrite <- (filter_one n socks N I).
  apply filter_ext_in. intros c _.
  destruct (String.eqb_spec c n) as [-> | D']; simpl; [| reflexivity].
  apply negb_true_iff, String.eqb_neq. exact D.
Qed.

(** The players [getNearbyPlayers] returns: every other player of the
    store within the radius. *)
Lemma In_getNearbyPlayers ps player radius k :
  In k (getNearbyPlayers ps player radius) <->
  exists p, In (k, p) ps /\ k <> Player.id player /\
            le (distance player p) radius = true.
Proof.
  unfold getNearbyPlayers, JsMap.keys. rewrite in_map_iff. split.
  - intros ([k' p] & <- & I). apply filter_In in I. destruct I as [I F].
    unfold is_nearby in F; simpl in F. apply andb_true_iff in F.
    destruct F as [F1 F2]. apply negb_true_iff, String.eqb_neq in F1.
    exists p. auto.
  - intros (p & I & D & L). exists (k, p). split; [reflexivity |].
    apply filter_In. split; [exact I |]. unfold is_nearby; simpl.
    apply andb_true_iff. split; [| exact L].
    apply negb_true_iff, String.eqb_neq. exact D.
Qed.

Lemma tagged_playerId audioData sid name :
  lookup "playerId" (tagged audioData sid name) = JStr sid.
Proof.
  unfold tagged. generalize (spread audioData). intro fs.
  assert (H : forall l, lookup "playerId" l = JStr sid ->
                        lookup "playerId" (set_field "playerName" (JStr name) l)
                        = JStr sid).
  { induction l as [| [k v] l IH]; cbn [lookup set_field]; [discriminate |].
    destruct (String.eqb_spec "playerName" k) as [<- | D]; cbn [lookup].
    - change (String.eqb "playerId" "playerName") with false. auto.
    - destruct (String.eqb "playerId" k); auto. }
  apply H. induction fs as [| [k v] fs IH]; cbn [lookup set_field].
  - reflexivity.
  - destruct (String.eqb "playerId" k) eqn:E; cbn [lookup].
    + now rewrite String.eqb_refl.
    + now rewrite E.
Qed.

(** The emits of the relay: one per nearby player, or one broadcast. *)
Lemma relay_rooms sid audioData ps player :
  Player.id player = sid ->
  let near := getNearbyPlayers ps player (of_Z 300) in
  let frame := AudioStream (tagged audioData sid (Player.name player)) in
  relay sid audioData ps player =
    match near with
    | [] => [ (Broadcast sid, frame) ]
    | _ :: _ => map (fun n => (ToRoom sid n, frame)) near
    end.
Proof.
  intros Id near frame. unfold relay. fold near. fold frame.
  assert (D : forall k, In k near -> k <> sid).
  { intros k I. apply In_getNearbyPlayers in I.
    destruct I as (p & _ & D & _). congruence. }
  destruct near as [| n l] eqn:E; [reflexivity |].
  rewrite <- E in *. clear E n l. revert D. generalize near. intros l D.
  induction l as [| a l IH]; simpl; [reflexivity |].
  destruct (String.eqb_spec a sid) as [-> | Da]; simpl.
  - exfalso. apply (D sid); [now left | reflexivity].
  - f_equal. apply IH. intros k I. apply D. now right.
Qed.

(** The nearby players do not depend on the audio fields just written to
    the sender. *)
Lemma nearby_after_write ps sid player t_packet :
  Player.id player = sid ->
  getNearbyPlayers
    (JsMap.set String.eqb sid
       (Player.with_lastAudioPacket (Player.with_audioEnabled player true)
          t_packet) ps)
    (Player.with_lastAudioPacket (Player.with_audioEnabled player true)
       t_packet) (of_Z 300)
  = getNearbyPlayers ps player (of_Z 300).
Proof.
  intro Id. unfold getNearbyPlayers. f_equal. rewrite filter_set_excluded.
  - apply filter_ext. intros [k p]. reflexivity.
  - intro w. unfold is_nearby. simpl. rewrite Id, String.eqb_refl.
    reflexivity.
Qed.

(** An accepted audio frame: the store and the emits. *)
Lemma on_audioStream_accepted e sid audioData t_packet t_latency s player :
  wf s -> player_of s sid = Some player -> audio_guard audioData = true ->
  timestamp_ok e audioData ->
  let player' := Player.with_lastAudioPacket
                   (Player.with_audioEnabled player true) t_packet in
  let near := getNearbyPlayers (players s) player (of_Z 300) in
  let frame := AudioStream (tagged audioData sid (Player.name player)) in
  let r := on_audioStream e sid audioData t_packet t_latency s in
  players (fst r) = JsMap.set String.eqb sid player' (players s) /\
  snd r = match near with
          | [] => [ (Broadcast sid, frame) ]
          | _ :: _ => map (fun n => (ToRoom sid n, frame)) near
          end.
Proof.
  intros W G A T player' near frame r.
  assert (Id : Player.id player = sid).
  { apply (wf_ids s W). apply (get_In _ String.eqb_spec). exact G. }
  assert (R : relay sid audioData
                (JsMap.set String.eqb sid player' (players s)) player' =
              match near with
              | [] => [ (Broadcast sid, frame) ]
              | _ :: _ => map (fun n => (ToRoom sid n, frame)) near
              end).
  { rewrite (relay_rooms sid audioData _ player' Id). unfold player'.
    rewrite (nearby_after_write (players s) sid player t_packet Id).
    reflexivity. }
  unfold r, on_audioStream.
  change (player_of (with_audioStats s (count_packet (audioStats s))) sid)
    with (player_of s sid).
  rewrite G, A. cbv zeta. fold player'.
  unfold note_latency. unfold timestamp_ok in T.
  destruct (truthy (get audioData "timestamp")).
  - destruct (Engine.ToNumber e (get audioData "timestamp")) as [ts |];
      [| exfalso; now apply T].
    split; [reflexivity | exact R].
  - split; [reflexivity | exact R].
Qed.

Lemma delivered_rooms socks sid pl near :
  NoDup socks -> (forall n, In n near -> In n socks /\ n <> sid) ->
  delivered socks (map (fun n => (ToRoom sid n, pl)) near) = near.
Proof.
  intros N H. unfold delivered.
  induction near as [| a near IH]; [reflexivity |].
  cbn [map flat_map fst]. destruct (H a (or_introl eq_refl)) as [I D].
  rewrite (recipients_room socks sid a N I D). simpl. f_equal.
  apply IH. intros n In'. apply H. now right.
Qed.

Lemma lookup_set_field_other (k k' : string) (v : jsval) fields :
  k <> k' -> lookup k (set_field k' v fields) = lookup k fields.
Proof.
  intro N. induction fields as [| [k0 v0] fields IH]; cbn [set_field lookup].
  - destruct (String.eqb_spec k k'); [contradiction | reflexivity].
  - destruct (String.eqb_spec k' k0) as [<- | D]; cbn [lookup].
    + destruct (String.eqb_spec k k'); [contradiction | reflexivity].
    + now rewrite IH.
Qed.

(** The relay leaves the [data] of a frame as the sender gave it. *)
Lemma tagged_data audioData sid name :
  lookup "data" (tagged audioData sid name) = lookup "data" (spread audioData).
Proof.
  unfold tagged. now rewrite !lookup_set_field_other by discriminate.
Qed.

(** C6.  A well-formed audio frame ([audioData] and [audioData.data]
    truthy, and a timestamp, if any, that converts to a number) of a
    connected player: the nearby players are the other players
    of the store within 300 units; if there are any, the frame, tagged with
    the sender's id, is delivered to exactly them, once each, and otherwise
    it is broadcast to all other sockets; the sender never receives it; the
    sender's [audioEnabled] is set and its [lastAudioPacket] is the time of
    the frame; no other player changes.  The sender's record becomes the
    old one with [audioEnabled] true and [lastAudioPacket] the time of the
    frame, every other field as it was; the relayed frame has the sender's
    name as [playerName] and every other property, [data] among them, as
    the sender gave it. *)
Theorem audio_frame_routing (e : Engine.t) (s : state) (sid : string)
    (audioData : jsval) (t_packet t_latency : Z) (player : Player.t) :
  wf s -> player_of s sid = Some player -> audio_guard audioData = true ->
  timestamp_ok e audioData ->
  let r := on_audioStream e sid audioData t_packet t_latency s in
  let near := getNearbyPlayers (players s) player (of_Z 300) in
  let frame := tagged audioData sid (Player.name player) in
  (forall k, In k near <->
             k <> sid /\ exists p, player_of s k = Some p /\
                                   le (distance player p) (of_Z 300) = true) /\
  (near <> [] -> delivered (sockets s) (snd r) = near) /\
  (near = [] ->
   delivered (sockets s) (snd r) =
     filter (fun c => negb (String.eqb c sid)) (sockets s)) /\
  Forall (fun em => snd em = AudioStream frame) (snd r) /\
  lookup "playerId" frame = JStr sid /\
  ~ In sid (delivered (sockets s) (snd r)) /\
  player_of (fst r) sid =
    Some (Player.with_lastAudioPacket (Player.with_audioEnabled player true)
            t_packet) /\
  (forall k, k <> sid -> player_of (fst r) k = player_of s k) /\
  player_of (fst r) sid =
    Some (Player.mk (Player.id player) (Player.x player) (Player.y player)
            (Player.angle player) (Player.color player) (Player.name player)
            (Player.health player) true t_packet
            (Player.connectedAt player) (Player.transport player)
            (Player.lastActivity player) (Player.lastShoot player)) /\
  lookup "playerName" frame = JStr (Player.name player) /\
  (forall k, k <> "playerId" -> k <> "playerName" ->
             lookup k frame = get audioData k) /\
  lookup "data" frame = get audioData "data" /\
  truthy (lookup "data" frame) = true /\
  bullets (fst r) = bullets s /\ sockets (fst r) = sockets s.
Proof.
  intros W G A T r near frame.
  destruct (on_audioStream_accepted e sid audioData t_packet t_latency s
              player W G A T) as [E1 E2].
  fold near in E2. fold frame in E2. fold r in E1, E2.
  assert (Id : Player.id player = sid).
  { apply (wf_ids s W). apply (get_In _ String.eqb_spec). exact G. }
  assert (Near : forall k, In k near <->
             k <> sid /\ exists p, player_of s k = Some p /\
                                   le (distance player p) (of_Z 300) = true).
  { intro k. unfold near. rewrite In_getNearbyPlayers, Id. split.
    - intros (p & I & D & L). split; [exact D |]. exists p. split; [| exact L].
      apply (In_get _ String.eqb_spec); [apply W | exact I].
    - intros (D & p & Gp & L). exists p. split; [| auto].
      apply (get_In _ String.eqb_spec). exact Gp. }
  assert (Online : forall n, In n near -> In n (sockets s) /\ n <> sid).
  { intros n I. apply Near in I. destruct I as (D & p & Gp & _).
    split; [| exact D]. apply (wf_online s W n p).
    apply (get_In _ String.eqb_spec). exact Gp. }
  assert (Rooms : near <> [] -> delivered (sockets s) (snd r) = near).
  { intro NE. rewrite E2. destruct near as [| n l] eqn:En; [congruence |].
    apply delivered_rooms; [apply W | exact Online]. }
  assert (All : near = [] ->
     delivered (sockets s) (snd r) =
       filter (fun c => negb (String.eqb c sid)) (sockets s)).
  { intro En. rewrite E2, En. unfold delivered. simpl. apply app_nil_r. }
  assert (Fields : forall k, k <> "playerId" -> k <> "playerName" ->
                     lookup k frame = get audioData k).
  { intros k N1 N2. unfold frame, tagged.
    rewrite !lookup_set_field_other by assumption.
    destruct audioData; reflexivity. }
  split; [exact Near |]. split; [exact Rooms |]. split; [exact All |].
  split; [| split; [apply tagged_playerId | split; [| split; [| split;
    [| split; [| split; [| split; [| split; [| split; [| split]]]]]]]]]].
  - rewrite E2. destruct near; [repeat constructor |].
    apply Forall_forall. intros em I. apply in_map_iff in I.
    destruct I as (n' & <- & _). reflexivity.
  - destruct near as [| n l] eqn:En.
    + rewrite All by reflexivity. intro I. apply filter_In in I.
      destruct I as [_ F]. rewrite String.eqb_refl in F. discriminate.
    + rewrite Rooms by discriminate. intro I. apply Online in I. tauto.
  - unfold player_of. rewrite E1. apply (get_set_same _ String.eqb_spec).
  - intros k D. unfold player_of. rewrite E1.
    now apply (get_set_other _ String.eqb_spec).
  - unfold player_of. rewrite E1. apply (get_set_same _ String.eqb_spec).
  - unfold frame, tagged. generalize (set_field "playerId" (JStr sid)
                                        (spread audioData)).
    induction l as [| [k v] l IH]; cbn [set_field lookup].
    + reflexivity.
    + destruct (String.eqb_spec "playerName" k) as [<- | D]; cbn [lookup].
      * now rewrite String.eqb_refl.
      * destruct (String.eqb_spec "playerName" k); [contradiction | exact IH].
  - exact Fields.
  - apply Fields; discriminate.
  - rewrite Fields by discriminate. unfold audio_guard in A.
    apply andb_true_iff in A. tauto.
  - apply on_audioStream_bullets.
  - apply on_audioStream_sockets.
Qed.

(** Tank A, 90 units from B and 500 units from C, sends a frame: it goes
    to B only. *)
Lemma audio_frame_routing_witness :
  let s := Scenario.after Scenario.spread_out in
  let player :=
    Player.mk "A" (of_Z 100) (of_Z 100) (JNum (of_Z 0)) "hsl(0, 70%, 50%)"
              "Tank0" 100 false 1000 1000 "websocket" (Some 2000) None in
  let r := on_audioStream Engine.table "A" Scenario.frame 2600 2600 s in
  let near := getNearbyPlayers (players s) player (of_Z 300) in
  let frame := tagged Scenario.frame "A" (Player.name player) in
  near = [ "B" ] /\
  snd r = [ (ToRoom "A" "B", AudioStream frame) ] /\
  (forall k, In k near <->
             k <> "A" /\ exists p, player_of s k = Some p /\
                                   le (distance player p) (of_Z 300) = true) /\
  (near <> [] -> delivered (sockets s) (snd r) = near) /\
  (near = [] ->
   delivered (sockets s) (snd r) =
     filter (fun c => negb (String.eqb c "A")) (sockets s)) /\
  Forall (fun em => snd em = AudioStream frame) (snd r) /\
  lookup "playerId" frame = JStr "A" /\
  ~ In "A" (delivered (sockets s) (snd r)) /\
  player_of (fst r) "A" =
    Some (Player.with_lastAudioPacket (Player.with_audioEnabled player true)
            2600) /\
  (forall k, k <> "A" -> player_of (fst r) k = player_of s k) /\
  player_of (fst r) "A" =
    Some (Player.mk (Player.id player) (Player.x player) (Player.y player)
            (Player.angle player) (Player.color player) (Player.name player)
            (Player.health player) true 2600
            (Player.connectedAt player) (Player.transport player)
            (Player.lastActivity player) (Player.lastShoot player)) /\
  lookup "playerName" frame = JStr (Player.name player) /\
  (forall k, k <> "playerId" -> k <> "playerName" ->
             lookup k frame = get Scenario.frame k) /\
  lookup "data" frame = get Scenario.frame "data" /\
  truthy (lookup "data" frame) = true /\
  bullets (fst r) = bullets s /\ sockets (fst r) = sockets s.
Proof.
  intros s player r near frame.
  split; [vm_compute; reflexivity |].
  split; [vm_compute; reflexivity |].
  apply (audio_frame_routing Engine.table s "A" Scenario.frame 2600 2600
           player (wf_after Scenario.spread_out) eq_refl eq_refl).
  intros _. vm_compute. discriminate.
Defined.

(** With nobody within 300 units the frame goes to every other socket. *)
Example audio_frame_fallback :
  let s := Scenario.after
             (Scenario.spread_out ++
              [ PlayerMove "B" (Scenario.move_to (of_Z 700) (of_Z 500)) 2100 ]) in
  let r := on_audioStream Engine.table "A" Scenario.frame 2600 2600 s in
  snd r = [ (Broadcast "A",
             AudioStream (tagged Scenario.frame "A" "Tank0")) ] /\
  delivered (sockets s) (snd r) = [ "B"; "C" ].
Proof. vm_compute. auto. Qed.


(** A frame whose timestamp cannot be converted to a number (an object
    whose [valueOf] and [toString] are not callable) marks its sender and
    is relayed to nobody. *)
Lemma audio_frame_bad_timestamp e sid audioData t_packet t_latency s player :
  player_of s sid = Some player -> audio_guard audioData = true ->
  truthy (get audioData "timestamp") = true ->
  Engine.ToNumber e (get audioData "timestamp") = None ->
  let r := on_audioStream e sid audioData t_packet t_latency s in
  snd r = [] /\
  player_of (fst r) sid =
    Some (Player.with_lastAudioPacket (Player.with_audioEnabled player true)
            t_packet).
Proof.
  intros G A Ts N r. unfold r, on_audioStream.
  change (player_of (with_audioStats s (count_packet (audioStats s))) sid)
    with (player_of s sid).
  rewrite G, A. cbv zeta. unfold note_latency. rewrite Ts, N.
  split; [reflexivity |]. unfold player_of. cbn [fst players with_players].
  apply (get_set_same _ String.eqb_spec).
Qed.

(* ------------------------------------------------------------------ *)
(** ** The game loop: collisions *)

Lemma count_pairs id (vs : list (string * Player.t)) :
  let out := flat_map (fun q => [ (ToAll, PlayerDamaged (Player.id (snd q)) 10);
                                  (ToAll, BulletDestroyed id) ]) vs in
  count is_damage out = List.length vs /\
  count (destroys id) out = List.length vs.
Proof.
  unfold count, is_damage, destroys.
  induction vs as [| q vs [IH1 IH2]]; simpl; [auto |].
  rewrite Z.eqb_refl. simpl. split; f_equal; assumption.
Qed.

Lemma existsb_victims bullet ps :
  existsb (fun q => hits bullet (snd q)) ps =
  negb (match victims bullet ps with [] => true | _ => false end).
Proof.
  unfold victims. induction ps as [| q ps IH]; simpl; [reflexivity |].
  destruct (hits bullet (snd q)); simpl; auto.
Qed.

(** The emits of a run of the game loop, bullet by bullet, as long as no
    step throws. *)
Lemma tick_bullets_app e ps pre post :
  (forall q, In q pre -> advance e (snd q) <> None) ->
  snd (tick_bullets e ps (pre ++ post)) =
  snd (tick_bullets e ps pre) ++ snd (tick_bullets e ps post).
Proof.
  induction pre as [| b pre IH]; intro H; [reflexivity |].
  cbn [app tick_bullets]. unfold tick_bullet.
  destruct (advance e (snd b)) as [b' |] eqn:A.
  - cbn [snd]. rewrite IH by (intros q I; apply H; now right).
    now rewrite app_assoc.
  - exfalso. apply (H b); [now left | exact A].
Qed.

(** C1, as amended.  In a run of the game loop that reaches it, a bullet
    that is still inside the arena after its step damages every player
    within the hit radius other than its owner: per such player, in the
    order of the store, the loop emits one [playerDamaged] of magnitude 10
    and one [bulletDestroyed] for the bullet, and it does not stop at the
    first hit.  The numbers of both emits equal the number of players hit
    (one each when a single player is in range), and the bullet leaves the
    store as soon as one is hit. *)
Theorem every_player_in_range_is_hit
    (e : Engine.t) (s : state) (pre post : list (Z * Bullet.t))
    (id : Z) (b bullet : Bullet.t) :
  let r := resolve (players s) id bullet in
  let hit := victims bullet (players s) in
  bullets s = pre ++ (id, b) :: post ->
  (forall q, In q pre -> advance e (snd q) <> None) ->
  advance e b = Some bullet ->
  outside bullet = false ->
  snd (gameLoop e s) =
    snd (tick_bullets e (players s) pre) ++ snd r ++
    snd (tick_bullets e (players s) post) /\
  snd r = flat_map (fun q => [ (ToAll, PlayerDamaged (Player.id (snd q)) 10);
                               (ToAll, BulletDestroyed id) ]) hit /\
  count is_damage (snd r) = List.length hit /\
  count (destroys id) (snd r) = List.length hit /\
  (hit <> [] -> fst r = None) /\
  (hit = [] -> fst r = Some (id, bullet)).
Proof.
  intros r hit B Pre A O.
  assert (E : snd r = flat_map
            (fun q => [ (ToAll, PlayerDamaged (Player.id (snd q)) 10);
                        (ToAll, BulletDestroyed id) ]) hit).
  { unfold r, resolve. rewrite O. cbn [snd]. apply collide_victims. }
  split; [| split; [exact E | ]].
  - unfold gameLoop. cbn [snd]. rewrite B, (tick_bullets_app _ _ _ _ Pre).
    f_equal. cbn [tick_bullets]. unfold tick_bullet. cbn [snd fst].
    rewrite A. reflexivity.
  - destruct (count_pairs id hit) as [C1 C2]. rewrite <- E in C1, C2.
    split; [exact C1 | split; [exact C2 |]].
    unfold r, resolve. rewrite O. cbn [fst].
    rewrite existsb_victims. fold hit.
    destruct hit; simpl; split; congruence.
Qed.

(** The bullet of the [lined_up] scenario, with tanks B and C in range. *)
Lemma every_player_in_range_is_hit_witness :
  let s := Scenario.after Scenario.lined_up in
  let bullet := Bullet.at_position Scenario.shell (of_Z 105) (of_Z 100) in
  let r := resolve (players s) 0 bullet in
  let hit := victims bullet (players s) in
  JsMap.keys hit = [ "B"; "C" ] /\
  snd (gameLoop Engine.table s) =
    snd (tick_bullets Engine.table (players s) []) ++ snd r ++
    snd (tick_bullets Engine.table (players s) []) /\
  snd r = flat_map (fun q => [ (ToAll, PlayerDamaged (Player.id (snd q)) 10);
                               (ToAll, BulletDestroyed 0) ]) hit /\
  count is_damage (snd r) = List.length hit /\
  count (destroys 0) (snd r) = List.length hit /\
  (hit <> [] -> fst r = None) /\
  (hit = [] -> fst r = Some (0, bullet)).
Proof.
  intros s bullet r hit.
  split; [vm_compute; reflexivity |].
  refine (every_player_in_range_is_hit Engine.table s [] [] 0 Scenario.shell
            bullet _ _ _ _).
  - vm_compute; reflexivity.
  - intros q [].
  - vm_compute; reflexivity.
  - vm_compute; reflexivity.
Defined.

(** C1 as stated fails: the bullet tank A fires towards tanks B and C,
    both within 20 units of it after its step, damages both in one run of
    the game loop, which emits [bulletDestroyed] for it twice. *)
Lemma one_bullet_hits_two_tanks :
  let s := Scenario.after Scenario.lined_up in
  let bullet := Bullet.at_position Scenario.shell (of_Z 105) (of_Z 100) in
  bullets s = [ (0, Scenario.shell) ] /\
  advance Engine.table Scenario.shell = Some bullet /\
  snd (gameLoop Engine.table s) =
    [ (ToAll, PlayerDamaged "B" 10); (ToAll, BulletDestroyed 0);
      (ToAll, PlayerDamaged "C" 10); (ToAll, BulletDestroyed 0) ] /\
  ~ Stated.first_hit_wins (players s) 0 bullet.
Proof.
  split; [vm_compute; reflexivity |].
  split; [vm_compute; reflexivity |].
  split; [vm_compute; reflexivity |].
  unfold Stated.first_hit_wins. intro H.
  assert (C : count is_damage
                (snd (resolve (players (Scenario.after Scenario.lined_up)) 0
                        (Bullet.at_position Scenario.shell (of_Z 105)
                           (of_Z 100)))) = 1%nat).
  { apply H; [vm_compute; reflexivity | vm_compute; discriminate]. }
  vm_compute in C. discriminate C.
Qed.

(* ------------------------------------------------------------------ *)
(** ** Bullet destruction and the expiry timer *)

(** Over a run, the [bulletDestroyed] emits for [id] are those of the game
    loop plus one per firing of the bullet's timer. *)
Lemma run_destroys e id tr : forall s s' out,
  run e s tr = Some (s', out) ->
  count (destroys id) out =
  (count (destroys id) (loop_emits e s tr) + timeouts id tr)%nat.
Proof.
  induction tr as [| i tr IH]; simpl; intros s s' out R.
  - injection R as _ <-. reflexivity.
  - destruct (step e s i) as [[s1 o1] |] eqn:S; [| discriminate].
    destruct (run e s1 tr) as [[s2 o2] |] eqn:R2; [| discriminate].
    injection R as _ <-.
    rewrite count_app, (IH _ _ _ R2), (step_destroys _ _ _ _ _ id S).
    unfold timeouts; simpl.
    destruct i; simpl; try lia.
    + destruct (bid =? id); simpl; lia.
    + rewrite count_app. lia.
Qed.

(** C2, as amended.  [bulletDestroyed] for a bullet's identity is emitted
    once by every destruction that happens to it, not once in all: over
    any run the emits for [id] are those of the game loop (one when the
    bullet leaves the arena) plus one for each firing of its expiry timer.
    The timer is never cancelled (the game loop leaves the timers as they
    are) and its callback emits in every case: it removes the bullet if it
    is still in the store and is a no-op on the store otherwise. *)
Theorem expiry_timer_always_notifies
    (e : Engine.t) (s : state) (tr : list input) (s' : state)
    (out : list emit) (id : Z) :
  run e s tr = Some (s', out) ->
  count (destroys id) out =
    (count (destroys id) (loop_emits e s tr) + timeouts id tr)%nat /\
  (forall s0,
     snd (on_bulletTimeout id s0) = [ (ToAll, BulletDestroyed id) ] /\
     JsMap.get Z.eqb id (bullets (fst (on_bulletTimeout id s0))) = None /\
     (JsMap.get Z.eqb id (bullets s0) = None ->
      fst (on_bulletTimeout id s0) = s0)) /\
  (forall s0, timers (fst (gameLoop e s0)) = timers s0) /\
  (forall ps entry bullet,
     advance e (snd entry) = Some bullet -> outside bullet = true ->
     tick_bullet e ps entry =
       Some (None, [ (ToAll, BulletDestroyed (fst entry)) ])).
Proof.
  intro R. split; [exact (run_destroys e id tr s s' out R) |]. split; [| split].
  - intro s0. split; [reflexivity |]. split.
    + simpl. apply get_delete_same.
    + intro A. unfold on_bulletTimeout; cbn [fst].
      rewrite (delete_absent _ _ _ A). destruct s0; reflexivity.
  - reflexivity.
  - intros ps entry bullet A O. unfold tick_bullet, resolve.
    rewrite A, O. reflexivity.
Qed.

(** The [edge_shot] run: the bullet leaves the arena, then its timer
    fires. *)
Lemma expiry_timer_always_notifies_witness :
  exists s' out,
    run Engine.table init Scenario.edge_shot = Some (s', out) /\
    count (destroys 0) out = 2%nat /\
    count (destroys 0) (loop_emits Engine.table init Scenario.edge_shot)
      = 1%nat /\
    timeouts 0 Scenario.edge_shot = 1%nat /\
    count (destroys 0) out =
      (count (destroys 0) (loop_emits Engine.table init Scenario.edge_shot) +
       timeouts 0 Scenario.edge_shot)%nat /\
    (forall s0,
       snd (on_bulletTimeout 0 s0) = [ (ToAll, BulletDestroyed 0) ] /\
       JsMap.get Z.eqb 0 (bullets (fst (on_bulletTimeout 0 s0))) = None /\
       (JsMap.get Z.eqb 0 (bullets s0) = None ->
        fst (on_bulletTimeout 0 s0) = s0)) /\
    (forall s0, timers (fst (gameLoop Engine.table s0)) = timers s0) /\
    (forall ps entry bullet,
       advance Engine.table (snd entry) = Some bullet ->
       outside bullet = true ->
       tick_bullet Engine.table ps entry =
         Some (None, [ (ToAll, BulletDestroyed (fst entry)) ])).
Proof.
  do 2 eexists.
  split; [vm_compute; reflexivity |].
  split; [vm_compute; reflexivity |].
  split; [vm_compute; reflexivity |].
  split; [vm_compute; reflexivity |].
  apply (expiry_timer_always_notifies Engine.table init Scenario.edge_shot
           _ _ 0 eq_refl).
Defined.

(** C2 as stated fails: the bullet fired from the right edge is destroyed
    by the game loop when it leaves the arena, and its timer emits
    [bulletDestroyed] for it a second time. *)
Lemma early_destroyed_bullet_is_announced_twice :
  ~ Stated.destroyed_once Engine.table Scenario.edge_shot.
Proof.
  unfold Stated.destroyed_once. intro H.
  destruct (run Engine.table init Scenario.edge_shot) as [[s out] |] eqn:R;
    [| vm_compute in R; discriminate R].
  specialize (H s out 0 eq_refl).
  vm_compute in R. injection R as _ <-. vm_compute in H. lia.
Qed.

(* ------------------------------------------------------------------ *)
(** ** The bullet store *)

Import Obs.

(** What the game loop keeps of the bullets: entries of the old map, in
    their order, each as it was or moved. *)
Lemma In_tick_bullets_kept e ps bs k b' :
  In (k, b') (fst (tick_bullets e ps bs)) ->
  exists b, In (k, b) bs /\
            (b' = b \/ exists x y, b' = Bullet.at_position b x y).
Proof.
  induction bs as [| [k0 b0] bs IH]; cbn [tick_bullets]; [intros [] |].
  unfold tick_bullet, advance. cbn [fst snd].
  destruct (Engine.ToNumber e (Bullet.angle b0)) as [a |].
  - cbv zeta. unfold resolve.
    destruct (outside _); cbn [fst snd].
    + intro I. destruct (IH I) as (b & Ib & E). exists b. split; [now right | exact E].
    + destruct (existsb _ ps); cbn [fst snd].
      * intro I. destruct (IH I) as (b & Ib & E). exists b.
        split; [now right | exact E].
      * intros [[= <- <-] | I].
        -- exists b0. split; [now left |]. right. eauto.
        -- destruct (IH I) as (b & Ib & E). exists b.
           split; [now right | exact E].
  - cbn [fst]. intros [[= <- <-] | I].
    + exists b0. split; [now left | now left].
    + exists b'. split; [now right | now left].
Qed.

Lemma keys_tick_bullets_incl e ps bs k :
  In k (JsMap.keys (fst (tick_bullets e ps bs))) -> In k (JsMap.keys bs).
Proof.
  unfold JsMap.keys. rewrite !in_map_iff. intros ([k' b'] & <- & I).
  destruct (In_tick_bullets_kept _ _ _ _ _ I) as (b & Ib & _).
  exists (k', b). auto.
Qed.

Lemma keys_tick_bullets_nodup e ps bs :
  NoDup (JsMap.keys bs) -> NoDup (JsMap.keys (fst (tick_bullets e ps bs))).
Proof.
  induction bs as [| [k0 b0] bs IH]; cbn [tick_bullets]; [auto |].
  intro N. destruct (tick_bullet e ps (k0, b0)) as [[kept out] |] eqn:T;
    [| exact N].
  cbn [fst snd]. inversion N as [| ? ? N1 N2]; subst.
  destruct kept as [[k1 b1] |]; [| auto].
  unfold tick_bullet in T. cbn [fst snd] in T.
  destruct (advance e b0) as [b |]; [| discriminate].
  injection T as T. apply (f_equal fst) in T. unfold resolve in T.
  destruct (outside b); [discriminate |]. cbn [fst] in T.
  destruct (existsb _ ps); [discriminate |]. injection T as <- <-.
  cbn [JsMap.keys map fst]. constructor; [| auto].
  intro I. apply N1. exact (keys_tick_bullets_incl _ _ _ _ I).
Qed.

(** The events that leave the bullets, their timers and the counter as
    they are. *)
Lemma step_bullets_frame e s i s' out :
  step e s i = Some (s', out) ->
  match i with
  | PlayerShoot _ _ | BulletTimeout _ | GameLoop => True
  | _ => bullets s' = bullets s /\ timers s' = timers s /\
         bulletIdCounter s' = bulletIdCounter s
  end.
Proof.
  intro S. destruct i; try exact I; cbn [step] in S; step_inv S;
    try (split; [| split]; reflexivity).
  - unfold on_upgrade. destruct (player_of s sid); repeat split.
  - unfold on_playerMove. destruct (player_of s sid); [| repeat split].
    destruct (move_guard data); repeat split.
  - unfold on_audioStream.
    destruct (player_of _ sid); [| repeat split].
    destruct (audio_guard audioData); [| repeat split].
    cbv zeta. destruct (note_latency _ _ _ _); repeat split.
  - unfold on_audioStateChanged. destruct (player_of s sid); [| repeat split].
    destruct (truthy st); [| repeat split].
    destruct (get st "enabled"); repeat split.
Qed.

Lemma In_remove_first k bid l :
  In k l -> k <> bid -> In k (remove_first bid l).
Proof.
  induction l as [| a l IH]; simpl; [tauto |].
  intros [-> | I] D.
  - destruct (Z.eqb_spec bid k); [congruence | now left].
  - destruct (bid =? a); [exact I | right; auto].
Qed.

Lemma step_bullets_wf e s i s' out :
  step e s i = Some (s', out) -> bullets_wf s -> bullets_wf s'.
Proof.
  intros S [K I Sp T].
  pose proof (step_bullets_frame _ _ _ _ _ S) as F.
  destruct i;
    try (destruct F as (Eb & Et & _); constructor; rewrite ?Eb, ?Et;
         assumption).
  - (* playerShoot *)
    cbn [step] in S. step_inv S. unfold on_playerShoot.
    destruct (player_of s sid) as [p |]; [| constructor; assumption].
    destruct (may_shoot _ now); [| constructor; assumption].
    cbv zeta. constructor; cbn [fst bullets timers new_bullet Bullet.id].
    + apply (keys_set_nodup _ Z.eqb_spec). exact K.
    + intros k b H. apply (In_set Z.eqb) in H.
      destruct H as [[= -> ->] | H]; [reflexivity | eauto].
    + intros k b H. apply (In_set Z.eqb) in H.
      destruct H as [[= -> ->] | H]; [reflexivity | eauto].
    + intros k H. apply in_or_app.
      unfold JsMap.keys in H. apply in_map_iff in H.
      destruct H as ([k' b] & <- & H). apply (In_set Z.eqb) in H.
      destruct H as [[= -> ->] | H]; [right; now left |].
      left. apply T. exact (In_keys _ _ _ H).
  - (* the timer *)
    cbn [step] in S. step_inv S.
    constructor; cbn [fst on_bulletTimeout bullets timers with_bullets
                      with_timers].
    + apply (keys_delete_nodup _ Z.eqb_spec). exact K.
    + intros k b H. apply (In_delete _ Z.eqb_spec) in H. destruct H. eauto.
    + intros k b H. apply (In_delete _ Z.eqb_spec) in H. destruct H. eauto.
    + intros k H. apply (keys_delete_incl _ Z.eqb_spec) in H.
      destruct H as [H D]. apply In_remove_first; auto.
  - (* the game loop *)
    cbn [step] in S. injection S as <- _.
    constructor; cbn [fst gameLoop bullets timers with_bullets].
    + apply keys_tick_bullets_nodup. exact K.
    + intros k b H. destruct (In_tick_bullets_kept _ _ _ _ _ H)
        as (b0 & H0 & [-> | (x & y & ->)]); [eauto |].
      cbn [Bullet.at_position Bullet.id]. eauto.
    + intros k b H. destruct (In_tick_bullets_kept _ _ _ _ _ H)
        as (b0 & H0 & [-> | (x & y & ->)]); [eauto |].
      cbn [Bullet.at_position Bullet.speed]. eauto.
    + intros k H. apply T. exact (keys_tick_bullets_incl _ _ _ _ H).
Qed.

Lemma bullets_wf_init : bullets_wf init.
Proof. constructor; simpl; try tauto. constructor. Qed.

Lemma run_bullets_wf e tr : forall s s' out,
  run e s tr = Some (s', out) -> bullets_wf s -> bullets_wf s'.
Proof.
  induction tr as [| i tr IH]; simpl; intros s s' out R W.
  - injection R as <- _. exact W.
  - destruct (step e s i) as [[s1 o1] |] eqn:S; [| discriminate].
    destruct (run e s1 tr) as [[s2 o2] |] eqn:R2; [| discriminate].
    injection R as <- _. eapply IH; [exact R2 |].
    eapply step_bullets_wf; eauto.
Qed.

(** X1.  In every state the server reaches, each bullet of the store is
    stored under its own id, no two bullets share an id, each has speed
    300 and each still has a pending expiry timer; so a bullet that
    nothing else removes is removed when its timer fires, at the latest. *)
Theorem every_bullet_has_a_pending_timer (e : Engine.t) (tr : list input)
    (s : state) (out : list emit) :
  run e init tr = Some (s, out) ->
  bullets_wf s /\
  (forall id, In id (JsMap.keys (bullets s)) ->
     exists s' out',
       step e s (BulletTimeout id) = Some (s', out') /\
       JsMap.get Z.eqb id (bullets s') = None).
Proof.
  intro R. pose proof (run_bullets_wf e tr init s out R bullets_wf_init) as W.
  split; [exact W |]. intros id I.
  pose proof (bw_timers s W id I) as P.
  cbn [step]. unfold pending.
  assert (E : existsb (Z.eqb id) (timers s) = true).
  { apply existsb_exists. exists id. split; [exact P | apply Z.eqb_refl]. }
  rewrite E. do 2 eexists. split; [reflexivity |].
  cbn [fst on_bulletTimeout bullets with_bullets].
  apply get_delete_same.
Qed.

(** After the three tanks have lined up and A has fired. *)
Lemma every_bullet_has_a_pending_timer_witness :
  exists s out,
    run Engine.table init Scenario.lined_up = Some (s, out) /\
    JsMap.keys (bullets s) = [ 0 ] /\
    bullets_wf s /\
    (forall id, In id (JsMap.keys (bullets s)) ->
       exists s' out',
         step Engine.table s (BulletTimeout id) = Some (s', out') /\
         JsMap.get Z.eqb id (bullets s') = None).
Proof.
  do 2 eexists.
  split; [vm_compute; reflexivity |].
  split; [vm_compute; reflexivity |].
  refine (every_bullet_has_a_pending_timer Engine.table Scenario.lined_up
            _ _ _).
  vm_compute; reflexivity.
Defined.

(** *** Bullet ids *)

Lemma created_ids_app a b :
  created_ids (a ++ b) = created_ids a ++ created_ids b.
Proof. unfold created_ids. apply flat_map_app. Qed.

Lemma count_from_app c n m :
  count_from c (n + m) = count_from c n ++ count_from (c + Z.of_nat n) m.
Proof.
  revert c. induction n as [| n IH]; intro c.
  - simpl. now rewrite Z.add_0_r.
  - cbn [Nat.add count_from app]. rewrite IH. do 3 f_equal. lia.
Qed.

Lemma In_count_from c n k :
  In k (count_from c n) <-> c <= k < c + Z.of_nat n.
Proof.
  revert c. induction n as [| n IH]; intro c; cbn [count_from In].
  - lia.
  - rewrite IH. lia.
Qed.

Lemma count_from_nodup c n : NoDup (count_from c n).
Proof.
  revert c. induction n as [| n IH]; intro c; cbn [count_from];
    constructor; [| apply IH].
  rewrite In_count_from. lia.
Qed.

(** What one event does to the counter and which ids it announces. *)
Lemma step_created e s i s' out :
  step e s i = Some (s', out) ->
  (created_ids out = [] /\ bulletIdCounter s' = bulletIdCounter s) \/
  (created_ids out = [ bulletIdCounter s ] /\
   bulletIdCounter s' = next_id (bulletIdCounter s)).
Proof.
  intro S. pose proof (step_bullets_frame _ _ _ _ _ S) as F.
  pose proof (step_table _ _ _ _ _ S) as T.
  assert (N : (forall em, In em out ->
                 match snd em with BulletCreated _ => False | _ => True end) ->
              created_ids out = []).
  { clear. intro H. unfold created_ids.
    induction out as [| em out IH]; [reflexivity |]. cbn [flat_map].
    rewrite IH by (intros; apply H; now right).
    specialize (H em (or_introl eq_refl)). destruct (snd em); tauto. }
  destruct i;
    try (left; split; [| apply F];
         apply N; intros [t pl] I; specialize (T _ I);
         destruct t, pl; try exact Logic.I; discriminate T).
  - cbn [step] in S. step_inv S. unfold on_playerShoot.
    destruct (player_of s sid) as [p |]; [| now left].
    destruct (may_shoot _ now); [| now left].
    right. split; reflexivity.
  - left. cbn [step] in S. step_inv S. split; reflexivity.
  - left. cbn [step] in S. injection S as <- <-. split; [| reflexivity].
    apply N. intros em I. apply In_tick_bullets in I.
    destruct I as [(id & b & _ & ->) | (k & p & _ & ->)]; exact Logic.I.
Qed.

Lemma run_created e tr : forall s s' out,
  run e s tr = Some (s', out) ->
  bulletIdCounter s' < 2 ^ 53 ->
  created_ids out =
    count_from (bulletIdCounter s) (List.length (created_ids out)) /\
  bulletIdCounter s' =
    bulletIdCounter s + Z.of_nat (List.length (created_ids out)).
Proof.
  induction tr as [| i tr IH]; simpl; intros s s' out R B.
  - injection R as <- <-. simpl. split; [reflexivity | lia].
  - destruct (step e s i) as [[s1 o1] |] eqn:S; [| discriminate].
    destruct (run e s1 tr) as [[s2 o2] |] eqn:R2; [| discriminate].
    injection R as <- <-.
    destruct (IH _ _ _ R2 B) as [E2 C2].
    rewrite created_ids_app, length_app.
    destruct (step_created _ _ _ _ _ S) as [[E1 C1] | [E1 C1]];
      rewrite E1; cbn [List.length app Nat.add].
    + rewrite C1 in E2, C2. tauto.
    + assert (Lt : bulletIdCounter s < 2 ^ 53).
      { unfold next_id in C1.
        destruct (Z.ltb_spec (bulletIdCounter s) (2 ^ 53)); lia. }
      assert (C1' : bulletIdCounter s1 = bulletIdCounter s + 1).
      { rewrite C1. unfold next_id.
        destruct (Z.ltb_spec (bulletIdCounter s) (2 ^ 53)); lia. }
      rewrite C1' in E2, C2. cbn [count_from]. rewrite <- E2.
      split; [reflexivity | lia].
Qed.

(** X2.  Bullet ids are never reused: as long as the counter stays below
    2^53, the ids of the bullets created during any sequence of events
    are the consecutive integers from the value of the counter on, so
    they are pairwise distinct, and the counter has advanced by their
    number. *)
Theorem bullet_ids_are_never_reused (e : Engine.t) (s : state)
    (tr : list input) (s' : state) (out : list emit) :
  run e s tr = Some (s', out) ->
  bulletIdCounter s' < 2 ^ 53 ->
  created_ids out =
    count_from (bulletIdCounter s) (List.length (created_ids out)) /\
  bulletIdCounter s' =
    bulletIdCounter s + Z.of_nat (List.length (created_ids out)) /\
  NoDup (created_ids out).
Proof.
  intros R B. destruct (run_created e tr s s' out R B) as [E C].
  split; [exact E | split; [exact C |]].
  rewrite E. apply count_from_nodup.
Qed.

(** Tanks A and B fire five times in all; two requests of A come too
    early. *)
Lemma bullet_ids_are_never_reused_witness :
  exists s' out,
    run Engine.table init Cases.volley = Some (s', out) /\
    created_ids out = [ 0; 1; 2 ] /\
    bulletIdCounter s' < 2 ^ 53 /\
    created_ids out =
      count_from (bulletIdCounter init) (List.length (created_ids out)) /\
    bulletIdCounter s' =
      bulletIdCounter init + Z.of_nat (List.length (created_ids out)) /\
    NoDup (created_ids out).
Proof.
  do 2 eexists.
  split; [vm_compute; reflexivity |].
  split; [vm_compute; reflexivity |].
  split; [vm_compute; reflexivity |].
  refine (bullet_ids_are_never_reused Engine.table init Cases.volley
            _ _ _ _).
  - vm_compute; reflexivity.
  - vm_compute; reflexivity.
Defined.

(* ------------------------------------------------------------------ *)
(** ** Who is damaged, and by whom *)

Lemma In_victims bullet ps q :
  In q (victims bullet ps) <-> In q ps /\ hits bullet (snd q) = true.
Proof. unfold victims. apply filter_In. Qed.

(** Every [playerDamaged] of the game loop comes with the bullet that
    caused it. *)
Lemma In_tick_bullets_damage e ps bs pid d :
  In (ToAll, PlayerDamaged pid d) (snd (tick_bullets e ps bs)) ->
  exists id b b' k p,
    In (id, b) bs /\ advance e b = Some b' /\ outside b' = false /\
    In (k, p) ps /\ Player.id p = pid /\ hits b' p = true /\ d = 10 /\
    In (ToAll, BulletDestroyed id) (snd (tick_bullets e ps bs)).
Proof.
  induction bs as [| [k0 b0] bs IH]; cbn [tick_bullets]; [intros [] |].
  unfold tick_bullet. cbn [fst snd].
  destruct (advance e b0) as [b' |] eqn:A; [| intros []].
  cbn [snd]. rewrite in_app_iff. intros [I | I].
  - unfold resolve in I |- *. destruct (outside b') eqn:O; cbn [snd] in I |- *.
    + destruct I as [I | []]. discriminate I.
    + rewrite collide_victims in I. apply in_flat_map in I.
      destruct I as ([k p] & V & I). apply In_victims in V.
      destruct V as [V H]. cbn [snd] in I, H.
      destruct I as [I | [I | []]]; [| discriminate I].
      injection I as <- <-.
      exists k0, b0, b', k, p. repeat split; auto; [now left |].
      apply in_or_app. left. rewrite collide_victims. apply in_flat_map.
      exists (k, p). split; [apply In_victims; auto |]. right. now left.
  - destruct (IH I) as (id & b & b1 & k & p & Ib & A1 & O1 & Ip & E & H & D & Z).
    exists id, b, b1, k, p. repeat split; auto; [now right |].
    apply in_or_app. now right.
Qed.

(** X3.  Every [playerDamaged] the game loop emits is for a player of the
    store, carries damage 10 and is caused by a bullet of the store that
    another player fired: after its step that bullet is inside the arena
    and less than 20 units from the player, and the same run of the loop
    announces its destruction.  Nobody is damaged by a bullet of their
    own. *)
Theorem damage_comes_from_another_players_bullet
    (e : Engine.t) (s s' : state) (out : list emit) (pid : string) (d : Z) :
  wf s ->
  step e s GameLoop = Some (s', out) ->
  In (ToAll, PlayerDamaged pid d) out ->
  d = 10 /\
  exists p id b b',
    player_of s pid = Some p /\
    In (id, b) (bullets s) /\ advance e b = Some b' /\
    outside b' = false /\ in_range b' p = true /\
    Bullet.playerId b <> pid /\
    In (ToAll, BulletDestroyed id) out.
Proof.
  intros W S I. cbn [step] in S. injection S as <- <-.
  cbn [snd gameLoop] in I |- *.
  destruct (In_tick_bullets_damage _ _ _ _ _ I)
    as (id & b & b' & k & p & Ib & A & O & Ip & E & H & D & Z).
  split; [exact D |]. exists p, id, b, b'.
  assert (Ek : k = pid) by (rewrite <- E; symmetry; apply (wf_ids s W k p Ip)).
  subst k. unfold hits in H. apply andb_true_iff in H. destruct H as [H1 H2].
  apply negb_true_iff, String.eqb_neq in H2.
  repeat split; auto.
  - apply (In_get _ String.eqb_spec); [apply W | exact Ip].
  - unfold advance in A. destruct (Engine.ToNumber e (Bullet.angle b));
      [| discriminate]. injection A as <-. cbn [Bullet.at_position
      Bullet.playerId] in H2. congruence.
Qed.

(** The crossfire: tank B is damaged by the bullet of tank A. *)
Lemma damage_comes_from_another_players_bullet_witness :
  let s := Scenario.after Scenario.lined_up in
  exists s' out,
    step Engine.table s GameLoop = Some (s', out) /\
    In (ToAll, PlayerDamaged "B" 10) out /\
    10 = 10 /\
    exists p id b b',
      player_of s "B" = Some p /\
      In (id, b) (bullets s) /\ advance Engine.table b = Some b' /\
      outside b' = false /\ in_range b' p = true /\
      Bullet.playerId b <> "B" /\
      In (ToAll, BulletDestroyed id) out.
Proof.
  intro s. do 2 eexists.
  split; [vm_compute; reflexivity |].
  assert (I : In (ToAll, PlayerDamaged "B" 10)
                (snd (gameLoop Engine.table s)))
    by (vm_compute; tauto).
  split; [vm_compute; tauto |].
  exact (damage_comes_from_another_players_bullet Engine.table s
           (fst (gameLoop Engine.table s)) (snd (gameLoop Engine.table s))
           "B" 10 (wf_after Scenario.lined_up) eq_refl I).
Defined.

(* ------------------------------------------------------------------ *)
(** ** What a socket can reach *)

Lemma get_set_other_player s sid p k :
  k <> sid ->
  JsMap.get String.eqb k (JsMap.set String.eqb sid p (players s))
  = player_of s k.
Proof. intro D. now apply (get_set_other _ String.eqb_spec). Qed.

(** X4.  Whatever a socket sends (its connection, messages of any kind
    with any payload, its disconnection) changes the record of no other
    player: the records of the others are changed by the cleanup sweep
    only. *)
Theorem a_socket_changes_only_its_own_player
    (e : Engine.t) (s : state) (i : input) (s' : state) (out : list emit)
    (sid k : string) :
  step e s i = Some (s', out) ->
  sender i = Some sid ->
  k <> sid ->
  player_of s' k = player_of s k.
Proof.
  intros S E D. unfold player_of.
  destruct i; cbn [sender] in E; try discriminate E; injection E as ->;
    cbn [step] in S; step_inv S.
  - cbn [fst on_connection players with_players with_sockets].
    now apply get_set_other_player.
  - unfold on_upgrade. destruct (player_of s sid); [| reflexivity].
    now apply get_set_other_player.
  - reflexivity.
  - unfold on_playerMove. destruct (player_of s sid); [| reflexivity].
    destruct (move_guard data); [| reflexivity].
    now apply get_set_other_player.
  - unfold on_playerShoot. destruct (player_of s sid); [| reflexivity].
    destruct (may_shoot _ now); [| reflexivity].
    now apply get_set_other_player.
  - destruct (on_audioStream_players e sid audioData t_packet t_latency s)
      as [-> | (p & _ & _ & ->)]; [reflexivity |].
    now apply get_set_other_player.
  - unfold on_audioStateChanged. destruct (player_of s sid); [| reflexivity].
    destruct (truthy st); [| reflexivity].
    destruct (get st "enabled"); try reflexivity.
    now apply get_set_other_player.
  - cbn [fst on_disconnect players with_players with_sockets].
    now apply (get_delete_other _ String.eqb_spec).
Qed.

(** Tank A moves; the record of tank B is as it was. *)
Lemma a_socket_changes_only_its_own_player_witness :
  let s := Scenario.after Scenario.two_tanks in
  let i := PlayerMove "A" (Scenario.move_to (of_Z 300) (of_Z 200)) 2000 in
  exists s' out,
    step Engine.table s i = Some (s', out) /\
    player_of s' "A" <> player_of s "A" /\
    player_of s' "B" = player_of s "B".
Proof.
  intros s i. do 2 eexists.
  split; [vm_compute; reflexivity |].
  split; [vm_compute; discriminate |].
  refine (a_socket_changes_only_its_own_player Engine.table s i _ _ "A" "B"
            _ _ _).
  - vm_compute; reflexivity.
  - reflexivity.
  - discriminate.
Defined.

(** X5.  No socket hears its own echo: of the messages its connection,
    its messages and its disconnection make the server emit, the socket
    itself receives only the [gameState] snapshot of its connection and
    the [bulletCreated] of its own shot; [playerJoined], [playerMoved],
    [playerAudioState], [playerLeft] and the relayed audio frames go to
    the others only. *)
Theorem no_socket_hears_its_own_echo
    (e : Engine.t) (s : state) (i : input) (s' : state) (out : list emit)
    (sid : string) (em : emit) :
  step e s i = Some (s', out) ->
  sender i = Some sid ->
  In em out ->
  In sid (recipients (sockets s') (fst em)) ->
  match snd em with
  | GameState _ _ _ => is_connection sid i = true
  | BulletCreated b => is_shoot sid i = true /\ Bullet.playerId b = sid
  | _ => False
  end.
Proof.
  intros S E I R. pose proof (step_table _ _ _ _ _ S em I) as T.
  destruct em as [t pl]. cbn [fst snd] in *.
  assert (NB : forall c, ~ In sid (recipients (sockets s') (Broadcast c)) \/
                         c <> sid).
  { intro c. destruct (String.eqb_spec c sid) as [-> | D]; [left | now right].
    simpl. rewrite filter_In, String.eqb_refl. intros [_ F]. discriminate F. }
  assert (NR : forall c room,
             ~ In sid (recipients (sockets s') (ToRoom c room)) \/ c <> sid).
  { intros c room. destruct (String.eqb_spec c sid) as [-> | D];
      [left | now right].
    simpl. rewrite filter_In, String.eqb_refl, andb_false_r.
    intros [_ F]. discriminate F. }
  destruct i; cbn [sender] in E; try discriminate E; injection E as ->;
    destruct t, pl; cbn [may_emit] in T; try discriminate T;
    cbn [is_connection is_shoot];
    repeat match goal with
           | H : (_ && _)%bool = true |- _ =>
               apply andb_true_iff in H; destruct H
           | H : String.eqb _ _ = true |- _ => apply String.eqb_eq in H
           end;
    subst;
    try match type of R with
        | In _ (recipients _ (Broadcast ?c)) =>
            destruct (NB c) as [N | N]; [exact (N R) | congruence]
        | In _ (recipients _ (ToRoom ?c ?r)) =>
            destruct (NR c r) as [N | N]; [exact (N R) | congruence]
        end;
    rewrite ?String.eqb_refl; auto.
Qed.

(** Tank A connects while tank B is there: of the two messages, A
    receives the first, the snapshot. *)
Lemma no_socket_hears_its_own_echo_witness :
  let s := Scenario.after [ Scenario.join "B" ] in
  exists s' out,
    step Engine.table s (Scenario.join "A") = Some (s', out) /\
    delivered (sockets s') out = [ "A"; "B" ] /\
    let em := nth 0 out (ToAll, PlayerLeft EmptyString) in
    In em out /\
    In "A" (recipients (sockets s') (fst em)) /\
    match snd em with
    | GameState _ _ _ => is_connection "A" (Scenario.join "A") = true
    | BulletCreated b =>
        is_shoot "A" (Scenario.join "A") = true /\ Bullet.playerId b = "A"
    | _ => False
    end.
Proof.
  intro s. do 2 eexists.
  split; [vm_compute; reflexivity |].
  split; [vm_compute; reflexivity |].
  match goal with
  | |- let em := ?v in _ => set (em := v); cbv zeta
  end.
  set (r := on_connection "A" "websocket" (of_Z 0) (of_Z 0)
              "hsl(0, 70%, 50%)" "Tank0" 1000 1000
              (with_sockets s (sockets s ++ [ "A" ]))).
  assert (I : In em (snd r)) by (vm_compute; tauto).
  assert (R : In "A" (recipients (sockets (fst r)) (fst em)))
    by (vm_compute; tauto).
  split; [vm_compute; tauto |]. split; [vm_compute; tauto |].
  refine (no_socket_hears_its_own_echo Engine.table s (Scenario.join "A")
            (fst r) (snd r) "A" em _ _ I R).
  - vm_compute; reflexivity.
  - reflexivity.
Defined.

(* ------------------------------------------------------------------ *)
(** ** The audio flag *)

(** X6.  An [audioStateChanged] message is ignored (store unchanged,
    nothing emitted) exactly when the socket has no player, the payload is
    falsy or its [enabled] is not a boolean; otherwise the sender's
    [audioEnabled] becomes that boolean, nothing else changes, and one
    [playerAudioState] with the sender's id and the boolean goes to the
    other sockets.  The stored record is the old one with [audioEnabled]
    equal to the boolean and every other field as it was.  The flag does
    not mute: whatever it was set to, the next accepted audio frame of the
    socket sets it to true again. *)
Theorem audio_state_change_needs_a_boolean
    (s : state) (sid : string) (st : jsval) :
  let r := on_audioStateChanged sid st s in
  (r = (s, []) <->
   player_of s sid = None \/ truthy st = false \/
   is_boolean (get st "enabled") = false) /\
  (forall p b,
     player_of s sid = Some p -> truthy st = true ->
     get st "enabled" = JBool b ->
     player_of (fst r) sid = Some (Player.with_audioEnabled p b) /\
     (forall k, k <> sid -> player_of (fst r) k = player_of s k) /\
     bullets (fst r) = bullets s /\ sockets (fst r) = sockets s /\
     snd r = [ (Broadcast sid, PlayerAudioState sid b) ] /\
     player_of (fst r) sid =
       Some (Player.mk (Player.id p) (Player.x p) (Player.y p)
               (Player.angle p) (Player.color p) (Player.name p)
               (Player.health p) b (Player.lastAudioPacket p)
               (Player.connectedAt p) (Player.transport p)
               (Player.lastActivity p) (Player.lastShoot p)) /\
     bulletIdCounter (fst r) = bulletIdCounter s /\
     timers (fst r) = timers s /\ audioStats (fst r) = audioStats s /\
     forall e audioData t_packet t_latency,
       audio_guard audioData = true ->
       player_of
         (fst (on_audioStream e sid audioData t_packet t_latency (fst r))) sid
       = Some (Player.mk (Player.id p) (Player.x p) (Player.y p)
                 (Player.angle p) (Player.color p) (Player.name p)
                 (Player.health p) true t_packet
                 (Player.connectedAt p) (Player.transport p)
                 (Player.lastActivity p) (Player.lastShoot p))).
Proof.
  cbv zeta. unfold on_audioStateChanged. split.
  - destruct (player_of s sid) as [p |]; [| intuition congruence].
    destruct (truthy st); [| intuition congruence].
    destruct (get st "enabled"); simpl;
      intuition (try discriminate; try congruence).
  - intros p b G T E. rewrite G, T, E. cbn [fst snd].
    assert (G' : player_of
                   (with_players s
                      (JsMap.set String.eqb sid (Player.with_audioEnabled p b)
                         (players s))) sid
                 = Some (Player.with_audioEnabled p b)).
    { unfold player_of; simpl. apply (get_set_same _ String.eqb_spec). }
    split; [exact G' |].
    split.
    { intros k D. unfold player_of; simpl.
      now apply (get_set_other _ String.eqb_spec). }
    do 3 (split; [reflexivity |]).
    split; [exact G' |]. do 3 (split; [reflexivity |]).
    intros e audioData t_packet t_latency A.
    unfold on_audioStream.
    match goal with
    | |- context [player_of (with_audioStats ?s0 ?a) sid] =>
        change (player_of (with_audioStats s0 a) sid) with (player_of s0 sid)
    end.
    rewrite G', A. cbv zeta.
    destruct (note_latency _ _ _ _); unfold player_of;
      cbn [fst players with_players with_audioStats];
      apply (get_set_same _ String.eqb_spec).
Qed.

(** [{enabled: "yes"}] is ignored; [{enabled: false}] is not: it clears
    the flag of tank A, which has just sent a frame. *)
Example audio_state_change_samples :
  let s := Scenario.after Scenario.two_tanks in
  let s' := fst (on_audioStream Engine.table "A" Scenario.frame 2000 2000 s) in
  on_audioStateChanged "A" (JObj [("enabled", JStr "yes")]) s = (s, []) /\
  snd (on_audioStateChanged "A" (JObj [("enabled", JBool false)]) s)
  = [ (Broadcast "A", PlayerAudioState "A" false) ] /\
  option_map Player.audioEnabled (player_of s' "A") = Some true /\
  option_map Player.audioEnabled
    (player_of
       (fst (on_audioStateChanged "A" (JObj [("enabled", JBool false)]) s'))
       "A") = Some false.
Proof. vm_compute. auto. Qed.

(* ------------------------------------------------------------------ *)
(** ** The cleanup sweep *)

Lemma inactive_audio_flag now p b :
  inactive now (Player.with_audioEnabled p b) = inactive now p.
Proof. reflexivity. Qed.

Lemma sweep_keys now ps :
  JsMap.keys (fst (sweep now ps)) = JsMap.keys (kept now ps) /\
  snd (sweep now ps) =
    map (fun k => (ToAll, PlayerLeft k)) (JsMap.keys (evicted now ps)).
Proof.
  unfold kept, evicted.
  induction ps as [| [k p] ps [IH1 IH2]]; [split; reflexivity |].
  cbn [sweep filter]. unfold sweep_player. cbn [fst snd].
  destruct (audio_timed_out now p); rewrite ?inactive_audio_flag;
    destruct (inactive now p); cbn [fst snd negb JsMap.keys map app];
    (split; [| rewrite IH2; reflexivity]);
    first [ exact IH1 | f_equal; exact IH1 ].
Qed.

Lemma In_sweep_kept now ps k q :
  In (k, q) (fst (sweep now ps)) ->
  exists p, In (k, p) ps /\ inactive now p = false /\
    q = (if audio_timed_out now p then Player.with_audioEnabled p false
         else p).
Proof.
  induction ps as [| [k0 p0] ps IH]; cbn [sweep]; [intros [] |].
  unfold sweep_player. cbn [fst snd].
  destruct (audio_timed_out now p0) eqn:A; rewrite ?inactive_audio_flag;
    destruct (inactive now p0) eqn:I; cbn [fst snd];
    try (intro H; destruct (IH H) as (p & Ip & R); exists p;
         split; [now right | exact R]).
  - intros [[= <- <-] | H].
    + exists p0. rewrite A, I. auto using in_eq.
    + destruct (IH H) as (p & Ip & R). exists p. split; [now right | exact R].
  - intros [[= <- <-] | H].
    + exists p0. rewrite A, I. auto using in_eq.
    + destruct (IH H) as (p & Ip & R). exists p. split; [now right | exact R].
Qed.

(** X7.  After a cleanup sweep at time [now], the store holds exactly the
    players that were not inactive, in their order, and one [playerLeft]
    to all sockets has been emitted per evicted player, in store order
    (inactive: a [lastActivity] that is set, not 0, and more than 600000 ms
    old).  No player left in the store has [audioEnabled] set with a last
    audio packet more than 5000 ms old; apart from that flag the records
    kept are unchanged. *)
Theorem sweep_evicts_the_inactive_and_mutes_the_silent
    (now : Z) (s : state) :
  let r := cleanup now s in
  JsMap.keys (players (fst r)) = JsMap.keys (kept now (players s)) /\
  snd r = map (fun k => (ToAll, PlayerLeft k))
              (JsMap.keys (evicted now (players s))) /\
  (forall k q, In (k, q) (players (fst r)) ->
     exists p, In (k, p) (players s) /\
       q = (if audio_timed_out now p then Player.with_audioEnabled p false
            else p) /\
       (Player.audioEnabled q = true ->
        now - Player.lastAudioPacket q <= 5000) /\
       (forall t, Player.lastActivity q = Some t -> t <> 0 ->
                  now - t <= 600000)) /\
  bullets (fst r) = bullets s /\ sockets (fst r) = sockets s.
Proof.
  cbv zeta. unfold cleanup. cbn [fst snd players with_players].
  destruct (sweep_keys now (players s)) as [K O].
  split; [exact K |]. split; [exact O |]. split; [| split; reflexivity].
  intros k q H. destruct (In_sweep_kept _ _ _ _ H) as (p & Ip & I & ->).
  exists p. split; [exact Ip |]. split; [reflexivity |]. split.
  - unfold audio_timed_out. destruct (Player.audioEnabled p) eqn:A;
      cbn [andb].
    + destruct (Z.ltb_spec 5000 (now - Player.lastAudioPacket p)).
      * cbn [Player.with_audioEnabled Player.audioEnabled]. discriminate.
      * intros _. exact H0.
    + rewrite A. discriminate.
  - intros t E D.
    assert (E' : Player.lastActivity p = Some t)
      by (destruct (audio_timed_out now p); exact E).
    unfold inactive, stamped in I. rewrite E' in I.
    destruct (Z.eqb_spec t 0); [congruence |]. cbn [negb andb] in I.
    apply Z.ltb_ge in I. exact I.
Qed.

(** Tank A, last active at 2000, is evicted by the sweep at 700000, and
    tank B, silent since 3000, loses its audio flag. *)
Example sweep_of_the_stale_run :
  let s := Scenario.after Cases.stale in
  let r := cleanup 700000 s in
  JsMap.keys (players s) = [ "A"; "B" ] /\
  option_map Player.audioEnabled (player_of s "B") = Some true /\
  JsMap.keys (players (fst r)) = [ "B" ] /\
  option_map Player.audioEnabled (player_of (fst r) "B") = Some false /\
  snd r = [ (ToAll, PlayerLeft "A") ].
Proof. vm_compute. auto 6. Qed.

(* ------------------------------------------------------------------ *)
(** ** The statistics *)

Lemma next_id_le c : c <= next_id c.
Proof. unfold next_id. destruct (c <? 2 ^ 53); lia. Qed.

Lemma next_id_below c : c < 2 ^ 53 -> next_id c = c + 1.
Proof.
  intro H. unfold next_id. destruct (Z.ltb_spec c (2 ^ 53)); lia.
Qed.

(** What one event does to [audioStats]. *)
Lemma step_stats e s i s' out :
  step e s i = Some (s', out) ->
  let a := audioStats s in
  let a' := audioStats s' in
  totalPackets a' =
    (if is_audio i then next_id (totalPackets a) else totalPackets a) /\
  packetsPerSecond a' =
    (if is_audio i then next_id (packetsPerSecond a)
     else if is_second i then 0 else packetsPerSecond a) /\
  peakConcurrentUsers a' =
    (if is_second i then Z.max (peakConcurrentUsers a) (size s)
     else peakConcurrentUsers a).
Proof.
  intro S. cbv zeta.
  destruct i; cbn [step] in S; step_inv S; cbn [is_audio is_second];
    try (repeat split; reflexivity).
  - unfold on_upgrade. destruct (player_of s sid); repeat split.
  - unfold on_playerMove. destruct (player_of s sid); [| repeat split].
    destruct (move_guard data); repeat split.
  - unfold on_playerShoot. destruct (player_of s sid); [| repeat split].
    destruct (may_shoot _ now); repeat split.
  - unfold on_audioStream.
    destruct (player_of _ sid); [| repeat split].
    destruct (audio_guard audioData); [| repeat split].
    cbv zeta. unfold note_latency.
    destruct (truthy (get audioData "timestamp")); [| repeat split].
    destruct (Engine.ToNumber e _); repeat split.
  - unfold on_audioStateChanged. destruct (player_of s sid); [| repeat split].
    destruct (truthy st); [| repeat split].
    destruct (get st "enabled"); repeat split.
  - cbn [fst on_second audioStats with_audioStats totalPackets
         packetsPerSecond peakConcurrentUsers]. unfold size.
    repeat split.
    destruct (Z.ltb_spec (peakConcurrentUsers (audioStats s))
                (Z.of_nat (List.length (players s)))); lia.
Qed.

Lemma run_total e tr : forall s s' out,
  run e s tr = Some (s', out) ->
  totalPackets (audioStats s) + Z.of_nat (audio_events tr) <= 2 ^ 53 ->
  totalPackets (audioStats s') =
    totalPackets (audioStats s) + Z.of_nat (audio_events tr).
Proof.
  unfold audio_events.
  induction tr as [| i tr IH]; cbn [run filter]; intros s s' out R B.
  - injection R as <- _. simpl. lia.
  - destruct (step e s i) as [[s1 o1] |] eqn:S; [| discriminate].
    destruct (run e s1 tr) as [[s2 o2] |] eqn:R2; [| discriminate].
    injection R as <- _.
    destruct (step_stats _ _ _ _ _ S) as (T & _).
    destruct (is_audio i); cbn [List.length] in B |- *.
    + rewrite next_id_below in T by lia.
      rewrite (IH _ _ _ R2) by lia. lia.
    + rewrite (IH _ _ _ R2) by lia. lia.
Qed.

Lemma run_rate e tr : forall s s' out,
  run e s tr = Some (s', out) ->
  none_of is_second tr ->
  packetsPerSecond (audioStats s) + Z.of_nat (audio_events tr) <= 2 ^ 53 ->
  packetsPerSecond (audioStats s') =
    packetsPerSecond (audioStats s) + Z.of_nat (audio_events tr).
Proof.
  unfold audio_events.
  induction tr as [| i tr IH]; cbn [run filter]; intros s s' out R N B.
  - injection R as <- _. simpl. lia.
  - apply none_of_cons in N. destruct N as [N1 N2].
    destruct (step e s i) as [[s1 o1] |] eqn:S; [| discriminate].
    destruct (run e s1 tr) as [[s2 o2] |] eqn:R2; [| discriminate].
    injection R as <- _.
    destruct (step_stats _ _ _ _ _ S) as (_ & T & _). rewrite N1 in T.
    destruct (is_audio i); cbn [List.length] in B |- *.
    + rewrite next_id_below in T by lia.
      rewrite (IH _ _ _ R2) by (auto; lia). lia.
    + rewrite (IH _ _ _ R2) by (auto; lia). lia.
Qed.

Lemma run_app e a b : forall s s' out,
  run e s (a ++ b) = Some (s', out) ->
  exists s1 o1 o2,
    run e s a = Some (s1, o1) /\ run e s1 b = Some (s', o2) /\
    out = o1 ++ o2.
Proof.
  induction a as [| i a IH]; cbn [app run]; intros s s' out R.
  - exists s, [], out. auto.
  - destruct (step e s i) as [[s1 o1] |]; [| discriminate].
    destruct (run e s1 (a ++ b)) as [[s2 o2] |] eqn:R2; [| discriminate].
    injection R as <- <-.
    destruct (IH _ _ _ R2) as (s3 & o3 & o4 & Ra & Rb & ->).
    rewrite Ra. exists s3, (o1 ++ o3), o4. rewrite app_assoc. auto.
Qed.

(** X8.  The audio statistics count every [audioStream] message, whether
    or not it is relayed (a frame from a socket without a player, or
    without samples, counts too): since the start of the server
    [totalPackets] is the number of such messages, and after a run of the
    one-second interval [packetsPerSecond] is the number of such messages
    since (the counters are exact up to 2^53). *)
Theorem every_audio_message_is_counted
    (e : Engine.t) (before after : list input)
    (s' : state) (out : list emit) :
  run e init (before ++ Second :: after) = Some (s', out) ->
  none_of is_second after ->
  Z.of_nat (audio_events (before ++ Second :: after)) <= 2 ^ 53 ->
  totalPackets (audioStats s') =
    Z.of_nat (audio_events (before ++ Second :: after)) /\
  packetsPerSecond (audioStats s') = Z.of_nat (audio_events after).
Proof.
  intros R N B.
  split; [exact (run_total e _ init s' out R B) |].
  destruct (run_app _ _ _ _ _ _ R) as (s1 & o1 & o2 & _ & R2 & _).
  cbn [run step] in R2.
  destruct (run e (fst (on_second s1)) after) as [[s3 o3] |] eqn:R3;
    [| destruct (on_second s1); cbn [fst] in R3; rewrite R3 in R2;
       discriminate].
  assert (E : s3 = s').
  { destruct (on_second s1) as [s4 o4]. cbn [fst] in R3. rewrite R3 in R2.
    now injection R2. }
  subst s3.
  assert (A : (audio_events after
               <= audio_events (before ++ Second :: after))%nat).
  { unfold audio_events. rewrite filter_app, length_app.
    cbn [filter is_audio]. lia. }
  pose proof (run_rate e after _ s' o3 R3 N) as P.
  cbn [fst on_second audioStats with_audioStats packetsPerSecond] in P.
  rewrite P; lia.
Qed.

(** The [chatter] run: four audio messages in all, three since the
    interval ran, one of them from an evicted player and one without
    samples. *)
Lemma every_audio_message_is_counted_witness :
  exists s' out,
    run Engine.table init Cases.chatter = Some (s', out) /\
    count (fun em => match snd em with AudioStream _ => true | _ => false end)
          out = 2%nat /\
    totalPackets (audioStats s') = 4 /\
    packetsPerSecond (audioStats s') = 3.
Proof.
  do 2 eexists. split; [vm_compute; reflexivity |].
  split; [vm_compute; reflexivity |].
  refine (every_audio_message_is_counted Engine.table
            [ Scenario.join "A"; Scenario.join "B";
              AudioStreamIn "A" Scenario.frame 2000 2000 ]
            [ PlayerMove "B" (Scenario.move_to (of_Z 100) (of_Z 100)) 2100;
              Cleanup 700000;
              AudioStreamIn "B" Scenario.frame 700100 700100;
              AudioStreamIn "A" (JObj [("timestamp", JNum (of_Z 5))])
                            700200 700200;
              AudioStreamIn "A" Scenario.frame 700300 700300 ]
            _ _ _ _ _).
  - vm_compute; reflexivity.
  - vm_compute; reflexivity.
  - vm_compute; discriminate.
Defined.

Lemma run_peak e tr : forall s s' out,
  run e s tr = Some (s', out) ->
  peakConcurrentUsers (audioStats s) <= peakConcurrentUsers (audioStats s').
Proof.
  induction tr as [| i tr IH]; cbn [run]; intros s s' out R.
  - injection R as <- _. lia.
  - destruct (step e s i) as [[s1 o1] |] eqn:S; [| discriminate].
    destruct (run e s1 tr) as [[s2 o2] |] eqn:R2; [| discriminate].
    injection R as <- _.
    destruct (step_stats _ _ _ _ _ S) as (_ & _ & P).
    specialize (IH _ _ _ R2). destruct (is_second i); lia.
Qed.

(** X9.  [peakConcurrentUsers] never decreases, and whenever the
    one-second interval has just run it is at least the number of players
    in the store: a peak reached between two runs of the interval is
    recorded only if it lasts until the next run. *)
Theorem peak_users_is_sampled_once_a_second
    (e : Engine.t) (s : state) (tr : list input) (s1 : state)
    (out1 : list emit) (s2 : state) (out2 : list emit) :
  run e s tr = Some (s1, out1) ->
  step e s1 Second = Some (s2, out2) ->
  peakConcurrentUsers (audioStats s) <= peakConcurrentUsers (audioStats s1) /\
  peakConcurrentUsers (audioStats s2) =
    Z.max (peakConcurrentUsers (audioStats s1)) (size s1) /\
  size s2 <= peakConcurrentUsers (audioStats s2) /\
  players s2 = players s1.
Proof.
  intros R S. split; [exact (run_peak e tr s s1 out1 R) |].
  destruct (step_stats _ _ _ _ _ S) as (_ & _ & P). cbn [is_second] in P.
  cbn [step] in S. injection S as <- _.
  split; [exact P |]. unfold size in *.
  cbn [fst on_second players with_audioStats] in *. split; [lia | reflexivity].
Qed.

(** Tank B joins and leaves between two runs of the interval: the peak
    stays at 1. *)
Lemma peak_users_is_sampled_once_a_second_witness :
  exists s1 out1 s2 out2,
    run Engine.table init
        [ Scenario.join "A"; Second; Scenario.join "B"; Disconnect "B" ]
      = Some (s1, out1) /\
    step Engine.table s1 Second = Some (s2, out2) /\
    peakConcurrentUsers (audioStats s2) = 1 /\
    peakConcurrentUsers (audioStats init)
      <= peakConcurrentUsers (audioStats s1) /\
    peakConcurrentUsers (audioStats s2) =
      Z.max (peakConcurrentUsers (audioStats s1)) (size s1) /\
    size s2 <= peakConcurrentUsers (audioStats s2) /\
    players s2 = players s1.
Proof.
  do 4 eexists. split; [vm_compute; reflexivity |].
  split; [vm_compute; reflexivity |].
  split; [vm_compute; reflexivity |].
  refine (peak_users_is_sampled_once_a_second Engine.table init
            [ Scenario.join "A"; Second; Scenario.join "B"; Disconnect "B" ]
            _ _ _ _ _ _).
  - vm_compute; reflexivity.
  - vm_compute; reflexivity.
Defined.

(* ------------------------------------------------------------------ *)
(** ** Joining and the first shot *)

Lemma set_absent {V : Type} (k : string) (v : V) m :
  JsMap.get String.eqb k m = None -> JsMap.set String.eqb k v m = m ++ [(k, v)].
Proof.
  induction m as [| [k' v'] m IH]; simpl; [reflexivity |].
  destruct (String.eqb k k'); [discriminate |]. intro H. now rewrite IH.
Qed.

Lemma filter_all {A : Type} (f : A -> bool) (l : list A) :
  (forall x, In x l -> f x = true) -> filter f l = l.
Proof.
  induction l as [| a l IH]; simpl; [reflexivity |]. intro H.
  rewrite (H a) by auto. f_equal. auto.
Qed.

(** X10.  A connection under a socket id that is not in use adds one
    player at the end of the store, with health 100, audio off and neither
    [lastActivity] nor [lastShoot].  The new socket receives one
    [gameState] snapshot, which lists every player, itself last, and all
    bullets; every socket connected before receives one [playerJoined]
    with the new player; nothing else is emitted. *)
Theorem a_new_player_gets_a_snapshot
    (e : Engine.t) (s : state) (sid transport : string) (rx ry : num)
    (color name : string) (t_audio t_conn : Z) (s' : state)
    (out : list emit) :
  wf s ->
  step e s (Connection sid transport rx ry color name t_audio t_conn)
    = Some (s', out) ->
  let p := newPlayer sid transport rx ry color name t_audio t_conn in
  players s' = players s ++ [ (sid, p) ] /\
  sockets s' = sockets s ++ [ sid ] /\
  bullets s' = bullets s /\
  out = [ (ToSocket sid,
           GameState (JsMap.values (players s) ++ [ p ])
                     (JsMap.values (bullets s)) transport);
          (Broadcast sid, PlayerJoined p) ] /\
  delivered (sockets s') out = sid :: sockets s /\
  Player.health p = 100 /\ Player.audioEnabled p = false /\
  Player.lastActivity p = None /\ Player.lastShoot p = None.
Proof.
  intros W S p. cbn [step] in S. step_inv S.
  match goal with H : connected s sid = false |- _ =>
    apply connected_false in H; rename H into C end.
  assert (A : JsMap.get String.eqb sid (players s) = None).
  { destruct (JsMap.get String.eqb sid (players s)) as [q |] eqn:G;
      [| reflexivity].
    exfalso. apply C. apply (wf_online s W sid q).
    apply (get_In _ String.eqb_spec). exact G. }
  cbn [fst snd on_connection players sockets bullets with_players
       with_sockets].
  fold p. rewrite (set_absent sid p _ A).
  split; [reflexivity |]. split; [reflexivity |]. split; [reflexivity |].
  split.
  { unfold JsMap.values. rewrite map_app. reflexivity. }
  split; [| repeat split].
  unfold delivered. cbn [flat_map fst recipients]. rewrite app_nil_r.
  rewrite !filter_app. cbn [filter]. rewrite String.eqb_refl. cbn [negb].
  rewrite (filter_none (String.eqb sid) (sockets s)).
  - rewrite app_nil_r. cbn [app]. f_equal.
    apply filter_all. intros c I. apply negb_true_iff, String.eqb_neq.
    intros ->. exact (C I).
  - intros c I. apply String.eqb_neq. intros ->. exact (C I).
Qed.

(** Tank C joins tanks A and B. *)
Lemma a_new_player_gets_a_snapshot_witness :
  let s := Scenario.after Scenario.two_tanks in
  exists s' out,
    step Engine.table s (Scenario.join "C") = Some (s', out) /\
    let p := newPlayer "C" "websocket" (of_Z 0) (of_Z 0) "hsl(0, 70%, 50%)"
               "Tank0" 1000 1000 in
    players s' = players s ++ [ ("C", p) ] /\
    sockets s' = sockets s ++ [ "C" ] /\
    bullets s' = bullets s /\
    out = [ (ToSocket "C",
             GameState (JsMap.values (players s) ++ [ p ])
                       (JsMap.values (bullets s)) "websocket");
            (Broadcast "C", PlayerJoined p) ] /\
    delivered (sockets s') out = "C" :: sockets s /\
    Player.health p = 100 /\ Player.audioEnabled p = false /\
    Player.lastActivity p = None /\ Player.lastShoot p = None.
Proof.
  intro s. do 2 eexists. split; [vm_compute; reflexivity |].
  refine (a_new_player_gets_a_snapshot Engine.table s "C" "websocket"
            (of_Z 0) (of_Z 0) "hsl(0, 70%, 50%)" "Tank0" 1000 1000 _ _
            (wf_after Scenario.two_tanks) _).
  vm_compute; reflexivity.
Defined.

(** Player [sid], if in the store, has not fired yet. *)
Lemma step_unshot e s i s' out sid :
  wf s -> step e s i = Some (s', out) -> is_shoot sid i = false ->
  (forall p, player_of s sid = Some p -> Player.lastShoot p = None) ->
  forall q, player_of s' sid = Some q -> Player.lastShoot q = None.
Proof.
  intros W S N U q G.
  destruct (step_player _ _ _ _ _ _ _ W S G)
    as [(_ & _ & E) | (p & Gp & _ & [E | (now & -> & _)])].
  - exact E.
  - rewrite E. now apply U.
  - cbn [is_shoot] in N. rewrite String.eqb_refl in N. discriminate.
Qed.

Lemma run_unshot e sid tr : forall s s' out,
  wf s -> run e s tr = Some (s', out) -> none_of (is_shoot sid) tr ->
  (forall p, player_of s sid = Some p -> Player.lastShoot p = None) ->
  forall q, player_of s' sid = Some q -> Player.lastShoot q = None.
Proof.
  induction tr as [| i tr IH]; cbn [run]; intros s s' out W R N U.
  - injection R as <- _. exact U.
  - apply none_of_cons in N. destruct N as [N1 N2].
    destruct (step e s i) as [[s1 o1] |] eqn:S; [| discriminate].
    destruct (run e s1 tr) as [[s2 o2] |] eqn:R2; [| discriminate].
    injection R as <- _.
    apply (IH s1 s2 o2); auto.
    + eapply step_wf; eauto.
    + eapply step_unshot; eauto.
Qed.

(** X11.  The first shot of a connection always fires: a player has no
    [lastShoot] until its first [playerShoot], so that request, whenever
    it comes and whatever else has happened, creates a bullet at the
    player's position and angle, provided the player is still in the
    store. *)
Theorem the_first_shot_always_fires
    (e : Engine.t) (pre : list input) (s0 : state) (out0 : list emit)
    (sid transport : string) (rx ry : num) (color name : string)
    (t_audio t_conn : Z) (s1 : state) (out1 : list emit)
    (mid : list input) (s2 : state) (out2 : list emit) (p : Player.t)
    (now : Z) (s3 : state) (out3 : list emit) :
  run e init pre = Some (s0, out0) ->
  step e s0 (Connection sid transport rx ry color name t_audio t_conn)
    = Some (s1, out1) ->
  none_of (is_shoot sid) mid ->
  run e s1 mid = Some (s2, out2) ->
  player_of s2 sid = Some p ->
  step e s2 (PlayerShoot sid now) = Some (s3, out3) ->
  Player.lastShoot p = None /\
  out3 = [ (ToAll, BulletCreated
                     (Bullet.mk (bulletIdCounter s2) sid (Player.x p)
                        (Player.y p) (Player.angle p) (of_Z 300) now)) ] /\
  player_of s3 sid = Some (Player.shot p now) /\
  JsMap.get Z.eqb (bulletIdCounter s2) (bullets s3) =
    Some (Bullet.mk (bulletIdCounter s2) sid (Player.x p) (Player.y p)
            (Player.angle p) (of_Z 300) now).
Proof.
  intros R0 S1 N R2 G S3.
  assert (W0 : wf s0) by (eapply run_wf; [exact R0 | apply wf_init]).
  assert (W1 : wf s1) by (eapply step_wf; eauto).
  assert (U1 : forall q, player_of s1 sid = Some q -> Player.lastShoot q = None).
  { intros q Gq. cbn [step] in S1. step_inv S1.
    unfold player_of in Gq. cbn [fst on_connection players with_players] in Gq.
    rewrite (get_set_same _ String.eqb_spec) in Gq. injection Gq as <-.
    reflexivity. }
  pose proof (run_unshot e sid mid s1 s2 out2 W1 R2 N U1 p G) as L.
  split; [exact L |].
  cbn [step] in S3. step_inv S3. unfold on_playerShoot. rewrite G, L.
  cbn [may_shoot stamped negb orb fst snd]. split; [reflexivity |]. split.
  - unfold player_of. cbn [players]. apply (get_set_same _ String.eqb_spec).
  - cbn [bullets new_bullet Bullet.id]. apply (get_set_same _ Z.eqb_spec).
Qed.

(** Tank A joins, moves and sends audio, then fires at time 0. *)
Lemma the_first_shot_always_fires_witness :
  exists s1 out1 s2 out2 p s3 out3,
    step Engine.table init (Scenario.join "A") = Some (s1, out1) /\
    run Engine.table s1 Cases.warm_up = Some (s2, out2) /\
    player_of s2 "A" = Some p /\
    step Engine.table s2 (PlayerShoot "A" 0) = Some (s3, out3) /\
    Player.lastShoot p = None /\
    out3 = [ (ToAll, BulletCreated
                       (Bullet.mk (bulletIdCounter s2) "A" (Player.x p)
                          (Player.y p) (Player.angle p) (of_Z 300) 0)) ] /\
    player_of s3 "A" = Some (Player.shot p 0) /\
    JsMap.get Z.eqb (bulletIdCounter s2) (bullets s3) =
      Some (Bullet.mk (bulletIdCounter s2) "A" (Player.x p) (Player.y p)
              (Player.angle p) (of_Z 300) 0).
Proof.
  do 7 eexists.
  split; [vm_compute; reflexivity |].
  split; [vm_compute; reflexivity |].
  split; [vm_compute; reflexivity |].
  split; [vm_compute; reflexivity |].
  refine (the_first_shot_always_fires Engine.table [] init []
            "A" "websocket" (of_Z 0) (of_Z 0) "hsl(0, 70%, 50%)" "Tank0"
            1000 1000 _ _ Cases.warm_up _ _ _ 0 _ _ _ _ _ _ _ _).
  - reflexivity.
  - vm_compute; reflexivity.
  - vm_compute; reflexivity.
  - vm_compute; reflexivity.
  - vm_compute; reflexivity.
  - vm_compute; reflexivity.
Defined.

(* ------------------------------------------------------------------ *)
(** ** Samples outside [-1, 1] *)

Section Clipping.
Import Codec.
Local Open Scope Z_scope.

(** The scaled value with its fraction dropped, on the mantissa. *)
Lemma trunc_scaled (s : bool) (m : positive) (e : Z) :
  trunc (value (S754_finite s m e) * (32767 # 1))%Q
  = cond_Zopp s (match e with
                 | Zneg p => Zpos m * 32767 / 2 ^ Zpos p
                 | _ => Zpos m * 2 ^ e * 32767
                 end).
Proof.
  unfold trunc, value, Qmult.
  destruct e as [| p | p]; cbn [Qnum Qden inject_Z].
  - rewrite Z.quot_1_r. destruct s; cbn [cond_Zopp]; lia.
  - rewrite Z.quot_1_r. destruct s; cbn [cond_Zopp]; lia.
  - rewrite Pos.mul_1_r, Pos2Z.inj_pow.
    assert (PA : 0 < 2 ^ Zpos p) by (apply Z.pow_pos_nonneg; lia).
    destruct s; cbn [cond_Zopp].
    + rewrite Z.mul_opp_l, Z.quot_opp_l by lia.
      f_equal. apply Z.quot_div_nonneg; lia.
    + apply Z.quot_div_nonneg; lia.
Qed.

Lemma float32_shape (s : bool) (m : positive) (e : Z) :
  float32 (S754_finite s m e) = true ->
  Zpos m < 2 ^ 24 /\ -149 <= e <= 104.
Proof.
  unfold float32, is_finite, valid_binary, bounded, canonical_mantissa,
    fexp, emin. cbn [andb]. intro V.
  apply andb_true_iff in V. destruct V as [V V']. apply Z.eqb_eq in V.
  apply Z.leb_le in V'.
  pose proof (digits2_pos_bounds m) as [B1 B2].
  set (d := Zpos (digits2_pos m)) in *.
  assert (Hd : 0 < d) by (unfold d; lia).
  assert (d <= 24 /\ -149 <= e) as [Hd' He] by lia.
  split; [| lia].
  assert (2 ^ d <= 2 ^ 24) by (apply Z.pow_le_mono_r; lia). lia.
Qed.

(** The floor of [m * 32767 * 2^e]. *)
Lemma scaled_floor (m m' : positive) (e n : Z) :
  0 <= n <= 38 -> Zpos m' * 2 ^ n = Zpos m * 32767 * 2 ^ 38 ->
  4503599627370496 <= Zpos m' < 9007199254740992 ->
  let U := match e with
           | Zneg p => Zpos m * 32767 / 2 ^ Zpos p
           | _ => Zpos m * 2 ^ e * 32767
           end in
  (e + n <= 0 -> U = Zpos m' / 2 ^ (38 - (e + n))) /\
  (1 <= e + n -> 32768 <= U).
Proof.
  intros Hn V B U.
  assert (Pn : 0 < 2 ^ n) by (apply Z.pow_pos_nonneg; lia).
  assert (Pn' : 0 < 2 ^ (38 - n)) by (apply Z.pow_pos_nonneg; lia).
  assert (E3 : Zpos m' = Zpos m * 32767 * 2 ^ (38 - n)).
  { apply Z.mul_reg_r with (p := 2 ^ n); [lia |]. rewrite V.
    replace (2 ^ 38) with (2 ^ (38 - n) * 2 ^ n)
      by (rewrite <- Z.pow_add_r by lia; f_equal; lia).
    ring. }
  split.
  - intro L. destruct e as [| p | p]; try lia.
    + assert (n = 0) by lia. subst n. unfold U.
      change (2 ^ 0) with 1 in *. rewrite Z.sub_0_r in E3.
      replace (38 - (0 + 0)) with 38 by lia.
      rewrite E3, Z.mul_1_r. symmetry. apply Z.div_mul.
      apply Z.pow_nonzero; lia.
    + unfold U.
      replace (38 - (Zneg p + n)) with (Zpos p + (38 - n)) by lia.
      rewrite Z.pow_add_r by lia. rewrite E3. symmetry.
      apply Z.div_mul_cancel_r; [apply Z.pow_nonzero; lia | lia].
  - intro L. destruct e as [| p | p].
    + unfold U. change (2 ^ 0) with 1.
      assert (2 ^ 1 <= 2 ^ n) by (apply Z.pow_le_mono_r; lia).
      change (2 ^ 1) with 2 in *. change (2 ^ 38) with 274877906944 in V.
      assert (X : 4503599627370496 * 2 <= Zpos m' * 2 ^ n)
        by (apply Z.mul_le_mono_nonneg; lia).
      lia.
    + unfold U.
      assert (2 ^ 1 <= 2 ^ Zpos p) by (apply Z.pow_le_mono_r; lia).
      change (2 ^ 1) with 2 in *.
      set (a := 2 ^ Zpos p) in *. clearbody a. clear - H. nia.
    + unfold U.
      assert (Pp : 0 < 2 ^ Zpos p) by (apply Z.pow_pos_nonneg; lia).
      apply Z.div_le_lower_bound; [exact Pp |].
      assert (E4 : 2 ^ n = 2 ^ (n - Zpos p) * 2 ^ Zpos p)
        by (rewrite <- Z.pow_add_r by lia; f_equal; lia).
      assert (2 ^ 1 <= 2 ^ (n - Zpos p)) by (apply Z.pow_le_mono_r; lia).
      change (2 ^ 1) with 2 in *.
      change (2 ^ 38) with 274877906944 in V. rewrite E4 in V.
      set (a := 2 ^ Zpos p) in *. set (b := 2 ^ (n - Zpos p)) in *.
      clearbody a b. clear E3 E4 Pn Pn' U.
      assert (X : 4503599627370496 * 2 <= Zpos m' * b)
        by (apply Z.mul_le_mono_nonneg; lia).
      assert (Y : 4503599627370496 * 2 * a <= Zpos m' * b * a)
        by (apply Z.mul_le_mono_nonneg_r; lia).
      lia.
Qed.

Lemma compress_finite_clipped (s : bool) (m : positive) (e : Z) :
  Zpos m < 2 ^ 24 -> -149 <= e <= 104 ->
  compress_sample (S754_finite s m e)
  = Z.max (-32768)
      (Z.min 32767
         (cond_Zopp s (match e with
                       | Zneg p => Zpos m * 32767 / 2 ^ Zpos p
                       | _ => Zpos m * 2 ^ e * 32767
                       end))).
Proof.
  intros Hm He.
  destruct (mul_32767 s m e Hm ltac:(lia)) as (m' & n & Hn & E & D & V).
  pose proof (digits2_pos_bounds m') as B. rewrite D in B.
  change (2 ^ (53 - 1)) with 4503599627370496 in B.
  change (2 ^ 53) with 9007199254740992 in B.
  destruct (scaled_floor m m' e n Hn V B) as [Ulow Uhigh].
  cbv zeta in Ulow, Uhigh.
  set (U := match e with
            | Zneg p => Zpos m * 32767 / 2 ^ Zpos p
            | _ => Zpos m * 2 ^ e * 32767
            end) in *.
  clearbody U. unfold compress_sample. rewrite E. clear E V D.
  replace (e - 38 + n) with (e + n - 38) by lia.
  set (k := e + n) in *. clearbody k. clear e n He Hn Hm.
  destruct (Z_le_gt_dec k 0) as [L | G].
  - (* the product is below 32768 in magnitude *)
    specialize (Ulow L). clear Uhigh.
    set (q := 38 - k) in *.
    assert (Eq : k - 38 = - q) by (unfold q; lia). rewrite Eq.
    assert (Hq : 38 <= q) by (unfold q; lia). clearbody q. clear Eq L k.
    assert (Pq : 0 < 2 ^ q) by (apply Z.pow_pos_nonneg; lia).
    assert (P38 : 2 ^ 38 <= 2 ^ q) by (apply Z.pow_le_mono_r; lia).
    change (2 ^ 38) with 274877906944 in P38.
    assert (U0 : 0 <= U) by (subst U; apply Z.div_pos; lia).
    destruct q as [| q | q]; try lia. cbn [Z.opp].
    assert (In_range : U <= 32767 ->
              (Zpos q = 38 -> Zpos m' <= 9006924376834048) ->
              ToInt16 (Math_max (of_Z (-32768))
                         (Math_min (of_Z 32767) (S754_finite s m' (Zneg q))))
              = Z.max (-32768) (Z.min 32767 (cond_Zopp s U))).
    { intros U1 Hc. rewrite clamp_id by lia. cbn [ToInt16]. rewrite <- Ulow.
      rewrite wrap16_id by (destruct s; cbn [cond_Zopp]; lia).
      destruct s; cbn [cond_Zopp]; lia. }
    destruct (Z_le_gt_dec 39 (Zpos q)) as [L39 | G39].
    + (* below 16384 *)
      apply In_range; [| lia].
      assert (2 ^ 39 <= 2 ^ Zpos q) by (apply Z.pow_le_mono_r; lia).
      change (2 ^ 39) with 549755813888 in H.
      subst U. apply Z.div_le_upper_bound; lia.
    + assert (Q : q = 38%positive) by lia. subst q.
      change (2 ^ 38) with 274877906944 in *.
      destruct (Z_le_gt_dec (Zpos m') 9006924376834048) as [Lm | Gm].
      * (* at most 32767: the clamp does nothing *)
        apply In_range; [| intros _; exact Lm].
        subst U. apply Z.div_le_upper_bound; lia.
      * (* between 32767 and 32768: only the fraction is dropped *)
        clear In_range.
        assert (U1 : U = 32767).
        { subst U. symmetry. apply Z.div_unique with
            (r := Zpos m' - 274877906944 * 32767); lia. }
        rewrite of_Z_32767, of_Z_m32768, Math_min_fin.
        destruct s.
        -- rewrite SFltb_neg_pos, Math_max_fin, SFltb_neg_neg.
           change (-37 ?= -38) with Gt. cbn [ToInt16 cond_Zopp].
           change (2 ^ 38) with 274877906944. rewrite <- Ulow, U1.
           vm_compute. reflexivity.
        -- rewrite SFltb_pos_pos. change (-38 ?= -38) with Eq.
           destruct (Pos.compare_spec m' 9006924376834048) as [X | X | X].
           ++ exfalso. rewrite X in Gm. clear - Gm. lia.
           ++ exfalso. apply Pos2Z.pos_lt_pos in X. clear - Gm X. lia.
           ++ rewrite U1. vm_compute. reflexivity.
  - (* 32768 or more in magnitude *)
    specialize (Uhigh ltac:(lia)). clear Ulow.
    rewrite of_Z_32767, of_Z_m32768, Math_min_fin.
    destruct s.
    + rewrite SFltb_neg_pos, Math_max_fin, SFltb_neg_neg.
      replace (Z.max (-32768) (Z.min 32767 (cond_Zopp true U)))
        with (-32768) by (cbn [cond_Zopp]; lia).
      destruct (Z.compare_spec (-37) (k - 38)) as [C | C | C].
      * rewrite <- C.
        destruct (Pos.compare_spec 4503599627370496 m') as [C' | C' | C'];
          try (vm_compute; reflexivity).
        exfalso. apply Pos2Z.pos_lt_pos in C'. clear - B C'. lia.
      * vm_compute. reflexivity.
      * exfalso. clear - G C. lia.
    + rewrite SFltb_pos_pos.
      replace (Z.max (-32768) (Z.min 32767 (cond_Zopp false U)))
        with 32767 by (cbn [cond_Zopp]; lia).
      destruct (Z.compare_spec (k - 38) (-38)) as [C | C | C];
        [exfalso; clear - G C; lia | exfalso; clear - G C; lia |].
      vm_compute. reflexivity.
Qed.

(** X12.  What [compressAudio] stores for any element of a
    [Float32Array], not only for a sample of [-1, 1]: the value scaled by
    32767 with its fraction dropped, held to [-32768, 32767] (a loud
    sample is clipped, it does not wrap around); the infinities give the
    two ends of that range and a NaN gives 0. *)
Theorem loud_samples_are_clipped (x : spec_float) :
  valid_binary 24 128 x = true ->
  compress_sample x
  = match x with
    | S754_nan => 0
    | S754_infinity false => 32767
    | S754_infinity true => -32768
    | _ => Z.max (-32768) (Z.min 32767 (trunc (value x * (32767 # 1))%Q))
    end.
Proof.
  intro V. destruct x as [s | s | | s m e].
  - destruct s; reflexivity.
  - destruct s; reflexivity.
  - reflexivity.
  - rewrite trunc_scaled.
    assert (F : float32 (S754_finite s m e) = true) by exact V.
    destruct (float32_shape s m e F) as [Hm He].
    now apply compress_finite_clipped.
Qed.

(** The sample -1.5 is clipped to -32768. *)
Lemma loud_samples_are_clipped_witness :
  let loud := S754_finite true 12582912 (-23) in
  valid_binary 24 128 loud = true /\
  compress_sample loud
  = Z.max (-32768) (Z.min 32767 (trunc (value loud * (32767 # 1))%Q)) /\
  compress_sample loud = -32768.
Proof.
  intro loud. split; [vm_compute; reflexivity |].
  split; [| vm_compute; reflexivity].
  apply (loud_samples_are_clipped loud). vm_compute. reflexivity.
Defined.

(** Just outside [-1, 1] nothing is clipped yet: -(1 + 2^-23) is stored
    as -32767, and 3 as 32767. *)
Example compress_sample_near_the_ends :
  compressAudio [ S754_finite true 8388609 (-23);
                  S754_finite false 12582912 (-22) ]
  = [ -32767; 32767 ].
Proof. vm_compute. reflexivity. Qed.

End Clipping.

(* ------------------------------------------------------------------ *)
(** ** The client's maps follow the server's *)

Lemma keys_set_congr {K V V' : Type} (eqb : K -> K -> bool)
    (k : K) (v : V) (v' : V') m m' :
  JsMap.keys m = JsMap.keys m' ->
  JsMap.keys (JsMap.set eqb k v m) = JsMap.keys (JsMap.set eqb k v' m').
Proof.
  revert m'. induction m as [| [k1 v1] m IH]; intros [| [k2 v2] m'];
    simpl; try discriminate; [reflexivity |].
  intros [= <- E]. destruct (eqb k k1); simpl; f_equal; auto.
Qed.

Section KeyLists.
Context {K V : Type} (eqb : K -> K -> bool).
Hypothesis eqb_spec : forall a b, reflect (a = b) (eqb a b).

Lemma keys_delete (k : K) (m : list (K * V)) :
  JsMap.keys (JsMap.delete eqb k m)
  = filter (fun k' => negb (eqb k k')) (JsMap.keys m).
Proof.
  induction m as [| [k1 v1] m IH]; simpl; [reflexivity |].
  destruct (eqb k k1); simpl; now rewrite IH.
Qed.

Lemma filter_filter {A : Type} (f g : A -> bool) (l : list A) :
  filter g (filter f l) = filter (fun a => f a && g a) l.
Proof.
  induction l as [| a l IH]; simpl; [reflexivity |].
  destruct (f a); simpl; [destruct (g a) |]; now rewrite IH.
Qed.

(** Storing a list of records under their ids in an empty map gives the
    list back when no id occurs twice. *)
Lemma fold_set_fresh (key : V -> K) (l : list V) : forall m,
  NoDup (JsMap.keys m ++ map key l) ->
  fold_left (fun m v => JsMap.set eqb (key v) v m) l m
  = m ++ map (fun v => (key v, v)) l.
Proof.
  induction l as [| v l IH]; intros m N; simpl.
  - now rewrite app_nil_r.
  - assert (A : JsMap.get eqb (key v) m = None).
    { apply (get_None_keys _ eqb_spec). intro I.
      apply NoDup_remove_2 in N. apply N. apply in_or_app. now left. }
    assert (E : JsMap.set eqb (key v) v m = m ++ [(key v, v)]).
    { clear - A. induction m as [| [k1 v1] m IH]; simpl in *; [reflexivity |].
      destruct (eqb (key v) k1); [discriminate |]. now rewrite IH. }
    rewrite E, IH.
    + now rewrite <- app_assoc.
    + unfold JsMap.keys in *. rewrite map_app, <- app_assoc. exact N.
Qed.

End KeyLists.

Lemma get_map_values {K V V' : Type} (eqb : K -> K -> bool) (f : V -> V')
    (k : K) (m : list (K * V)) :
  JsMap.get eqb k (map (fun q => (fst q, f (snd q))) m)
  = option_map f (JsMap.get eqb k m).
Proof.
  induction m as [| [k1 v1] m IH]; simpl; [reflexivity |].
  destruct (eqb k k1); [reflexivity | exact IH].
Qed.

Lemma keys_map_values {K V V' : Type} (f : V -> V') (m : list (K * V)) :
  JsMap.keys (map (fun q => (fst q, f (snd q))) m) = JsMap.keys m.
Proof. unfold JsMap.keys. rewrite map_map. reflexivity. Qed.

Lemma values_by_id {K V : Type} (key : V -> K) (m : list (K * V)) :
  (forall k v, In (k, v) m -> key v = k) ->
  map (fun v => (key v, v)) (JsMap.values m) = m.
Proof.
  induction m as [| [k v] m IH]; simpl; [reflexivity |]. intro H.
  rewrite (H k v) by auto. f_equal. apply IH. intros; apply H; auto.
Qed.

(** Storing, under their ids, the encoded records of a map with one entry
    per id gives the map of the encoded records. *)
Lemma gameState_entries {K V V' : Type} (eqb : K -> K -> bool)
    (eqb_spec : forall a b, reflect (a = b) (eqb a b))
    (key : V -> K) (key' : V' -> K) (f : V -> V')
    (Hkey : forall v, key' (f v) = key v) (m : list (K * V)) :
  NoDup (JsMap.keys m) ->
  (forall k v, In (k, v) m -> key v = k) ->
  fold_left (fun acc v => JsMap.set eqb (key' v) v acc)
    (map f (JsMap.values m)) []
  = map (fun q => (fst q, f (snd q))) m.
Proof.
  intros N Ids. rewrite (fold_set_fresh eqb eqb_spec).
  - cbn [app]. rewrite map_map. unfold JsMap.values. rewrite map_map.
    apply map_ext_in. intros [k v] I. cbn [fst snd].
    now rewrite Hkey, (Ids k v I).
  - cbn [JsMap.keys map app]. rewrite map_map.
    replace (map (fun v => key' (f v)) (JsMap.values m))
      with (JsMap.keys m); [exact N |].
    unfold JsMap.keys, JsMap.values. rewrite map_map.
    apply map_ext_in. intros [k v] I. cbn [fst snd].
    now rewrite Hkey, (Ids k v I).
Qed.

(** *** Which messages reach the socket *)

Lemma reach_all sid socks :
  In sid socks -> existsb (String.eqb sid) (recipients socks ToAll) = true.
Proof.
  intro I. apply existsb_exists. exists sid. split; [exact I |].
  apply String.eqb_refl.
Qed.

Lemma reach_broadcast sid socks c :
  In sid socks -> sid <> c ->
  existsb (String.eqb sid) (recipients socks (Broadcast c)) = true.
Proof.
  intros I N. apply existsb_exists. exists sid.
  split; [| apply String.eqb_refl]. cbn [recipients]. apply filter_In.
  split; [exact I |]. now apply negb_true_iff, String.eqb_neq.
Qed.

Lemma reach_not sid socks t :
  ~ In sid (recipients socks t) ->
  existsb (String.eqb sid) (recipients socks t) = false.
Proof.
  intro N. destruct (existsb _ _) eqn:E; [| reflexivity].
  apply existsb_exists in E. destruct E as (x & I & E).
  apply String.eqb_eq in E. subst x. contradiction.
Qed.

Lemma reach_own_broadcast sid socks :
  existsb (String.eqb sid) (recipients socks (Broadcast sid)) = false.
Proof.
  apply reach_not. cbn [recipients]. rewrite filter_In.
  rewrite String.eqb_refl. intros [_ [=]].
Qed.

Lemma reach_other_socket sid socks c :
  sid <> c -> existsb (String.eqb sid) (recipients socks (ToSocket c)) = false.
Proof.
  intro N. apply reach_not. cbn [recipients]. rewrite filter_In.
  intros [_ E]. apply String.eqb_eq in E. congruence.
Qed.

Lemma reach_own_socket sid socks :
  In sid socks ->
  existsb (String.eqb sid) (recipients socks (ToSocket sid)) = true.
Proof.
  intro I. apply existsb_exists. exists sid.
  split; [| apply String.eqb_refl]. cbn [recipients]. apply filter_In.
  split; [exact I | apply String.eqb_refl].
Qed.

Lemma inbox_all sid socks out :
  In sid socks -> (forall em, In em out -> fst em = ToAll) ->
  Client.inbox sid socks out = map snd out.
Proof.
  intros I H. unfold Client.inbox. f_equal. apply filter_all.
  intros em J. rewrite (H em J). now apply reach_all.
Qed.

(** *** What a batch of removals does to the client *)

Lemma client_after_destroys out : forall c,
  (forall em, In em out ->
     match snd em with
     | BulletDestroyed _ | PlayerDamaged _ _ => True
     | _ => False
     end) ->
  JsMap.keys (Client.bullets (fold_left Client.receive (map Wire.encode (map snd out)) c))
  = filter (fun k => negb (existsb (destroys k) out))
      (JsMap.keys (Client.bullets c)) /\
  Client.players (fold_left Client.receive (map Wire.encode (map snd out)) c)
  = Client.players c.
Proof.
  induction out as [| [t m] out IH]; intros c H.
  - cbn [map fold_left existsb negb]. split; [| reflexivity].
    symmetry. now apply filter_all.
  - assert (H' : forall em, In em out ->
       match snd em with
       | BulletDestroyed _ | PlayerDamaged _ _ => True | _ => False end)
      by (intros; apply H; now right).
    pose proof (H (t, m) (or_introl eq_refl)) as Hm. cbn [snd] in Hm.
    cbn [map fold_left snd existsb].
    destruct m; try contradiction; cbn [Wire.encode Client.receive].
    + destruct (IH (Client.on_bulletDestroyed id c) H') as [E1 E2].
      rewrite E1, E2. split; [| reflexivity].
      cbn [Client.on_bulletDestroyed Client.bullets].
      rewrite keys_delete, filter_filter. apply filter_ext. intro k.
      unfold destroys at 1. cbn [snd]. now rewrite negb_orb.
    + destruct (IH c H') as [E1 E2]. rewrite E1, E2.
      split; [| reflexivity]. apply filter_ext. intro k.
      unfold destroys at 1. reflexivity.
Qed.

Lemma client_after_leaves out : forall c,
  (forall em, In em out ->
     match snd em with PlayerLeft _ => True | _ => False end) ->
  JsMap.keys (Client.players (fold_left Client.receive (map Wire.encode (map snd out)) c))
  = filter (fun k => negb (existsb (leaves k) out))
      (JsMap.keys (Client.players c)) /\
  Client.bullets (fold_left Client.receive (map Wire.encode (map snd out)) c)
  = Client.bullets c /\
  forall k, existsb (leaves k) out = false ->
    JsMap.get String.eqb k
      (Client.players (fold_left Client.receive (map Wire.encode (map snd out)) c))
    = JsMap.get String.eqb k (Client.players c).
Proof.
  induction out as [| [t m] out IH]; intros c H.
  - cbn [map fold_left existsb negb]. split; [| split; reflexivity].
    symmetry. now apply filter_all.
  - assert (H' : forall em, In em out ->
       match snd em with PlayerLeft _ => True | _ => False end)
      by (intros; apply H; now right).
    pose proof (H (t, m) (or_introl eq_refl)) as Hm. cbn [snd] in Hm.
    cbn [map fold_left snd existsb].
    destruct m; try contradiction; cbn [Wire.encode Client.receive].
    destruct (IH (Client.on_playerLeft id c) H') as (E1 & E2 & E3).
    rewrite E1, E2. split; [| split; [reflexivity |]].
    + cbn [Client.on_playerLeft Client.players].
      rewrite keys_delete, filter_filter. apply filter_ext. intro k.
      unfold leaves at 1. cbn [snd]. now rewrite negb_orb.
    + intros k N. apply orb_false_iff in N. destruct N as [N1 N2].
      rewrite (E3 k N2). cbn [Client.on_playerLeft Client.players].
      apply (get_delete_other _ String.eqb_spec).
      unfold leaves in N1. cbn [snd] in N1. apply String.eqb_neq in N1.
      congruence.
Qed.

(** *** What the game loop and the sweep remove *)

Lemma tick_bullets_destroys e ps bs k :
  existsb (destroys k) (snd (tick_bullets e ps bs)) = true ->
  In k (JsMap.keys bs).
Proof.
  intro X. apply existsb_exists in X. destruct X as (em & I & D).
  destruct (In_tick_bullets _ _ _ _ I) as [(id & b & J & ->) | (k' & p & _ & ->)];
    unfold destroys in D; cbn [snd] in D; [| discriminate].
  apply Z.eqb_eq in D. subst id. apply (In_keys k b). exact J.
Qed.

Lemma resolve_destroys ps k b k0 :
  existsb (destroys k0) (snd (resolve ps k b))
  = match fst (resolve ps k b) with
    | None => Z.eqb k k0
    | Some _ => false
    end /\
  (forall kept, fst (resolve ps k b) = Some kept -> fst kept = k).
Proof.
  unfold resolve. destruct (outside b); cbn [fst snd].
  - split; [| discriminate]. cbn [existsb]. unfold destroys. cbn [snd].
    now rewrite orb_false_r.
  - rewrite collide_victims. unfold victims.
    induction ps as [| q ps [IH1 IH2]]; cbn [filter existsb flat_map].
    + split; [reflexivity |]. now intros kept [= <-].
    + destruct (hits b (snd q)) eqn:Hq; cbn [orb flat_map app existsb].
      * split; [| discriminate]. unfold destroys at 1 2. cbn [snd orb].
        destruct (Z.eqb k k0); [reflexivity |]. cbn [orb].
        rewrite IH1. now destruct (existsb _ ps).
      * exact (conj IH1 IH2).
Qed.

Lemma keys_tick_bullets e ps bs :
  NoDup (JsMap.keys bs) ->
  JsMap.keys (fst (tick_bullets e ps bs))
  = filter (fun k => negb (existsb (destroys k) (snd (tick_bullets e ps bs))))
      (JsMap.keys bs).
Proof.
  induction bs as [| [k b] bs IH]; intro N; [reflexivity |].
  inversion N as [| ? ? N1 N2]; subst. specialize (IH N2).
  cbn [tick_bullets]. unfold tick_bullet. cbn [fst snd].
  destruct (advance e b) as [b' |].
  - cbv zeta. cbn [fst snd JsMap.keys map filter].
    rewrite existsb_app.
    destruct (resolve_destroys ps k b' k) as [D1 D2]. rewrite D1.
    assert (T : filter (fun k0 => negb (existsb (destroys k0)
                  (snd (resolve ps k b') ++ snd (tick_bullets e ps bs))))
                  (map fst bs)
                = JsMap.keys (fst (tick_bullets e ps bs))).
    { rewrite IH. apply filter_ext_in. intros k0 I0. rewrite existsb_app.
      destruct (resolve_destroys ps k b' k0) as [D3 _]. rewrite D3.
      destruct (fst (resolve ps k b')); [reflexivity |].
      destruct (Z.eqb_spec k k0) as [-> | _]; [contradiction | reflexivity]. }
    destruct (fst (resolve ps k b')) as [kept |] eqn:F.
    + cbn [orb].
      destruct (existsb (destroys k) (snd (tick_bullets e ps bs))) eqn:X.
      * apply tick_bullets_destroys in X. contradiction.
      * cbn [negb map fst]. rewrite (D2 kept eq_refl). f_equal.
        symmetry. exact T.
    + rewrite Z.eqb_refl. cbn [orb negb]. symmetry. exact T.
  - cbn [fst snd existsb negb]. symmetry. now apply filter_all.
Qed.

Lemma sweep_leaves now ps k :
  existsb (leaves k) (snd (sweep now ps)) = true -> In k (JsMap.keys ps).
Proof.
  destruct (sweep_keys now ps) as [_ E]. rewrite E. intro X.
  apply existsb_exists in X. destruct X as (em & I & L).
  apply in_map_iff in I. destruct I as (k' & <- & I).
  unfold leaves in L. cbn [snd] in L. apply String.eqb_eq in L. subst k'.
  unfold JsMap.keys, evicted in *. apply in_map_iff in I.
  destruct I as (q & <- & I). apply filter_In in I. apply in_map. tauto.
Qed.

Lemma keys_sweep now ps :
  NoDup (JsMap.keys ps) ->
  JsMap.keys (fst (sweep now ps))
  = filter (fun k => negb (existsb (leaves k) (snd (sweep now ps))))
      (JsMap.keys ps).
Proof.
  induction ps as [| [k p] ps IH]; intro N; [reflexivity |].
  inversion N as [| ? ? N1 N2]; subst. specialize (IH N2).
  unfold JsMap.keys in *.
  cbn [sweep]. unfold sweep_player. cbn [fst snd map filter].
  destruct (inactive now _) eqn:I; cbn [fst snd app existsb].
  - unfold leaves at 1. cbn [snd]. rewrite String.eqb_refl. cbn [orb negb].
    rewrite IH. apply filter_ext_in. intros k0 I0.
    unfold leaves at 2. cbn [snd].
    destruct (String.eqb_spec k k0) as [-> | _]; [contradiction | reflexivity].
  - destruct (existsb (leaves k) (snd (sweep now ps))) eqn:X.
    + apply sweep_leaves in X. contradiction.
    + cbn [negb map fst]. f_equal. exact IH.
Qed.

(** *** One event *)


Lemma same_tank_player p : Client.same_tank (Wire.player p) p.
Proof. unfold Client.same_tank. cbn. tauto. Qed.

(** What is drawn of a tank, on the server's record. *)
Lemma same_tank_drawn q p p' :
  Client.same_tank q p ->
  (Player.id p', Player.x p', Player.y p', Player.angle p', Player.color p',
   Player.name p', Player.health p')
  = (Player.id p, Player.x p, Player.y p, Player.angle p, Player.color p,
     Player.name p, Player.health p) ->
  Client.same_tank q p'.
Proof.
  unfold Client.same_tank. intros T [= -> -> -> -> -> -> ->]. exact T.
Qed.

Lemma fold_receive_ignored ms : forall c,
  (forall m, In m ms ->
     match m with
     | AudioStream _ | PlayerAudioState _ _ | PlayerDamaged _ _ => True
     | _ => False
     end) ->
  fold_left Client.receive (map Wire.encode ms) c = c.
Proof.
  induction ms as [| m ms IH]; intros c H; [reflexivity |].
  cbn [map fold_left]. pose proof (H m (or_introl eq_refl)) as Hm.
  destruct m; try contradiction; cbn [Wire.encode Client.receive];
    apply IH; intros; apply H; now right.
Qed.

Lemma In_inbox sid socks out m :
  In m (Client.inbox sid socks out) -> exists t, In (t, m) out.
Proof.
  unfold Client.inbox. intro I. apply in_map_iff in I.
  destruct I as ([t m'] & <- & I). apply filter_In in I. exists t. tauto.
Qed.

(** The server rewrites the record of [k0] without changing what is
    drawn of it, and the client hears nothing of it. *)
Lemma mirrors_retouch sid c s s' k0 p p' :
  player_of s k0 = Some p ->
  (Player.id p', Player.x p', Player.y p', Player.angle p', Player.color p',
   Player.name p', Player.health p')
  = (Player.id p, Player.x p, Player.y p, Player.angle p, Player.color p,
     Player.name p, Player.health p) ->
  players s' = JsMap.set String.eqb k0 p' (players s) ->
  bullets s' = bullets s ->
  Client.mirrors sid c s -> Client.mirrors sid c s'.
Proof.
  intros G T Ep Eb (M1 & M2 & M3). unfold Client.mirrors, player_of in *.
  rewrite Ep, Eb. split; [| split; [exact M2 |]].
  - rewrite (keys_set_present _ String.eqb_spec) by congruence. exact M1.
  - intros k p0 N G0. destruct (String.eqb_spec k k0) as [-> | D].
    + rewrite (get_set_same _ String.eqb_spec) in G0. injection G0 as <-.
      destruct (M3 k0 p N G) as (q & Gq & Tq). exists q. split; [exact Gq |].
      exact (same_tank_drawn q p p' Tq T).
    + rewrite (get_set_other _ String.eqb_spec) in G0 by exact D. auto.
Qed.

(** The server rewrites the record of the client's own player. *)
Lemma mirrors_own sid c s s' p p' :
  player_of s sid = Some p ->
  players s' = JsMap.set String.eqb sid p' (players s) ->
  bullets s' = bullets s ->
  Client.mirrors sid c s -> Client.mirrors sid c s'.
Proof.
  intros G Ep Eb (M1 & M2 & M3). unfold Client.mirrors, player_of in *.
  rewrite Ep, Eb. split; [| split; [exact M2 |]].
  - rewrite (keys_set_present _ String.eqb_spec) by congruence. exact M1.
  - intros k p0 N G0.
    rewrite (get_set_other _ String.eqb_spec) in G0 by exact N. auto.
Qed.

Lemma mirrors_same sid c s s' :
  players s' = players s -> bullets s' = bullets s ->
  Client.mirrors sid c s -> Client.mirrors sid c s'.
Proof.
  intros Ep Eb M. unfold Client.mirrors, player_of in *.
  rewrite Ep, Eb. exact M.
Qed.

Lemma step_mirrors e s i s' out sid c :
  wf s -> NoDup (JsMap.keys (bullets s)) -> In sid (sockets s) ->
  is_disconnect sid i = false ->
  step e s i = Some (s', out) ->
  Client.mirrors sid c s ->
  Client.mirrors sid
    (fold_left Client.receive
       (map Wire.encode (Client.inbox sid (sockets s') out)) c) s'.
Proof.
  intros W NB On ND S M.
  destruct i as [c0 tr rx ry color name ta tc | c0 tr | c0 | c0 data now
                | c0 now | c0 audioData tp tl | c0 st | c0 | bid | | now
                | | ];
    cbn [step] in S; step_inv S.
  - (* connection *)
    match goal with H : connected s c0 = false |- _ =>
      apply connected_false in H; rename H into C end.
    assert (D : sid <> c0) by congruence.
    cbn [fst snd on_connection sockets with_players with_sockets].
    unfold Client.inbox. cbn [filter fst].
    rewrite (reach_other_socket _ _ _ D).
    rewrite reach_broadcast by (try apply in_or_app; auto).
    cbn [map snd fold_left Wire.encode Client.receive].
    destruct M as (M1 & M2 & M3).
    unfold Client.mirrors, player_of, Client.on_playerJoined.
    cbn [Client.players Client.bullets players bullets newPlayer Player.id
         Wire.player Wire.Tank.id].
    split; [| split; [exact M2 |]].
    + now apply keys_set_congr.
    + intros k p N G. cbn [players with_players with_sockets] in G.
      destruct (String.eqb_spec k c0) as [-> | D'].
      * rewrite (get_set_same _ String.eqb_spec) in G. injection G as <-.
        rewrite (get_set_same _ String.eqb_spec).
        eexists. split; [reflexivity |].
        apply (same_tank_player (newPlayer c0 tr rx ry color name ta tc)).
      * rewrite (get_set_other _ String.eqb_spec) in G by exact D'.
        rewrite (get_set_other _ String.eqb_spec) by exact D'. auto.
  - (* upgrade *)
    unfold on_upgrade. destruct (player_of s c0) as [p |] eqn:G;
      cbn [fst snd Client.inbox filter map fold_left]; [| exact M].
    unfold Client.inbox. cbn [filter map fold_left].
    eapply mirrors_retouch; [exact G | | reflexivity | reflexivity | exact M].
    reflexivity.
  - exact M.
  - (* move *)
    unfold on_playerMove. destruct (player_of s c0) as [p |] eqn:G;
      [| exact M].
    destruct (move_guard data); [| exact M].
    cbv zeta. cbn [fst snd sockets with_players].
    unfold Client.inbox. cbn [filter fst].
    destruct (String.eqb_spec sid c0) as [<- | D].
    + rewrite reach_own_broadcast. cbn [map fold_left].
      eapply mirrors_own; [exact G | reflexivity | reflexivity | exact M].
    + rewrite reach_broadcast by assumption.
      cbn [map snd fold_left Wire.encode Client.receive].
      destruct M as (M1 & M2 & M3).
      destruct (M3 c0 p ltac:(congruence) G) as (q & Gq & Tq).
      unfold Client.on_playerMoved. rewrite Gq.
      unfold Client.mirrors, player_of.
      cbn [Client.players Client.bullets players bullets with_players].
      split; [| split; [exact M2 |]].
      * now apply keys_set_congr.
      * intros k p0 N G0. cbn [players with_players] in G0.
        destruct (String.eqb_spec k c0) as [-> | D'].
        -- rewrite (get_set_same _ String.eqb_spec) in G0. injection G0 as <-.
           rewrite (get_set_same _ String.eqb_spec).
           eexists. split; [reflexivity |].
           unfold Client.same_tank in *. cbn. tauto.
        -- rewrite (get_set_other _ String.eqb_spec) in G0 by exact D'.
           rewrite (get_set_other _ String.eqb_spec) by exact D'. auto.
  - (* shoot *)
    unfold on_playerShoot. destruct (player_of s c0) as [p |] eqn:G;
      [| exact M].
    destruct (may_shoot _ _); [| exact M].
    cbv zeta. cbn [fst snd sockets].
    rewrite inbox_all by (auto; intros em [<- | []]; reflexivity).
    cbn [map snd fold_left Wire.encode Client.receive].
    assert (M' : Client.mirrors sid c
                   (with_players s
                      (JsMap.set String.eqb c0 (Player.shot p now) (players s)))).
    { eapply mirrors_retouch; [exact G | | reflexivity | reflexivity | exact M].
      reflexivity. }
    destruct M' as (M1 & M2 & M3). unfold Client.mirrors, player_of in *.
    cbn [Client.on_bulletCreated Client.players Client.bullets players bullets
         with_players Wire.bullet Wire.Shell.id Bullet.id new_bullet] in *.
    split; [exact M1 | split; [| exact M3]].
    now apply keys_set_congr.
  - (* audio frame *)
    rewrite fold_receive_ignored.
    + destruct (on_audioStream_players e c0 audioData tp tl s)
        as [E | (p & G & _ & E)].
      * eapply mirrors_same; [exact E | | exact M].
        apply on_audioStream_bullets.
      * eapply mirrors_retouch; [exact G | | exact E | | exact M].
        -- reflexivity.
        -- apply on_audioStream_bullets.
    + intros m I. apply In_inbox in I. destruct I as (t & I).
      apply In_on_audioStream in I.
      destruct I as (frame & [[= _ ->] | (room & _ & [= _ ->])]); exact I.
  - (* audio state *)
    unfold on_audioStateChanged. destruct (player_of s c0) as [p |] eqn:G;
      [| exact M].
    destruct (truthy st); [| exact M].
    destruct (get st "enabled"); try exact M.
    cbn [fst snd sockets with_players]. rewrite fold_receive_ignored.
    + eapply mirrors_retouch; [exact G | | reflexivity | reflexivity | exact M].
      reflexivity.
    + intros m I. apply In_inbox in I. destruct I as (t & [[= _ <-] | []]).
      exact Logic.I.
  - (* disconnect *)
    assert (D : sid <> c0).
    { intros ->. cbn [is_disconnect] in ND. rewrite String.eqb_refl in ND.
      discriminate. }
    cbn [fst snd on_disconnect sockets with_players with_sockets].
    unfold Client.inbox. cbn [filter fst].
    rewrite reach_broadcast; [| | exact D].
    2:{ apply filter_In. split; [exact On |].
        now apply negb_true_iff, String.eqb_neq. }
    cbn [map snd fold_left Wire.encode Client.receive].
    destruct M as (M1 & M2 & M3).
    unfold Client.mirrors, player_of, Client.on_playerLeft.
    cbn [Client.players Client.bullets players bullets with_players
         with_sockets].
    split; [| split; [exact M2 |]].
    + rewrite !keys_delete. now rewrite M1.
    + intros k p N G. cbn [players with_players with_sockets] in G.
      destruct (String.eqb_spec k c0) as [-> | D'].
      * now rewrite get_delete_same in G.
      * rewrite (get_delete_other _ String.eqb_spec) in G by exact D'.
        rewrite (get_delete_other _ String.eqb_spec) by exact D'. auto.
  - (* expiry timer *)
    cbn [fst snd on_bulletTimeout sockets with_bullets with_timers].
    rewrite inbox_all by (auto; intros em [<- | []]; reflexivity).
    cbn [map snd fold_left Wire.encode Client.receive].
    destruct M as (M1 & M2 & M3).
    unfold Client.mirrors, player_of, Client.on_bulletDestroyed.
    cbn [Client.players Client.bullets players bullets with_bullets
         with_timers].
    split; [exact M1 | split; [| exact M3]].
    rewrite !keys_delete. now rewrite M2.
  - (* game loop *)
    unfold gameLoop. cbv zeta. cbn [fst snd sockets with_bullets].
    assert (A : forall em, In em (snd (tick_bullets e (players s) (bullets s))) ->
                match snd em with
                | BulletDestroyed _ | PlayerDamaged _ _ => True
                | _ => False
                end /\ fst em = ToAll).
    { intros em I. apply In_tick_bullets in I.
      destruct I as [(id & b & _ & ->) | (k & p & _ & ->)]; split;
        solve [exact I | reflexivity]. }
    rewrite inbox_all by (auto; intros em I; apply A; exact I).
    destruct (client_after_destroys _ c (fun em I => proj1 (A em I)))
      as [E1 E2].
    destruct M as (M1 & M2 & M3). unfold Client.mirrors, player_of.
    cbn [players bullets with_bullets]. rewrite E1, E2.
    split; [exact M1 | split; [| exact M3]].
    rewrite M2. symmetry. now apply keys_tick_bullets.
  - (* cleanup sweep *)
    unfold cleanup. cbv zeta. cbn [fst snd sockets with_players].
    assert (A : forall em, In em (snd (sweep now (players s))) ->
                match snd em with PlayerLeft _ => True | _ => False end /\
                fst em = ToAll).
    { intros em I. rewrite (proj2 (sweep_keys now (players s))) in I.
      apply in_map_iff in I. destruct I as (k & <- & _).
      split; [exact Logic.I | reflexivity]. }
    rewrite inbox_all by (auto; intros em I; apply A; exact I).
    destruct (client_after_leaves _ c (fun em I => proj1 (A em I)))
      as (E1 & E2 & E3).
    pose proof (keys_sweep now (players s) (wf_keys s W)) as KS.
    destruct M as (M1 & M2 & M3). unfold Client.mirrors, player_of.
    cbn [players bullets with_players]. rewrite E1, E2.
    split; [| split; [exact M2 |]].
    + rewrite M1. symmetry. exact KS.
    + intros k p' N G. apply (get_In _ String.eqb_spec) in G.
      assert (L : existsb (leaves k) (snd (sweep now (players s))) = false).
      { apply (In_keys k p') in G. rewrite KS in G. apply filter_In in G.
        now apply negb_true_iff. }
      rewrite (E3 k L).
      destruct (In_sweep_kept _ _ _ _ G) as (p & Ip & _ & ->).
      apply (In_get _ String.eqb_spec) in Ip; [| exact (wf_keys s W)].
      destruct (M3 k p N Ip) as (q & Gq & Tq). exists q. split; [exact Gq |].
      destruct (audio_timed_out now p); [| exact Tq].
      unfold Client.same_tank in *. cbn. tauto.
  - exact M.
  - exact M.
Qed.

Lemma step_online e s i s' out sid :
  step e s i = Some (s', out) -> is_disconnect sid i = false ->
  In sid (sockets s) -> In sid (sockets s').
Proof.
  intros S ND On.
  destruct (step_store _ _ _ _ _ S)
    as [[_ E] | [(k & p & p' & _ & _ & _ & E)
       | [(k & p & _ & _ & _ & _ & E)
       | [(k & -> & _ & E) | (now & _ & _ & E)]]]]; rewrite E; auto.
  - apply in_or_app. now left.
  - apply filter_In. split; [exact On |]. cbn [is_disconnect] in ND.
    apply negb_true_iff. rewrite String.eqb_sym. exact ND.
Qed.

Lemma follow_mirrors e sid tr : forall s c s' c',
  wf s -> bullets_wf s -> In sid (sockets s) ->
  none_of (is_disconnect sid) tr ->
  Client.follow e sid tr s c = Some (s', c') ->
  Client.mirrors sid c s -> Client.mirrors sid c' s'.
Proof.
  induction tr as [| i tr IH]; cbn [Client.follow];
    intros s c s' c' W B On N F M.
  - now injection F as <- <-.
  - apply none_of_cons in N. destruct N as [N1 N2].
    destruct (step e s i) as [[s1 o1] |] eqn:S; [| discriminate].
    refine (IH s1 _ s' c' _ _ _ N2 F _).
    + eapply step_wf; eauto.
    + eapply step_bullets_wf; eauto.
    + eapply step_online; eauto.
    + eapply step_mirrors; eauto. exact (bw_keys s B).
Qed.

(** X13.  A client that starts with empty maps when its socket connects,
    and handles the server's messages to that socket in order, as they
    come off the wire, has after any further events short of its own
    disconnect exactly the server's players and bullets in its maps, in
    the server's order.  For every other player it has the id, colour,
    name and health that the server holds, and the position and angle
    that the server holds as JSON carries them: a finite number, a
    string and [true] as they are, an angle of 0 as 0, and an infinite
    angle or a NaN coordinate as [null]. *)
Theorem the_client_sees_the_servers_tanks_and_bullets
    (e : Engine.t) (pre : list input) (s0 : state) (out0 : list emit)
    (sid transport : string) (rx ry : num) (color name : string)
    (t_audio t_conn : Z) (tr : list input) (s : state) (c : Client.t) :
  run e init pre = Some (s0, out0) ->
  none_of (is_disconnect sid) tr ->
  Client.follow e sid
    (Connection sid transport rx ry color name t_audio t_conn :: tr)
    s0 Client.init = Some (s, c) ->
  JsMap.keys (Client.players c) = JsMap.keys (players s) /\
  JsMap.keys (Client.bullets c) = JsMap.keys (bullets s) /\
  forall k p, k <> sid -> player_of s k = Some p ->
    exists q, JsMap.get String.eqb k (Client.players c) = Some q /\
              Client.same_tank q p /\
              (forall sg m ex, Player.x p = S754_finite sg m ex ->
                 Wire.Tank.x q = JNum (S754_finite sg m ex)) /\
              (forall sg m ex, Player.y p = S754_finite sg m ex ->
                 Wire.Tank.y q = JNum (S754_finite sg m ex)) /\
              (Player.x p = S754_nan -> Wire.Tank.x q = JNull) /\
              (Player.y p = S754_nan -> Wire.Tank.y q = JNull) /\
              (forall sg m ex, Player.angle p = JNum (S754_finite sg m ex) ->
                 Wire.Tank.angle q = JNum (S754_finite sg m ex)) /\
              (forall sg, Player.angle p = JNum (S754_zero sg) ->
                 Wire.Tank.angle q = JNum (S754_zero false)) /\
              (forall sg, Player.angle p = JNum (S754_infinity sg) ->
                 Wire.Tank.angle q = JNull) /\
              (forall str, Player.angle p = JStr str ->
                 Wire.Tank.angle q = JStr str) /\
              (Player.angle p = JBool true -> Wire.Tank.angle q = JBool true).
Proof.
  intros R N F.
  assert (M : Client.mirrors sid c s); [|
    destruct M as (K1 & K2 & M);
    split; [exact K1 | split; [exact K2 |]];
    intros k p D G; destruct (M k p D G) as (q & Gq & T);
    exists q; split; [exact Gq |]; split; [exact T |];
    destruct T as (_ & Tx & Ty & Ta & _);
    rewrite Tx, Ty, Ta;
    repeat split; intros; 
      match goal with H : _ = _ |- _ => rewrite H end; reflexivity ].
  assert (W0 : wf s0) by (eapply run_wf; [exact R | apply wf_init]).
  assert (B0 : bullets_wf s0)
    by (eapply run_bullets_wf; [exact R | apply bullets_wf_init]).
  cbn [Client.follow] in F.
  destruct (step e s0 (Connection sid transport rx ry color name t_audio
                         t_conn)) as [[s1 o1] |] eqn:S; [| discriminate].
  pose proof (step_wf _ _ _ _ _ S W0) as W1.
  pose proof (step_bullets_wf _ _ _ _ _ S B0) as B1.
  assert (On : In sid (sockets s1) /\
               Client.inbox sid (sockets s1) o1 =
               [ GameState (JsMap.values (players s1))
                   (JsMap.values (bullets s1)) transport ]).
  { cbn [step] in S. step_inv S.
    cbn [fst snd on_connection sockets with_players with_sockets].
    assert (I : In sid (sockets s0 ++ [sid]))
      by (apply in_or_app; right; now left).
    split; [exact I |]. unfold Client.inbox. cbn [filter fst].
    rewrite (reach_own_socket _ _ I), reach_own_broadcast. reflexivity. }
  destruct On as [On E]. rewrite E in F.
  apply (follow_mirrors e sid tr s1 _ s c W1 B1 On N F).
  cbn [map Wire.encode fold_left Client.receive].
  unfold Client.on_gameState, Client.init, Client.mirrors.
  cbn [Client.players Client.bullets Client.lastShoot].
  rewrite (gameState_entries String.eqb String.eqb_spec Player.id
             Wire.Tank.id Wire.player (fun p => eq_refl) (players s1)
             (wf_keys s1 W1) (wf_ids s1 W1)).
  rewrite (gameState_entries Z.eqb Z.eqb_spec Bullet.id
             Wire.Shell.id Wire.bullet (fun b => eq_refl) (bullets s1)
             (bw_keys s1 B1) (bw_ids s1 B1)).
  split; [apply keys_map_values | split; [apply keys_map_values |]].
  intros k p _ G. exists (Wire.player p).
  split; [| apply same_tank_player].
  rewrite get_map_values. unfold player_of in G. now rewrite G.
Qed.


(** Tank B joins tank A and watches; the infinite angle of tank C
    reaches it as [null]. *)
Lemma the_client_sees_the_servers_tanks_and_bullets_witness :
  exists s0 out0 s c,
    run Engine.table init [ Scenario.join "A" ] = Some (s0, out0) /\
    Client.follow Engine.table "B" (Scenario.join "B" :: Cases.spectated)
      s0 Client.init = Some (s, c) /\
    (JsMap.keys (Client.players c) = JsMap.keys (players s) /\
     JsMap.keys (Client.bullets c) = JsMap.keys (bullets s) /\
     forall k p, k <> "B" -> player_of s k = Some p ->
       exists q, JsMap.get String.eqb k (Client.players c) = Some q /\
                 Client.same_tank q p /\
                 (forall sg m ex, Player.x p = S754_finite sg m ex ->
                    Wire.Tank.x q = JNum (S754_finite sg m ex)) /\
                 (forall sg m ex, Player.y p = S754_finite sg m ex ->
                    Wire.Tank.y q = JNum (S754_finite sg m ex)) /\
                 (Player.x p = S754_nan -> Wire.Tank.x q = JNull) /\
                 (Player.y p = S754_nan -> Wire.Tank.y q = JNull) /\
                 (forall sg m ex,
                    Player.angle p = JNum (S754_finite sg m ex) ->
                    Wire.Tank.angle q = JNum (S754_finite sg m ex)) /\
                 (forall sg, Player.angle p = JNum (S754_zero sg) ->
                    Wire.Tank.angle q = JNum (S754_zero false)) /\
                 (forall sg, Player.angle p = JNum (S754_infinity sg) ->
                    Wire.Tank.angle q = JNull) /\
                 (forall str, Player.angle p = JStr str ->
                    Wire.Tank.angle q = JStr str) /\
                 (Player.angle p = JBool true ->
                    Wire.Tank.angle q = JBool true)) /\
    JsMap.keys (players s) = [ "B"; "C" ] /\
    JsMap.keys (bullets s) = [ 1 ] /\
    option_map Player.angle (player_of s "C") = Some (JNum pos_inf) /\
    option_map Wire.Tank.angle (JsMap.get String.eqb "C" (Client.players c))
      = Some JNull /\
    option_map Wire.Tank.x (JsMap.get String.eqb "C" (Client.players c))
      = Some (JNum (of_Z 500)).
Proof.
  do 4 eexists.
  split; [vm_compute; reflexivity |].
  split; [vm_compute; reflexivity |].
  split; [| repeat split; vm_compute; reflexivity].
  refine (the_client_sees_the_servers_tanks_and_bullets Engine.table
            [ Scenario.join "A" ] _ _ "B" "websocket" (of_Z 0) (of_Z 0)
            "hsl(0, 70%, 50%)" "Tank0" 1000 1000 Cases.spectated _ _ _ _ _).
  - vm_compute; reflexivity.
  - vm_compute; reflexivity.
  - vm_compute; reflexivity.
Defined.

(** ** The client's cooldown *)

Lemma last_cons {A : Type} (a d : A) (l : list A) :
  last (a :: l) d = last l a.
Proof.
  revert a d. induction l as [| b l IH]; intros a d; [reflexivity |].
  change (last (a :: b :: l) d) with (last (b :: l) d).
  now rewrite (IH b d), (IH b a).
Qed.

(** X14.  However often and whenever [shoot()] is called, the client
    emits [playerShoot] only at readings of the clock that are at least
    500 ms after the reading of the previous emit (and 500 ms after 0 for
    the first one); [lastShoot] is the reading of the last emit; the maps
    are not touched.  Calls that are 500 ms apart all emit. *)
Theorem client_shots_are_half_a_second_apart
    (nows : list Z) (c : Client.t) :
  let r := Client.shoot_all nows c in
  Client.spaced 500 (Client.lastShoot c :: snd r) = true /\
  Client.lastShoot (fst r) = last (snd r) (Client.lastShoot c) /\
  Client.players (fst r) = Client.players c /\
  Client.bullets (fst r) = Client.bullets c /\
  (Client.spaced 500 (Client.lastShoot c :: nows) = true -> snd r = nows).
Proof.
  cbv zeta. revert c.
  induction nows as [| now rest IH]; intro c.
  - cbn. auto.
  - cbn [Client.shoot_all]. unfold Client.shoot.
    destruct (now - Client.lastShoot c <? 500) eqn:T; cbn [fst snd app].
    + destruct (IH c) as (I1 & I2 & I3 & I4 & I5).
      repeat split; auto.
      intro Sp. exfalso. cbn [Client.spaced] in Sp.
      apply andb_true_iff in Sp. destruct Sp as [Sp _].
      apply Z.leb_le in Sp. apply Z.ltb_lt in T. lia.
    + set (c' := Client.mk (Client.players c) (Client.bullets c) now).
      destruct (IH c') as (I1 & I2 & I3 & I4 & I5).
      cbn [Client.lastShoot c'] in *. apply Z.ltb_ge in T.
      split; [| split; [| split; [exact I3 | split; [exact I4 |]]]].
      * cbn [Client.spaced]. apply andb_true_iff. split; [| exact I1].
        now apply Z.leb_le.
      * rewrite I2. symmetry. apply last_cons.
      * intro Sp. cbn [Client.spaced] in Sp.
        apply andb_true_iff in Sp. destruct Sp as [_ Sp].
        f_equal. apply I5. exact Sp.
Qed.

(** Five presses of the fire key: the second and the fourth come too
    early. *)
Example client_shots_five_presses :
  snd (Client.shoot_all [ 10000; 10300; 10500; 10999; 11000 ] Client.init)
  = [ 10000; 10500; 11000 ].
Proof. reflexivity. Qed.

(* ------------------------------------------------------------------ *)
(** ** Who is near whom *)

Lemma Math_pow2_opp (d : num) : Math_pow2 (SFopp d) = Math_pow2 d.
Proof.
  destruct d as [s | s | | s m e]; try reflexivity;
    destruct s; reflexivity.
Qed.

Lemma Math_pow2_zero (s s' : bool) :
  Math_pow2 (S754_zero s) = Math_pow2 (S754_zero s').
Proof. destruct s, s'; reflexivity. Qed.

(** The square of a difference does not depend on the order of its
    operands, whatever they are. *)
Lemma Math_pow2_sub (a b : num) :
  Math_pow2 (sub a b) = Math_pow2 (sub b a).
Proof.
  destruct a as [sa | sa | | sa ma ea], b as [sb | sb | | sb mb eb];
    try reflexivity;
    try (destruct sa, sb; reflexivity);
    try (destruct sa; reflexivity); try (destruct sb; reflexivity).
  (* two finite numbers *)
  unfold sub. cbn [SFsub]. cbv zeta. rewrite (Z.min_comm eb ea).
  set (A := cond_Zopp sa (Zpos (fst (shl_align ma ea (Z.min ea eb))))).
  set (B := cond_Zopp sb (Zpos (fst (shl_align mb eb (Z.min ea eb))))).
  replace (B - A) with (- (A - B)) by lia.
  destruct (A - B) as [| d | d]; cbn [Z.opp binary_normalize].
  - reflexivity.
  - rewrite binary_round_opp. symmetry. apply Math_pow2_opp.
  - rewrite binary_round_opp. apply Math_pow2_opp.
Qed.

Lemma distance_sym (p q : Player.t) : distance p q = distance q p.
Proof.
  unfold distance.
  now rewrite (Math_pow2_sub (Player.x p)), (Math_pow2_sub (Player.y p)).
Qed.

(** X15.  [getNearbyPlayers] never lists the player itself, lists ids of
    the store only, and is mutual: in a store of the server, player [b] is
    within the radius of player [a] exactly when [a] is within the radius
    of [b], whatever their coordinates (also infinite or NaN). *)
Theorem hearing_is_mutual
    (s : state) (a b : string) (pa pb : Player.t) (radius : num) :
  wf s ->
  player_of s a = Some pa ->
  player_of s b = Some pb ->
  (In b (getNearbyPlayers (players s) pa radius) <->
   In a (getNearbyPlayers (players s) pb radius)) /\
  ~ In a (getNearbyPlayers (players s) pa radius) /\
  (forall k, In k (getNearbyPlayers (players s) pa radius) ->
             In k (JsMap.keys (players s))) /\
  distance pa pb = distance pb pa.
Proof.
  intros W Ga Gb.
  pose proof (get_In _ String.eqb_spec _ _ _ Ga) as Ia.
  pose proof (get_In _ String.eqb_spec _ _ _ Gb) as Ib.
  pose proof (wf_ids s W a pa Ia) as Ea.
  pose proof (wf_ids s W b pb Ib) as Eb.
  split; [| split; [| split; [| apply distance_sym]]].
  - rewrite !In_getNearbyPlayers. rewrite Ea, Eb. split.
    + intros (p & I & N & L).
      apply (In_get _ String.eqb_spec) in I; [| exact (wf_keys s W)].
      unfold player_of in Gb. rewrite Gb in I. injection I as <-.
      exists pa. split; [exact Ia |]. split; [congruence |].
      now rewrite distance_sym.
    + intros (p & I & N & L).
      apply (In_get _ String.eqb_spec) in I; [| exact (wf_keys s W)].
      unfold player_of in Ga. rewrite Ga in I. injection I as <-.
      exists pb. split; [exact Ib |]. split; [congruence |].
      now rewrite distance_sym.
  - rewrite In_getNearbyPlayers. intros (p & _ & N & _). congruence.
  - intros k I. apply In_getNearbyPlayers in I. destruct I as (p & I & _).
    apply (In_keys k p). exact I.
Qed.

(** Tanks A and B of the line-up stand 10 units apart. *)
Lemma hearing_is_mutual_witness :
  let s := Scenario.after Scenario.lined_up in
  exists pa pb,
    player_of s "A" = Some pa /\ player_of s "B" = Some pb /\
    (In "B" (getNearbyPlayers (players s) pa (of_Z 300)) <->
     In "A" (getNearbyPlayers (players s) pb (of_Z 300))) /\
    ~ In "A" (getNearbyPlayers (players s) pa (of_Z 300)) /\
    (forall k, In k (getNearbyPlayers (players s) pa (of_Z 300)) ->
               In k (JsMap.keys (players s))) /\
    distance pa pb = distance pb pa.
Proof.
  intro s. do 2 eexists.
  split; [vm_compute; reflexivity |].
  split; [vm_compute; reflexivity |].
  refine (hearing_is_mutual s "A" "B" _ _ (of_Z 300)
            (wf_after Scenario.lined_up) _ _).
  - vm_compute; reflexivity.
  - vm_compute; reflexivity.
Defined.

(** In the line-up each of the three tanks is near the two others. *)
Example nearby_in_the_line_up :
  let s := Scenario.after Scenario.lined_up in
  map (fun q => getNearbyPlayers (players s) (snd q) (of_Z 300)) (players s)
  = [ [ "B"; "C" ]; [ "A"; "C" ]; [ "A"; "B" ] ].
Proof. vm_compute. reflexivity. Qed.

(* ------------------------------------------------------------------ *)
(** ** Sockets without a player *)

(** A connected socket is without a player only after the sweep has
    evicted it. *)
Lemma step_ghost e s i s' out k :
  wf s -> step e s i = Some (s', out) ->
  In k (sockets s') -> player_of s' k = None ->
  (In k (sockets s) /\ player_of s k = None) \/
  In (ToAll, PlayerLeft k) out.
Proof.
  intros W S On G. unfold player_of in *.
  destruct (step_store _ _ _ _ _ S)
    as [[Ep Es] | [(sid & p0 & p' & G0 & _ & Ep & Es)
       | [(sid & p0 & _ & _ & _ & Ep & Es) | [(sid & -> & Ep & Es)
       | (now & -> & Ep & Es)]]]]; rewrite Ep in G; rewrite Es in On.
  - left. auto.
  - left. split; [exact On |].
    destruct (String.eqb_spec k sid) as [-> | D].
    + now rewrite (get_set_same _ String.eqb_spec) in G.
    + now rewrite (get_set_other _ String.eqb_spec) in G by exact D.
  - left. destruct (String.eqb_spec k sid) as [-> | D].
    + now rewrite (get_set_same _ String.eqb_spec) in G.
    + rewrite (get_set_other _ String.eqb_spec) in G by exact D.
      apply in_app_or in On. destruct On as [On | [E | []]]; [auto |].
      congruence.
  - left. apply filter_In in On. destruct On as [On N].
    apply negb_true_iff, String.eqb_neq in N.
    rewrite (get_delete_other _ String.eqb_spec) in G by exact N. auto.
  - destruct (JsMap.get String.eqb k (players s)) as [p |] eqn:G1;
      [right | left; auto].
    cbn [step] in S. apply some_pair_inv in S. destruct S as [_ ->].
    unfold cleanup. cbn [snd].
    rewrite (proj2 (sweep_keys now (players s))).
    apply in_map_iff. exists k. split; [reflexivity |].
    apply (get_In _ String.eqb_spec) in G1.
    apply (get_None_keys _ String.eqb_spec) in G.
    rewrite (proj1 (sweep_keys now (players s))) in G.
    unfold JsMap.keys, kept, evicted in *.
    apply in_map_iff. exists (k, p). split; [reflexivity |].
    apply filter_In. split; [exact G1 |]. cbn [snd].
    destruct (inactive now p) eqn:I; [reflexivity |]. exfalso. apply G.
    apply in_map_iff. exists (k, p). split; [reflexivity |].
    apply filter_In. split; [exact G1 |]. cbn [snd]. now rewrite I.
Qed.

Lemma run_ghost e tr : forall s s' out k,
  wf s -> run e s tr = Some (s', out) ->
  In k (sockets s') -> player_of s' k = None ->
  (In k (sockets s) /\ player_of s k = None) \/
  In (ToAll, PlayerLeft k) out.
Proof.
  induction tr as [| i tr IH]; cbn [run]; intros s s' out k W R On G.
  - injection R as <- <-. auto.
  - destruct (step e s i) as [[s1 o1] |] eqn:S; [| discriminate].
    destruct (run e s1 tr) as [[s2 o2] |] eqn:R2; [| discriminate].
    injection R as <- <-.
    destruct (IH s1 s2 o2 k (step_wf _ _ _ _ _ S W) R2 On G)
      as [[On1 G1] | I].
    + destruct (step_ghost _ _ _ _ _ _ W S On1 G1) as [H | I]; [auto |].
      right. apply in_or_app. now left.
    + right. apply in_or_app. now right.
Qed.

(** X16.  A connected socket has no player only if a cleanup sweep has
    evicted it (a [playerLeft] for it has gone to all sockets).  Until it
    disconnects, whatever such a socket sends changes neither the players
    nor the bullets and makes the server emit nothing: its moves, shots,
    audio frames and audio state changes are dropped, and no message
    gives it a player again. *)
Theorem an_evicted_socket_stays_a_ghost
    (e : Engine.t) (tr : list input) (s : state) (out : list emit)
    (sid : string) :
  run e init tr = Some (s, out) ->
  In sid (sockets s) ->
  player_of s sid = None ->
  In (ToAll, PlayerLeft sid) out /\
  forall i s' out',
    sender i = Some sid -> is_disconnect sid i = false ->
    step e s i = Some (s', out') ->
    out' = [] /\ players s' = players s /\ bullets s' = bullets s /\
    sockets s' = sockets s.
Proof.
  intros R On G. split.
  - destruct (run_ghost e tr init s out sid wf_init R On G) as [[[] _] | I].
    exact I.
  - intros i s' out' Sd ND S.
    apply connected_In in On.
    destruct i; cbn [sender] in Sd; try discriminate; injection Sd as ->;
      cbn [step] in S; rewrite ?On in S; try discriminate;
      apply some_pair_inv in S; destruct S as [-> ->].
    + unfold on_upgrade. rewrite G. auto.
    + unfold on_ping. auto.
    + unfold on_playerMove. rewrite G. auto.
    + unfold on_playerShoot. rewrite G. auto.
    + unfold on_audioStream.
      change (player_of (with_audioStats s (count_packet (audioStats s))) sid)
        with (player_of s sid).
      rewrite G. auto.
    + unfold on_audioStateChanged. rewrite G. auto.
    + cbn [is_disconnect] in ND. rewrite String.eqb_refl in ND. discriminate.
Qed.

(** Tank A is swept at 700000 and then tries to move, fire and talk. *)
Lemma an_evicted_socket_stays_a_ghost_witness :
  exists s out,
    run Engine.table init (Cases.stale ++ [ Cleanup 700000 ])
      = Some (s, out) /\
    In "A" (sockets s) /\ player_of s "A" = None /\
    In (ToAll, PlayerLeft "A") out /\
    forall i s' out',
      sender i = Some "A" -> is_disconnect "A" i = false ->
      step Engine.table s i = Some (s', out') ->
      out' = [] /\ players s' = players s /\ bullets s' = bullets s /\
      sockets s' = sockets s.
Proof.
  do 2 eexists. split; [vm_compute; reflexivity |].
  split; [vm_compute; auto |]. split; [vm_compute; reflexivity |].
  refine (an_evicted_socket_stays_a_ghost Engine.table
            (Cases.stale ++ [ Cleanup 700000 ]) _ _ "A" _ _ _).
  - vm_compute; reflexivity.
  - vm_compute; auto.
  - vm_compute; reflexivity.
Defined.

(* ------------------------------------------------------------------ *)
(** ** Integers held in numbers *)

Lemma iter_xO (m d : positive) :
  Zpos (Pos.iter xO m d) = Zpos m * 2 ^ Zpos d.
Proof.
  induction d as [| d IH] using Pos.peano_ind.
  - cbn [Pos.iter]. lia.
  - rewrite Pos.iter_succ, Pos2Z.inj_xO, IH, Pos2Z.inj_succ,
      Z.pow_succ_r by lia. ring.
Qed.

(** An integer below 2^53 is held exactly: its mantissa is the integer
    shifted up to 53 digits. *)
Lemma of_Z_pos (p : positive) :
  Zpos p < 2 ^ 53 ->
  let d := Zpos (digits2_pos p) in
  exists m' : positive,
    of_Z (Zpos p) = S754_finite false m' (d - 53) /\
    Zpos m' = Zpos p * 2 ^ (53 - d) /\ Zpos (digits2_pos m') = 53.
Proof.
  intros Hp d. pose proof (digits2_pos_bounds p) as [B1 B2]. fold d in B1, B2.
  assert (Hd : 1 <= d <= 53).
  { split; [unfold d; lia |].
    destruct (Z.le_gt_cases d 53) as [? | C]; [assumption |].
    assert (2 ^ 53 <= 2 ^ (d - 1)) by (apply Z.pow_le_mono_r; lia). lia. }
  unfold of_Z. cbn [binary_normalize]. unfold binary_round.
  rewrite Z.add_0_r. fold d. rewrite fexp64 by (unfold prec; lia).
  unfold prec. unfold shl_align. rewrite Z.sub_0_r.
  destruct (d - 53) as [| q | q] eqn:E; try lia.
  - (* 53 digits already *)
    exists p. assert (d = 53) by lia.
    replace (53 - d) with 0 by lia. rewrite Z.pow_0_r, Z.mul_1_r.
    split; [| split; [reflexivity | unfold d in *; lia]].
    replace (Zpos p) with (Zpos p * 2 ^ 0) at 1 by (rewrite Z.pow_0_r; lia).
    replace 0 with (0 + 0) at 3 by reflexivity.
    apply binary_round_aux_exact; unfold d in *; lia.
  - exists (Pos.iter xO p q).
    assert (Em : Zpos (Pos.iter xO p q) = Zpos p * 2 ^ (53 - d)).
    { rewrite iter_xO. f_equal. f_equal. lia. }
    assert (D : Zpos (digits2_pos (Pos.iter xO p q)) = 53).
    { apply digits2_pos_unique. rewrite Em.
      assert (P : 0 < 2 ^ (53 - d)) by (apply Z.pow_pos_nonneg; lia).
      replace (2 ^ (53 - 1)) with (2 ^ (d - 1) * 2 ^ (53 - d))
        by (rewrite <- Z.pow_add_r by lia; f_equal; lia).
      replace (2 ^ 53) with (2 ^ d * 2 ^ (53 - d))
        by (rewrite <- Z.pow_add_r by lia; f_equal; lia).
      split; [apply Z.mul_le_mono_nonneg_r; lia
             | apply Z.mul_lt_mono_pos_r; lia]. }
    split; [| split; [exact Em | exact D]].
    replace (Zpos (Pos.iter xO p q)) with (Zpos (Pos.iter xO p q) * 2 ^ 0)
      by (rewrite Z.pow_0_r; lia).
    replace (Zneg q) with (Zneg q + 0) at 2 by lia.
    apply binary_round_aux_exact; lia.
Qed.

Section VoicePath.
Import Codec.

(** A 16-bit integer goes through a number and back unchanged. *)
Lemma ToInt16_of_Z (n : Z) :
  -32768 <= n <= 32767 -> ToInt16 (of_Z n) = n.
Proof.
  intro H.
  assert (P : forall p : positive, Zpos p <= 32768 ->
              exists (m' q : positive),
                of_Z (Zpos p) = S754_finite false m' (Zneg q) /\
                Zpos m' / 2 ^ Zpos q = Zpos p).
  { intros p Hp.
    destruct (of_Z_pos p) as (m' & E & Em & _); [lia |].
    pose proof (digits2_pos_bounds p) as [B1 B2].
    set (d := Zpos (digits2_pos p)) in *.
    assert (Hd : 1 <= d <= 16).
    { split; [unfold d; lia |].
      destruct (Z.le_gt_cases d 16) as [? | C]; [assumption |].
      assert (2 ^ 16 <= 2 ^ (d - 1)) by (apply Z.pow_le_mono_r; lia).
      change (2 ^ 16) with 65536 in *. lia. }
    destruct (d - 53) as [| q | q] eqn:Eq; try lia.
    exists m', q. split; [exact E |].
    rewrite Em. replace (53 - d) with (Zpos q) by lia.
    apply Z.div_mul. apply Z.pow_nonzero; lia. }
  destruct n as [| p | p].
  - reflexivity.
  - destruct (P p ltac:(lia)) as (m' & q & -> & E).
    cbn [ToInt16 cond_Zopp]. rewrite E. apply wrap16_id. lia.
  - rewrite of_Z_opp. destruct (P p ltac:(lia)) as (m' & q & -> & E).
    cbn [SFopp negb ToInt16 cond_Zopp]. rewrite E. apply wrap16_id. lia.
Qed.

Lemma Int16Array_of_compressed e (audioData : list spec_float) :
  Forall sample audioData ->
  Voice.Int16Array_of e
    (map (fun n => JNum (of_Z n)) (compressAudio audioData))
  = Some (compressAudio audioData).
Proof.
  induction 1 as [| x l (F & L & U) _ IH]; [reflexivity |].
  cbn [compressAudio map Voice.Int16Array_of Engine.ToNumber].
  unfold compressAudio in IH. rewrite IH.
  destruct (compress_sample_scaled x F (conj L U)) as [_ R].
  rewrite ToInt16_of_Z by lia. reflexivity.
Qed.

(** X17.  What is heard is what was said: when a player of the store
    sends the frame that [sendAudioData] builds from a non-empty buffer of
    samples in [-1, 1], the server relays it, and from every relayed
    frame [playAudioStream] plays as many samples, each within one
    quantization step, 1/32767, of the sample that was recorded. *)
Theorem what_is_heard_is_what_was_said
    (e : Engine.t) (s : state) (sid : string) (player : Player.t)
    (audioData : list spec_float) (now t_packet t_latency : Z) :
  wf s ->
  player_of s sid = Some player ->
  audioData <> [] ->
  Forall sample audioData ->
  let r := on_audioStream e sid (Voice.sendAudioData audioData now)
             t_packet t_latency s in
  snd r <> [] /\
  forall em, In em (snd r) ->
    exists frame played,
      snd em = AudioStream frame /\
      Voice.playAudioStream e frame = Some played /\
      Forall2 (fun x y => (Qabs (value y - value x) <= step)%Q)
              audioData played.
Proof.
  intros W G NE Sm r.
  assert (A : audio_guard (Voice.sendAudioData audioData now) = true)
    by reflexivity.
  assert (T : timestamp_ok e (Voice.sendAudioData audioData now)).
  { intros _. cbn. discriminate. }
  destruct (on_audioStream_accepted e sid _ t_packet t_latency s player
              W G A T) as [_ E].
  cbv zeta in E. fold r in E.
  set (frame := tagged (Voice.sendAudioData audioData now) sid
                  (Player.name player)) in *.
  assert (Pl : Voice.playAudioStream e frame
               = Some (decompressAudio (compressAudio audioData))).
  { unfold Voice.playAudioStream, frame. rewrite tagged_data.
    cbn [Voice.sendAudioData spread lookup String.eqb Ascii.eqb Bool.eqb].
    pose proof (Int16Array_of_compressed e audioData Sm) as Ia.
    destruct audioData as [| x l]; [contradiction |].
    cbn [compressAudio map] in *. rewrite Ia. reflexivity. }
  assert (Rt : Forall2 (fun x y => (Qabs (value y - value x) <= step)%Q)
                 audioData (decompressAudio (compressAudio audioData))).
  { clear - Sm. induction Sm as [| x l (F & L & U) _ IH]; simpl;
      constructor; [| exact IH].
    apply sample_roundtrip; [exact F | split; assumption]. }
  split.
  - rewrite E. destruct (getNearbyPlayers _ _ _); discriminate.
  - intros em I. exists frame, (decompressAudio (compressAudio audioData)).
    split; [| split; [exact Pl | exact Rt]].
    rewrite E in I. destruct (getNearbyPlayers _ _ _) as [| n l].
    + destruct I as [<- | []]. reflexivity.
    + apply in_map_iff in I. destruct I as (k & <- & _). reflexivity.
Qed.

(** Tank A of the line-up says three samples; tanks B and C hear them. *)
Lemma what_is_heard_is_what_was_said_witness :
  let s := Scenario.after Scenario.lined_up in
  let said := [ S754_finite false 8388608 (-24);
                S754_finite true 8388608 (-23);
                S754_finite false 11184811 (-25) ] in
  let r := on_audioStream Engine.table "A" (Voice.sendAudioData said 5000)
             5000 5000 s in
  exists player,
    player_of s "A" = Some player /\
    delivered (sockets s) (snd r) = [ "B"; "C" ] /\
    snd r <> [] /\
    forall em, In em (snd r) ->
      exists frame played,
        snd em = AudioStream frame /\
        Voice.playAudioStream Engine.table frame = Some played /\
        Forall2 (fun x y => (Qabs (value y - value x) <= step)%Q)
                said played.
Proof.
  intros s said r. eexists.
  split; [vm_compute; reflexivity |].
  split; [vm_compute; reflexivity |].
  refine (what_is_heard_is_what_was_said Engine.table s "A" _ said 5000
            5000 5000 (wf_after Scenario.lined_up) _ _ _).
  - vm_compute; reflexivity.
  - discriminate.
  - repeat constructor; vm_compute; discriminate.
Defined.

(** *** The voice frame on the wire *)

Lemma number_of_Z (n : Z) :
  - 2 ^ 53 < n < 2 ^ 53 -> Wire.number (of_Z n) = JNum (of_Z n).
Proof.
  intro H. destruct n as [| p | p].
  - reflexivity.
  - destruct (of_Z_pos p) as (m' & -> & _); [lia | reflexivity].
  - rewrite of_Z_opp. destruct (of_Z_pos p) as (m' & -> & _); [lia | reflexivity].
Qed.

Lemma value_samples (l : list Z) :
  Forall (fun n => - 2 ^ 53 < n < 2 ^ 53) l ->
  Wire.value (JArr (map (fun n => JNum (of_Z n)) l))
  = JArr (map (fun n => JNum (of_Z n)) l).
Proof.
  intro F. cbn [Wire.value]. f_equal. rewrite map_map.
  apply map_ext_in. intros n I. rewrite Forall_forall in F.
  cbn [Wire.value]. rewrite number_of_Z by (apply F; exact I). reflexivity.
Qed.

Lemma compressAudio_small (audioData : list spec_float) :
  Forall sample audioData ->
  Forall (fun n => - 2 ^ 53 < n < 2 ^ 53) (compressAudio audioData).
Proof.
  induction 1 as [| x l (F & L & U) _ IH]; [constructor |].
  cbn [compressAudio map]. constructor; [| exact IH].
  destruct (compress_sample_scaled x F (conj L U)) as [_ R]. lia.
Qed.

(** The frame that [sendAudioData] builds is played from the relayed
    message as it comes off the wire just as from the message the server
    emits: its samples are 16-bit integers, which JSON carries as they
    are. *)
Lemma a_voice_frame_is_played_off_the_wire
    (e : Engine.t) (audioData : list spec_float) (now : Z)
    (sid name : string) :
  Forall sample audioData ->
  let frame := tagged (Voice.sendAudioData audioData now) sid name in
  Voice.playAudioStream e (Wire.properties frame)
  = Voice.playAudioStream e frame.
Proof.
  intros Sm frame. unfold Voice.playAudioStream.
  assert (D : lookup "data" (Wire.properties frame) = lookup "data" frame).
  { unfold frame, tagged, Voice.sendAudioData, Wire.properties.
    cbn [spread set_field String.eqb Ascii.eqb Bool.eqb].
    pose proof (value_samples _ (compressAudio_small audioData Sm)) as V.
    cbn [Wire.value] in *.
    injection V as V. rewrite V.
    destruct (Wire.number (of_Z now)) eqn:En;
      try (destruct (of_Z now); discriminate En);
      destruct (Wire.number (of_Z Voice.sampleRate)) eqn:Es;
      try discriminate Es; reflexivity. }
  rewrite D. reflexivity.
Qed.

End VoicePath.

(* ------------------------------------------------------------------ *)
(** ** The shades of a tank *)

(** A colour of the form [hsl(...)] has no digit of radix 16 at its
    start: [parseInt] gives NaN. *)
Lemma num_of_hsl (rest : string) :
  Color.num_of (String.append "hsl(" rest) = nan.
Proof. reflexivity. Qed.

(** X18.  The server gives every player a colour of the form
    [hsl(..., 70%, 50%)], and the client draws a tank with
    [lightenColor(player.color, 20)] and [darkenColor(player.color, 20)].
    For every such colour [parseInt] yields NaN, so the two shades are
    ["#333333"] and ["#000000"] whatever the colour is; for any other
    percentage, too, they depend on the percentage only. *)
Theorem tank_shades_ignore_the_colour (rest : string) :
  let color := String.append "hsl(" rest in
  Color.num_of color = nan /\
  Color.lightenColor color (of_Z 20) = Some "#333333" /\
  Color.darkenColor color (of_Z 20) = Some "#000000" /\
  forall percent,
    Color.lightenColor color percent
      = Color.lightenColor "hsl(0, 70%, 50%)" percent /\
    Color.darkenColor color percent
      = Color.darkenColor "hsl(0, 70%, 50%)" percent.
Proof.
  intro color. pose proof (num_of_hsl rest) as E. fold color in E.
  split; [exact E |].
  unfold Color.lightenColor, Color.darkenColor. rewrite E.
  split; [vm_compute; reflexivity |].
  split; [vm_compute; reflexivity |].
  intro percent. split; reflexivity.
Qed.

(** On colours written in radix 16 the two functions shift each channel
    by 51 and hold it to [0, 255]; digits beyond the sixth count as a
    red channel above 255. *)
Example shades_of_hex_colours :
  Color.lightenColor "#336699" (of_Z 20) = Some "#6699cc" /\
  Color.darkenColor "#336699" (of_Z 20) = Some "#003366" /\
  Color.lightenColor "#abc" (of_Z 20) = Some "#333def" /\
  Color.lightenColor "#12345678" (of_Z 20) = Some "#ff89ab" /\
  Color.darkenColor "#336699" nan = Some "#aN".
Proof. vm_compute. repeat split. Qed.
